(** * SahelPay SDKs: capability matrix, status poller, webhook verifier and
      event parser, embedded from the PHP and TypeScript sources.

    Conventions of the embedding.
    - PHP strings are byte strings and are modelled by [string]; a JavaScript
      string is modelled by the [string] of its UTF-16 code units, which
      covers the strings whose code units are below 256 (every HTTP header
      value is one); [Buffer_from] is their UTF-8 encoding.
    - JavaScript numbers that hold milliseconds, seconds and tolerances are
      integers ([Z]); the poller's delay, which is multiplied by 1.5, is an
      exact rational ([Q]).
    - Clock reads ([Date.now()], [time()]) are explicit inputs; in the
      pollers time passes in timers and while a status check is awaited,
      and [onStatus] is a callback that may throw.
    - Exceptions are values: a computation that may throw gives [Return v]
      or [Throw e], together with the signature comparisons it made and
      the primitive that made each.
    - The hash, the JSON reader and the number readers of the runtimes are
      written out (SHA-256, HMAC, RFC 8259, [parseInt]); PHP's [intval] is a
      parameter of [Webhook.verify]. *)

From Stdlib Require Import ZArith List String Ascii Bool Lia QArith Qround Qminmax.
Import ListNotations.
Open Scope string_scope.
Open Scope list_scope.
Open Scope Z_scope.

(* ====================================================================== *)
(** * Definitions *)
(* ====================================================================== *)

(** ** PHP arrays with string keys, in insertion order *)

Fixpoint array_get {V : Type} (key : string) (a : list (string * V)) : option V :=
  match a with
  | [] => None
  | (k, v) :: rest => if String.eqb key k then Some v else array_get key rest
  end.

Definition array_keys {V : Type} (a : list (string * V)) : list string :=
  map fst a.

(** ** src/php/src/Capabilities.php *)

Module Capabilities.

Definition PAYMENT_METHODS : list string :=
  ["ORANGE_MONEY"; "WAVE"; "MOOV"; "CARD"; "VISA"; "MASTERCARD"; "GIM_UEMOA"].

Definition CAPABILITY_TYPES : list string :=
  ["payments"; "payment_links"; "qr_code"; "payouts"; "withdrawals";
   "opr"; "splits"; "customer_portal"].

Definition MATRIX : list (string * list (string * bool)) :=
  [ ("ORANGE_MONEY",
      [("payments", true); ("payment_links", true); ("qr_code", false);
       ("payouts", true); ("withdrawals", true); ("opr", true);
       ("splits", false); ("customer_portal", false)]);
    ("WAVE",
      [("payments", true); ("payment_links", true); ("qr_code", true);
       ("payouts", true); ("withdrawals", true); ("opr", true);
       ("splits", false); ("customer_portal", false)]);
    ("MOOV",
      [("payments", true); ("payment_links", true); ("qr_code", false);
       ("payouts", true); ("withdrawals", true); ("opr", true);
       ("splits", false); ("customer_portal", false)]);
    ("CARD",
      [("payments", true); ("payment_links", true); ("qr_code", false);
       ("payouts", false); ("withdrawals", true); ("opr", false);
       ("splits", true); ("customer_portal", true)]);
    ("VISA",
      [("payments", true); ("payment_links", true); ("qr_code", false);
       ("payouts", false); ("withdrawals", true); ("opr", false);
       ("splits", true); ("customer_portal", true)]);
    ("MASTERCARD",
      [("payments", true); ("payment_links", true); ("qr_code", false);
       ("payouts", false); ("withdrawals", true); ("opr", false);
       ("splits", true); ("customer_portal", true)]);
    ("GIM_UEMOA",
      [("payments", true); ("payment_links", true); ("qr_code", false);
       ("payouts", false); ("withdrawals", true); ("opr", false);
       ("splits", false); ("customer_portal", false)]) ].

(** [self::MATRIX[$method][$capability] ?? false] *)
Definition has (method capability : string) : bool :=
  match array_get method MATRIX with
  | Some caps =>
      match array_get capability caps with
      | Some b => b
      | None => false
      end
  | None => false
  end.

(** [self::MATRIX[$method] ?? null] *)
Definition get (method : string) : option (list (string * bool)) :=
  array_get method MATRIX.

(** The [foreach] over the matrix, keeping the methods whose row has the
    capability set ([$caps[$capability] ?? false]). *)
Definition getMethodsWithCapability (capability : string) : list string :=
  map fst
    (filter (fun row : string * list (string * bool) =>
               match array_get capability (snd row) with
               | Some b => b
               | None => false
               end)
            MATRIX).

Definition getAll : list (string * list (string * bool)) := MATRIX.

Definition DESCRIPTIONS : list (string * list (string * string)) :=
  [("ORANGE_MONEY",
    [("payments", "Paiement via Orange Money");
     ("payment_links", "Liens de paiement SahelPay");
     ("qr_code", "Non disponible");
     ("payouts", "Envoi d'argent vers Orange Money");
     ("withdrawals", "Retrait vers Orange Money");
     ("opr", "Request-to-pay via Push USSD");
     ("splits", "Via SahelPay Split");
     ("customer_portal", "Non disponible")]);
   ("WAVE",
    [("payments", "Paiement via Wave (QR + Push)");
     ("payment_links", "Liens de paiement SahelPay");
     ("qr_code", "QR Code Wave natif");
     ("payouts", "Envoi d'argent via Wave");
     ("withdrawals", "Retrait vers Wave");
     ("opr", "Request-to-pay Wave");
     ("splits", "Via SahelPay Split");
     ("customer_portal", "Non disponible")]);
   ("MOOV",
    [("payments", "Paiement via Moov Money");
     ("payment_links", "Liens de paiement SahelPay");
     ("qr_code", "Non disponible");
     ("payouts", "Envoi d'argent via Moov");
     ("withdrawals", "Retrait vers Moov");
     ("opr", "Request-to-pay via Push USSD");
     ("splits", "Via SahelPay Split");
     ("customer_portal", "Non disponible")]);
   ("CARD",
    [("payments", "Paiement par carte (3DS Secure)");
     ("payment_links", "Liens de paiement SahelPay");
     ("qr_code", "Non applicable");
     ("payouts", "Non supporté");
     ("withdrawals", "Virement bancaire");
     ("opr", "Non applicable");
     ("splits", "Marketplace splits");
     ("customer_portal", "Gestion des cartes")]);
   ("VISA",
    [("payments", "Paiement par carte VISA");
     ("payment_links", "Liens de paiement SahelPay");
     ("qr_code", "Non applicable");
     ("payouts", "Non supporté");
     ("withdrawals", "Virement bancaire");
     ("opr", "Non applicable");
     ("splits", "Marketplace splits");
     ("customer_portal", "Gestion des cartes")]);
   ("MASTERCARD",
    [("payments", "Paiement par Mastercard");
     ("payment_links", "Liens de paiement SahelPay");
     ("qr_code", "Non applicable");
     ("payouts", "Non supporté");
     ("withdrawals", "Virement bancaire");
     ("opr", "Non applicable");
     ("splits", "Marketplace splits");
     ("customer_portal", "Gestion des cartes")]);
   ("GIM_UEMOA",
    [("payments", "Paiement par carte GIM-UEMOA");
     ("payment_links", "Liens de paiement SahelPay");
     ("qr_code", "Non applicable");
     ("payouts", "Non supporté");
     ("withdrawals", "Virement bancaire");
     ("opr", "Non applicable");
     ("splits", "Via SahelPay Split");
     ("customer_portal", "Non disponible")])].

(** [self::DESCRIPTIONS[$method][$capability] ?? 'Non documenté'] *)
Definition getDescription (method capability : string) : string :=
  match array_get method DESCRIPTIONS with
  | Some texts =>
      match array_get capability texts with
      | Some text => text
      | None => "Non documenté"
      end
  | None => "Non documenté"
  end.

End Capabilities.

(** ** Exceptions and promises *)

(** The outcome of a call that may throw. *)
Inductive completion (E A : Type) : Type :=
| Return (v : A)
| Throw (e : E).
Arguments Return {E A} v.
Arguments Throw {E A} e.

(** JavaScript errors by class: the built-in ones and
    [new SahelPayError(message, code, statusCode)]. *)
Inductive js_error : Type :=
| Error (message : string)
| RangeError (message : string)
| SyntaxError (message : string)
| TypeError (message : string)
| SahelPayError (message code : string) (statusCode : option Z).

(** [error.message] *)
Definition error_message (e : js_error) : string :=
  match e with
  | Error m | RangeError m | SyntaxError m | TypeError m | SahelPayError m _ _ => m
  end.

(** A settled promise. *)
Inductive settled (A : Type) : Type :=
| Resolved (v : A)
| Rejected (e : js_error).
Arguments Resolved {A} v.
Arguments Rejected {A} e.

(** [x || d] on an optional number: [undefined] and [0] give [d]. *)
Definition js_or (x : option Z) (d : Z) : Z :=
  match x with
  | Some v => if v =? 0 then d else v
  | None => d
  end.

(** [list.includes(s)] on an array of strings. *)
Definition includes (l : list string) (s : string) : bool :=
  existsb (String.eqb s) l.

(** ** src/javascript/src/index.ts: the status pollers *)

(** Time passes in timers and while a check is awaited.
    [setTimeout(check, delay)] fires after [delay] milliseconds, truncated;
    a delay outside [1, 2^31 - 1] is replaced by 1 (Node.js timers). *)
Definition setTimeout_ms (delay : Q) : Z :=
  if Qle_bool 1 delay && Qle_bool delay 2147483647 then Qfloor delay else 1.

(** [Math.min(delay * 1.5, 10000)] *)
Definition backoff (delay : Q) : Q := Qmin (delay * (3 # 2)) 10000.

(** [options.onStatus]: what its call in the [n]-th check does with the
    status and the snapshot, return or throw. *)
Definition callback (A : Type) : Type :=
  nat -> string -> A -> completion js_error unit.

(** What one run of a poller leaves behind: how the promise settled, the
    result of each status check in order, the [onStatus] calls in order,
    and the clock when it settled. *)
Record run (A : Type) : Type := mkRun {
  result : settled A;
  observed : list (completion js_error (string * A));
  notified : list (string * A);
  settled_at : Z
}.
Arguments mkRun {A}.
Arguments result {A}.
Arguments observed {A}.
Arguments notified {A}.
Arguments settled_at {A}.

Definition after_check {A : Type} (r : completion js_error (string * A))
    (calls : list (string * A)) (rest : run A) : run A :=
  mkRun (result rest) (r :: observed rest) (calls ++ notified rest) (settled_at rest).

Section Poller.
Context {A : Type}.
(** The statuses that end the poll, and the error of a timeout. *)
Variable terminal : list string.
Variable timeout_error : js_error.
(** The [n]-th status check: a status with its snapshot, or a thrown
    error. *)
Variable checkStatus : nat -> completion js_error (string * A).
(** The milliseconds between the time the [n]-th call of [check] is due
    and its reading of [Date.now()]: a timer that fires late, the status
    check awaited and the callback. *)
Variable elapsed : nat -> N.
(** [options.onStatus], when supplied. *)
Variable onStatus : option (callback A).
Variables start timeout : Z.

(** The closure [check], from its [n]-th call on, made at clock [now];
    [None] when [fuel] calls do not settle the promise. *)
Fixpoint check (fuel n : nat) (now : Z) (delay : Q) : option (run A) :=
  match fuel with
  | O => None
  | S fuel' =>
      let now' := now + Z.of_N (elapsed n) in
      match checkStatus n with
      | Return (status, snapshot) =>
          let calls := match onStatus with
                       | Some _ => [(status, snapshot)]
                       | None => []
                       end in
          match match onStatus with
                | Some called => called n status snapshot
                | None => Return tt
                end with
          | Return _ =>
              if includes terminal status then
                Some (mkRun (Resolved snapshot) [Return (status, snapshot)] calls now')
              else if now' - start >? timeout then
                Some (mkRun (Rejected timeout_error) [Return (status, snapshot)] calls now')
              else
                let delay' := backoff delay in
                option_map (after_check (Return (status, snapshot)) calls)
                           (check fuel' (S n) (now' + setTimeout_ms delay') delay')
          | Throw error =>
              (* catch: the callback threw *)
              if now' - start >? timeout then
                Some (mkRun (Rejected error) [Return (status, snapshot)] calls now')
              else
                option_map (after_check (Return (status, snapshot)) calls)
                           (check fuel' (S n) (now' + setTimeout_ms delay) delay)
          end
      | Throw error =>
          (* catch: the status check threw *)
          if now' - start >? timeout then
            Some (mkRun (Rejected error) [Throw error] [] now')
          else
            option_map (after_check (Throw error) [])
                       (check fuel' (S n) (now' + setTimeout_ms delay) delay)
      end
  end.
End Poller.

(** [options] of [poll]. *)
Record poll_options (A : Type) : Type := mkOptions {
  interval : option Z;
  timeout : option Z;
  onStatus : option (callback A)
}.
Arguments mkOptions {A}.
Arguments interval {A}.
Arguments timeout {A}.
Arguments onStatus {A}.

Module PaymentsAPI.

Record Payment : Type := mkPayment {
  id : string;
  reference_id : string;
  amount : Z;
  currency : string;
  provider : string;
  status : string;
  customer_phone : string
}.

(** [poll(referenceId, options)], called when the clock reads [clock];
    [checkStatus n] is what the [n]-th [this.checkStatus(referenceId)]
    gives and [elapsed n] how long that check takes. *)
Definition poll (fuel : nat) (clock : Z)
    (checkStatus : nat -> completion js_error (string * Payment))
    (elapsed : nat -> N)
    (options : poll_options Payment) : option (run Payment) :=
  let start := clock in
  let timeout := js_or (timeout options) 120000 in
  let delay := inject_Z (js_or (interval options) 2000) in
  check ["SUCCESS"; "FAILED"; "CANCELLED"] (Error "Polling timeout")
        checkStatus elapsed (onStatus options) start timeout fuel 0 start delay.

End PaymentsAPI.

Module PayoutsAPI.

Record Payout : Type := mkPayout {
  id : string;
  reference : string;
  amount : Z;
  fee : Z;
  net_amount : Z;
  provider : string;
  recipient_phone : string;
  status : string
}.

(** [poll(reference, options)]; [retrieve n] is what the [n]-th
    [this.retrieve(reference)] gives, and the status tested is the
    payout's own. *)
Definition poll (fuel : nat) (clock : Z)
    (retrieve : nat -> completion js_error Payout)
    (elapsed : nat -> N)
    (options : poll_options Payout) : option (run Payout) :=
  let start := clock in
  let timeout := js_or (timeout options) 120000 in
  let delay := inject_Z (js_or (interval options) 2000) in
  check ["COMPLETED"; "FAILED"; "CANCELLED"]
        (SahelPayError "Polling timeout" "TIMEOUT" (Some 408))
        (fun n => match retrieve n with
                  | Return payout => Return (status payout, payout)
                  | Throw e => Throw e
                  end)
        elapsed (onStatus options) start timeout fuel 0 start delay.

End PayoutsAPI.

(** ** Bytes *)

(** A byte is a [Z] in [0, 255]; the bytes of a PHP string are its
    characters. *)
Definition bytes_of_string (s : string) : list Z :=
  map (fun c => Z.of_N (N_of_ascii c)) (list_ascii_of_string s).

Definition string_of_bytes (l : list Z) : string :=
  string_of_list_ascii (map (fun b => ascii_of_N (Z.to_N b)) l).

(** UTF-8 encoding of a code point. *)
Definition utf8_encode (cp : Z) : list Z :=
  if cp <? 128 then [cp]
  else if cp <? 2048 then [192 + cp / 64; 128 + cp mod 64]
  else if cp <? 65536 then [224 + cp / 4096; 128 + (cp / 64) mod 64; 128 + cp mod 64]
  else [240 + cp / 262144; 128 + (cp / 4096) mod 64; 128 + (cp / 64) mod 64; 128 + cp mod 64].

(** A JSON text is written here with apostrophes where it has double
    quotes. *)
Definition quoted (s : string) : string :=
  string_of_list_ascii
    (map (fun c => if Ascii.eqb c "'"%char then ascii_of_nat 34 else c)
         (list_ascii_of_string s)).

Definition hex_digit (n : Z) : ascii :=
  nth (Z.to_nat n) (list_ascii_of_string "0123456789abcdef") "0"%char.

(** Lowercase hexadecimal rendering, two digits per byte. *)
Fixpoint hex (bytes : list Z) : string :=
  match bytes with
  | [] => EmptyString
  | b :: rest => String (hex_digit (b / 16)) (String (hex_digit (b mod 16)) (hex rest))
  end.

(** ** SHA-256 (FIPS 180-4) and HMAC (RFC 2104) *)

Module SHA256.

Definition w32 (x : Z) : Z := x mod 4294967296.
Definition add32 (x y : Z) : Z := w32 (x + y).
Definition not32 (x : Z) : Z := Z.lxor x 4294967295.
Definition rotr (n x : Z) : Z := Z.lor (Z.shiftr x n) (w32 (Z.shiftl x (32 - n))).
Definition Ch (x y z : Z) : Z := Z.lxor (Z.land x y) (Z.land (not32 x) z).
Definition Maj (x y z : Z) : Z :=
  Z.lxor (Z.lxor (Z.land x y) (Z.land x z)) (Z.land y z).
Definition Sigma0 (x : Z) : Z := Z.lxor (Z.lxor (rotr 2 x) (rotr 13 x)) (rotr 22 x).
Definition Sigma1 (x : Z) : Z := Z.lxor (Z.lxor (rotr 6 x) (rotr 11 x)) (rotr 25 x).
Definition sigma0 (x : Z) : Z := Z.lxor (Z.lxor (rotr 7 x) (rotr 18 x)) (Z.shiftr x 3).
Definition sigma1 (x : Z) : Z := Z.lxor (Z.lxor (rotr 17 x) (rotr 19 x)) (Z.shiftr x 10).

(** The integer cube root of [x] below [2 ^ bits]. *)
Fixpoint cube_root (bits : nat) (x r : Z) : Z :=
  match bits with
  | O => r
  | S bits' =>
      let candidate := r + 2 ^ Z.of_nat bits' in
      if candidate * candidate * candidate <=? x
      then cube_root bits' x candidate
      else cube_root bits' x r
  end.

Definition is_prime (n : Z) : bool :=
  forallb (fun d => negb (n mod Z.of_nat d =? 0)) (seq 2 (Z.to_nat n - 2)).

(** The first 64 primes. *)
Definition primes : list Z := filter is_prime (map Z.of_nat (seq 2 310)).

(** The round constants: the first 32 bits of the fractional parts of the
    cube roots of the first 64 primes. *)
Definition K : list Z :=
  Eval vm_compute in map (fun p => w32 (cube_root 36 (p * 2 ^ 96) 0)) primes.

(** The eight working words. *)
Record state : Type := mkState { a : Z; b : Z; c : Z; d : Z; e : Z; f : Z; g : Z; h : Z }.

(** The initial hash value: the first 32 bits of the fractional parts of
    the square roots of the first 8 primes. *)
Definition H0 : state :=
  Eval vm_compute in
    match map (fun p => w32 (Z.sqrt (p * 2 ^ 64))) (firstn 8 primes) with
    | [h0; h1; h2; h3; h4; h5; h6; h7] => mkState h0 h1 h2 h3 h4 h5 h6 h7
    | _ => mkState 0 0 0 0 0 0 0 0
    end.

(** Padding: a 1 bit, zeros up to 56 mod 64 bytes, the bit length on 64
    bits. *)
Fixpoint be_bytes (n : nat) (x : Z) : list Z :=
  match n with
  | O => []
  | S n' => (x / 256 ^ Z.of_nat n') mod 256 :: be_bytes n' x
  end.

Definition pad (msg : list Z) : list Z :=
  let len := Z.of_nat (List.length msg) in
  msg ++ [128] ++ repeat 0 (Z.to_nat ((55 - len) mod 64)) ++ be_bytes 8 (8 * len).

(** Big-endian 32-bit words of a block. *)
Fixpoint words (bytes : list Z) : list Z :=
  match bytes with
  | b0 :: b1 :: b2 :: b3 :: rest =>
      (((b0 * 256 + b1) * 256 + b2) * 256 + b3) :: words rest
  | _ => []
  end.

(** The message schedule, most recent word first. *)
Fixpoint schedule (n : nat) (recent : list Z) : list Z :=
  match n with
  | O => recent
  | S n' =>
      let w := add32 (add32 (sigma1 (nth 1 recent 0)) (nth 6 recent 0))
                     (add32 (sigma0 (nth 14 recent 0)) (nth 15 recent 0)) in
      schedule n' (w :: recent)
  end.

Definition round (s : state) (kw : Z * Z) : state :=
  let t1 := add32 (add32 (add32 (h s) (Sigma1 (e s))) (add32 (Ch (e s) (f s) (g s)) (fst kw)))
                  (snd kw) in
  let t2 := add32 (Sigma0 (a s)) (Maj (a s) (b s) (c s)) in
  mkState (add32 t1 t2) (a s) (b s) (c s) (add32 (d s) t1) (e s) (f s) (g s).

Definition compress (s : state) (block : list Z) : state :=
  let w := rev (schedule 48 (rev (words block))) in
  let s' := fold_left round (combine K w) s in
  mkState (add32 (a s) (a s')) (add32 (b s) (b s')) (add32 (c s) (c s')) (add32 (d s) (d s'))
          (add32 (e s) (e s')) (add32 (f s) (f s')) (add32 (g s) (g s')) (add32 (h s) (h s')).

Fixpoint blocks (n : nat) (s : state) (bytes : list Z) : state :=
  match n with
  | O => s
  | S n' => blocks n' (compress s (firstn 64 bytes)) (skipn 64 bytes)
  end.

Definition digest (s : state) : list Z :=
  be_bytes 4 (a s) ++ be_bytes 4 (b s) ++ be_bytes 4 (c s) ++ be_bytes 4 (d s) ++
  be_bytes 4 (e s) ++ be_bytes 4 (f s) ++ be_bytes 4 (g s) ++ be_bytes 4 (h s).

Definition sha256 (msg : list Z) : list Z :=
  let padded := pad msg in
  digest (blocks (List.length padded / 64) H0 padded).

End SHA256.

(** HMAC-SHA256 of [msg] under [key], 32 bytes. *)
Definition hmac_sha256 (key msg : list Z) : list Z :=
  let k0 := if (64 <? Z.of_nat (List.length key)) then SHA256.sha256 key else key in
  let k := k0 ++ repeat 0 (64 - List.length k0) in
  SHA256.sha256 (map (Z.lxor 0x5c) k ++ SHA256.sha256 (map (Z.lxor 0x36) k ++ msg)).

(** ** JSON texts (RFC 8259) *)

Module JSON.

(** A number literal: [mantissa * 10 ^ exponent], negated when [negative];
    [integral] when the literal has neither fraction nor exponent. *)
Record number : Type := mkNumber {
  negative : bool;
  mantissa : Z;
  exponent : Z;
  integral : bool
}.

(** Strings are held as bytes (PHP) or UTF-16 code units (JavaScript). *)
Unset Elimination Schemes.
Inductive json : Type :=
| JNull
| JBool (b : bool)
| JNumber (n : number)
| JString (s : list Z)
| JArray (items : list json)
| JObject (members : list (list Z * json)).
Set Elimination Schemes.

(** What separates [json_decode] from [JSON.parse]. *)
Record dialect : Type := mkDialect {
  (** nesting allowed for arrays and objects, when limited *)
  max_depth : option nat;
  (** string contents are bytes that must be well-formed UTF-8, and a
      [\u] escape is stored as UTF-8 (surrogates only in pairs) *)
  utf8 : bool
}.

Definition is_ws (c : Z) : bool :=
  (c =? 32) || (c =? 9) || (c =? 10) || (c =? 13).

Fixpoint skip_ws (s : list Z) : list Z :=
  match s with
  | c :: rest => if is_ws c then skip_ws rest else s
  | [] => []
  end.

Definition is_digit (c : Z) : bool := (48 <=? c) && (c <=? 57).

Definition hex_value (c : Z) : option Z :=
  if (48 <=? c) && (c <=? 57) then Some (c - 48)
  else if (97 <=? c) && (c <=? 102) then Some (c - 87)
  else if (65 <=? c) && (c <=? 70) then Some (c - 55)
  else None.

(** [digits acc n s]: the run of decimal digits in front of [s], added to
    [acc], with how many there are. *)
Fixpoint digits (acc : Z) (count : Z) (s : list Z) : Z * Z * list Z :=
  match s with
  | c :: rest => if is_digit c then digits (acc * 10 + (c - 48)) (count + 1) rest
                 else (acc, count, s)
  | [] => (acc, count, [])
  end.

(** number = [ minus ] int [ frac ] [ exp ] *)
Definition parse_number (s : list Z) : option (number * list Z) :=
  let (neg, s1) := match s with
                   | 45 :: rest => (true, rest)
                   | _ => (false, s)
                   end in
  let int_part :=
    match s1 with
    | 48 :: rest => Some (0, rest)
    | c :: _ => if is_digit c then let '(m, _, rest) := digits 0 0 s1 in Some (m, rest)
                else None
    | [] => None
    end in
  match int_part with
  | None => None
  | Some (m, s2) =>
      let frac :=
        match s2 with
        | 46 :: rest =>
            let '(m', k, rest') := digits m 0 rest in
            if k =? 0 then None else Some (m', - k, true, rest')
        | _ => Some (m, 0, false, s2)
        end in
      match frac with
      | None => None
      | Some (m3, e3, has_frac, s3) =>
          match s3 with
          | c :: rest =>
              if (c =? 101) || (c =? 69) then
                let (eneg, s4) := match rest with
                                  | 45 :: r => (true, r)
                                  | 43 :: r => (false, r)
                                  | _ => (false, rest)
                                  end in
                let '(ev, k, s5) := digits 0 0 s4 in
                if k =? 0 then None
                else Some (mkNumber neg m3 (e3 + (if eneg then - ev else ev)) false, s5)
              else Some (mkNumber neg m3 e3 (negb has_frac), s3)
          | [] => Some (mkNumber neg m3 e3 (negb has_frac), s3)
          end
      end
  end.

Definition is_cont (c : Z) : bool := (128 <=? c) && (c <=? 191).

(** The well-formed UTF-8 sequence in front of [s] that starts with a byte
    of 128 or more, with the rest. *)
Definition utf8_sequence (s : list Z) : option (list Z * list Z) :=
  match s with
  | b0 :: b1 :: rest =>
      if (194 <=? b0) && (b0 <=? 223) then
        if is_cont b1 then Some ([b0; b1], rest) else None
      else
        match rest with
        | b2 :: rest2 =>
            let lead3 :=
              ((b0 =? 224) && (160 <=? b1) && (b1 <=? 191)) ||
              ((225 <=? b0) && (b0 <=? 239) && negb (b0 =? 237) && is_cont b1) ||
              ((b0 =? 237) && (128 <=? b1) && (b1 <=? 159)) in
            if (224 <=? b0) && (b0 <=? 239) then
              if lead3 && is_cont b2 then Some ([b0; b1; b2], rest2) else None
            else
              match rest2 with
              | b3 :: rest3 =>
                  let lead4 :=
                    ((b0 =? 240) && (144 <=? b1) && (b1 <=? 191)) ||
                    ((241 <=? b0) && (b0 <=? 243) && is_cont b1) ||
                    ((b0 =? 244) && (128 <=? b1) && (b1 <=? 143)) in
                  if lead4 && is_cont b2 && is_cont b3
                  then Some ([b0; b1; b2; b3], rest3) else None
              | [] => None
              end
        | [] => None
        end
  | _ => None
  end.

(** Four hexadecimal digits. *)
Definition hex4 (s : list Z) : option (Z * list Z) :=
  match s with
  | h0 :: h1 :: h2 :: h3 :: rest =>
      match hex_value h0, hex_value h1, hex_value h2, hex_value h3 with
      | Some a, Some b, Some c, Some d => Some (((a * 16 + b) * 16 + c) * 16 + d, rest)
      | _, _, _, _ => None
      end
  | _ => None
  end.

(** The characters of a string literal after its opening quote, up to the
    closing quote. *)
Fixpoint parse_chars (d : dialect) (fuel : nat) (s : list Z) : option (list Z * list Z) :=
  match fuel with
  | O => None
  | S fuel' =>
      match s with
      | [] => None
      | 34 :: rest => Some ([], rest)
      | 92 :: esc :: rest =>
          let simple (c : Z) :=
            option_map (fun r => (c :: fst r, snd r)) (parse_chars d fuel' rest) in
          if esc =? 34 then simple 34
          else if esc =? 92 then simple 92
          else if esc =? 47 then simple 47
          else if esc =? 98 then simple 8
          else if esc =? 102 then simple 12
          else if esc =? 110 then simple 10
          else if esc =? 114 then simple 13
          else if esc =? 116 then simple 9
          else if esc =? 117 then
            match hex4 rest with
            | None => None
            | Some (u, rest1) =>
                if utf8 d then
                  if (55296 <=? u) && (u <=? 56319) then
                    match rest1 with
                    | 92 :: 117 :: rest2 =>
                        match hex4 rest2 with
                        | Some (lo, rest3) =>
                            if (56320 <=? lo) && (lo <=? 57343) then
                              option_map
                                (fun r => (utf8_encode (65536 + (u - 55296) * 1024 + (lo - 56320))
                                             ++ fst r, snd r))
                                (parse_chars d fuel' rest3)
                            else None
                        | None => None
                        end
                    | _ => None
                    end
                  else if (56320 <=? u) && (u <=? 57343) then None
                  else option_map (fun r => (utf8_encode u ++ fst r, snd r))
                                  (parse_chars d fuel' rest1)
                else option_map (fun r => (u :: fst r, snd r)) (parse_chars d fuel' rest1)
            end
          else None
      | c :: rest =>
          if c <? 32 then None
          else if c =? 92 then None
          else if utf8 d && (128 <=? c) then
            match utf8_sequence s with
            | Some (bytes, rest1) =>
                option_map (fun r => (bytes ++ fst r, snd r)) (parse_chars d fuel' rest1)
            | None => None
            end
          else option_map (fun r => (c :: fst r, snd r)) (parse_chars d fuel' rest)
      end
  end.

Fixpoint starts_with (prefix s : list Z) : option (list Z) :=
  match prefix, s with
  | [], _ => Some s
  | p :: prefix', c :: s' => if p =? c then starts_with prefix' s' else None
  | _ :: _, [] => None
  end.

Definition descend (depth : option nat) : option (option nat) :=
  match depth with
  | None => Some None
  | Some O => None
  | Some (S k) => Some (Some k)
  end.

(** A value; the elements of an array after its opening bracket; the
    members of an object after its opening brace. *)
Fixpoint parse_value (d : dialect) (fuel : nat) (depth : option nat) (s : list Z)
    {struct fuel} : option (json * list Z) :=
  match fuel with
  | O => None
  | S fuel' =>
      match skip_ws s with
      | [] => None
      | 110 :: rest => option_map (fun r => (JNull, r)) (starts_with [117; 108; 108] rest)
      | 116 :: rest => option_map (fun r => (JBool true, r)) (starts_with [114; 117; 101] rest)
      | 102 :: rest => option_map (fun r => (JBool false, r)) (starts_with [97; 108; 115; 101] rest)
      | 34 :: rest =>
          option_map (fun r => (JString (fst r), snd r)) (parse_chars d (S (List.length rest)) rest)
      | 91 :: rest =>
          match descend depth with
          | None => None
          | Some depth' =>
              match skip_ws rest with
              | 93 :: rest1 => Some (JArray [], rest1)
              | _ => option_map (fun r => (JArray (fst r), snd r))
                                (parse_elements d fuel' depth' rest)
              end
          end
      | 123 :: rest =>
          match descend depth with
          | None => None
          | Some depth' =>
              match skip_ws rest with
              | 125 :: rest1 => Some (JObject [], rest1)
              | _ => option_map (fun r => (JObject (fst r), snd r))
                                (parse_members d fuel' depth' rest)
              end
          end
      | c :: rest =>
          option_map (fun r => (JNumber (fst r), snd r)) (parse_number (c :: rest))
      end
  end
with parse_elements (d : dialect) (fuel : nat) (depth : option nat) (s : list Z)
    {struct fuel} : option (list json * list Z) :=
  match fuel with
  | O => None
  | S fuel' =>
      match parse_value d fuel' depth s with
      | None => None
      | Some (v, s1) =>
          match skip_ws s1 with
          | 44 :: s2 => option_map (fun r => (v :: fst r, snd r)) (parse_elements d fuel' depth s2)
          | 93 :: s2 => Some ([v], s2)
          | _ => None
          end
      end
  end
with parse_members (d : dialect) (fuel : nat) (depth : option nat) (s : list Z)
    {struct fuel} : option (list (list Z * json) * list Z) :=
  match fuel with
  | O => None
  | S fuel' =>
      match skip_ws s with
      | 34 :: s1 =>
          match parse_chars d (S (List.length s1)) s1 with
          | None => None
          | Some (key, s2) =>
              match skip_ws s2 with
              | 58 :: s3 =>
                  match parse_value d fuel' depth s3 with
                  | None => None
                  | Some (v, s4) =>
                      match skip_ws s4 with
                      | 44 :: s5 =>
                          option_map (fun r => ((key, v) :: fst r, snd r))
                                     (parse_members d fuel' depth s5)
                      | 125 :: s5 => Some ([(key, v)], s5)
                      | _ => None
                      end
                  end
              | _ => None
              end
          end
      | _ => None
      end
  end.

(** A whole JSON text: one value with nothing but white space around. *)
Definition parse (d : dialect) (text : list Z) : option json :=
  match parse_value d (2 * List.length text + 2) (max_depth d) text with
  | Some (v, rest) => match skip_ws rest with [] => Some v | _ => None end
  | None => None
  end.

End JSON.

(** ** Calls that may throw, with the comparisons they make *)

(** A comparison of a supplied signature with the expected one, by the
    primitive that makes it. *)
Inductive comparison : Type :=
| TimingSafe (a b : list Z)   (** [crypto.timingSafeEqual(a, b)], [hash_equals(a, b)] *)
| StrictEquals (a b : string) (** [a === b] *).

(** A computation: the comparisons made, in order, and the value returned
    or the exception thrown. *)
Definition M (E A : Type) : Type := list comparison * completion E A.

Definition ret {E A : Type} (v : A) : M E A := ([], Return v).

Definition throw {E A : Type} (e : E) : M E A := ([], Throw e).

Definition bind {E A B : Type} (m : M E A) (k : A -> M E B) : M E B :=
  match m with
  | (made, Return v) => let (made', r) := k v in (made ++ made', r)
  | (made, Throw e) => (made, Throw e)
  end.

(** [try { m } catch (e) { handler e }] *)
Definition try_catch {E A : Type} (m : M E A) (handler : E -> M E A) : M E A :=
  match m with
  | (made, Throw e) => let (made', r) := handler e in (made ++ made', r)
  | (made, Return v) => (made, Return v)
  end.

Notation "x <- m ;; k" := (bind m (fun x => k))
  (at level 61, m at next level, right associativity).

Definition comparisons {E A : Type} (m : M E A) : list comparison := fst m.

Definition outcome {E A : Type} (m : M E A) : completion E A := snd m.

Fixpoint bytes_eqb (a b : list Z) : bool :=
  match a, b with
  | [], [] => true
  | x :: a', y :: b' => (x =? y) && bytes_eqb a' b'
  | _, _ => false
  end.

(** [crypto.timingSafeEqual(a, b)]: throws when the byte lengths differ. *)
Definition timingSafeEqual (a b : list Z) : M js_error bool :=
  ([TimingSafe a b],
   if (List.length a =? List.length b)%nat then Return (bytes_eqb a b)
   else Throw (RangeError "Input buffers must have the same byte length")).

(** [a === b] on strings. *)
Definition strict_equals (a b : string) : M js_error bool :=
  ([StrictEquals a b], Return (String.eqb a b)).

(** What the duration of a comparison depends on: the lengths of the
    operands and, for a comparison that stops at the first difference, how
    many leading characters agree. *)
Fixpoint common_prefix (a b : list Z) : nat :=
  match a, b with
  | x :: a', y :: b' => if x =? y then S (common_prefix a' b') else O
  | _, _ => O
  end.

Definition timing (c : comparison) : nat * nat * option nat :=
  match c with
  | TimingSafe a b => (List.length a, List.length b, None)
  | StrictEquals a b =>
      (String.length a, String.length b,
       Some (common_prefix (bytes_of_string a) (bytes_of_string b)))
  end.

(** ** JavaScript strings and numbers *)

(** [Buffer.from(s)] and the bytes a hash is updated with: the UTF-8
    encoding of [s]. *)
Definition Buffer_from (s : string) : list Z :=
  flat_map utf8_encode (bytes_of_string s).

(** [s.split(sep)] for a one-character separator; [explode(sep, s)]. *)
Fixpoint split (sep : ascii) (s : string) : list string :=
  match s with
  | EmptyString => [EmptyString]
  | String c rest =>
      if Ascii.eqb c sep then EmptyString :: split sep rest
      else match split sep rest with
           | piece :: pieces => String c piece :: pieces
           | [] => [String c EmptyString]
           end
  end.

(** A string in a condition: the empty string is false. *)
Definition nonempty (s : string) : bool :=
  match s with
  | EmptyString => false
  | String _ _ => true
  end.

Definition js_white_space (c : Z) : bool :=
  (c =? 9) || (c =? 10) || (c =? 11) || (c =? 12) || (c =? 13) || (c =? 32) || (c =? 160).

Fixpoint trim_start (s : list Z) : list Z :=
  match s with
  | c :: rest => if js_white_space c then trim_start rest else s
  | [] => []
  end.

(** [parseInt(s, 10)]; [None] is NaN. *)
Definition parseInt (s : string) : option Z :=
  let s1 := trim_start (bytes_of_string s) in
  let (neg, s2) := match s1 with
                   | 45 :: rest => (true, rest)
                   | 43 :: rest => (false, rest)
                   | _ => (false, s1)
                   end in
  let '(v, count, _) := JSON.digits 0 0 s2 in
  if count =? 0 then None else Some (if neg then - v else v).

(** [JSON.parse] puts no bound on nesting and keeps code units as they
    are. *)
Definition js_json : JSON.dialect := JSON.mkDialect None false.

(** [JSON.parse(text)]; the text of the engine's message is not
    modelled. *)
Definition JSON_parse (text : string) : M js_error JSON.json :=
  match JSON.parse js_json (bytes_of_string text) with
  | Some v => ret v
  | None => throw (SyntaxError "Unexpected token in JSON")
  end.

(** [crypto.createHmac('sha256', secret).update(payload).digest('hex')] *)
Definition createHmac_sha256_hex (secret payload : string) : string :=
  hex (hmac_sha256 (Buffer_from secret) (Buffer_from payload)).

(** ** JavaScript values and the calls of the API *)

(** A number: a finite value, [NaN] or an infinity.  Every double is a
    rational, and the comparisons are those of doubles. *)
Inductive js_number : Type :=
| Finite (x : Q)
| NaN
| PosInfinity
| NegInfinity.

(** [a < b]: false as soon as one side is [NaN]. *)
Definition js_lt (a b : js_number) : bool :=
  match a, b with
  | Finite x, Finite y => negb (Qle_bool y x)
  | Finite _, PosInfinity => true
  | NegInfinity, Finite _ => true
  | NegInfinity, PosInfinity => true
  | _, _ => false
  end.

(** [a > b] *)
Definition js_gt (a b : js_number) : bool := js_lt b a.

(** Values: primitives, and objects as their own properties (arrays and
    functions are not needed here). *)
Unset Elimination Schemes.
Inductive js_value : Type :=
| JSUndefined
| JSNull
| JSBoolean (b : bool)
| JSNumber (n : js_number)
| JSString (s : string)
| JSObject (properties : list (string * js_value)).
Set Elimination Schemes.

(** An optional string property: [undefined] when it is not given. *)
Definition js_optional (s : option string) : js_value :=
  match s with
  | Some v => JSString v
  | None => JSUndefined
  end.

(** [v.key] for a key that no prototype defines: reading a property of
    [undefined] or [null] throws, a primitive has no such property. *)
Definition js_member (v : js_value) (key : string) : completion js_error js_value :=
  match v with
  | JSUndefined =>
      Throw (TypeError ("Cannot read properties of undefined (reading '" ++ key ++ "')"))
  | JSNull =>
      Throw (TypeError ("Cannot read properties of null (reading '" ++ key ++ "')"))
  | JSObject properties =>
      Return (match array_get key properties with
              | Some x => x
              | None => JSUndefined
              end)
  | _ => Return JSUndefined
  end.

(** [{ ...object, key: v }]: the property is replaced where it is, or
    added after the others. *)
Fixpoint js_define (key : string) (v : js_value) (properties : list (string * js_value))
    : list (string * js_value) :=
  match properties with
  | [] => [(key, v)]
  | (k, w) :: rest =>
      if String.eqb key k then (key, v) :: rest else (k, w) :: js_define key v rest
  end.

(** One call of [this.request(method, path, data, extraHeaders)]. *)
Record api_call : Type := mkCall {
  call_method : string;
  call_path : string;
  call_data : option js_value;
  call_headers : list (string * string)
}.

(** A method of the SDK gives the calls it made and what it returns or
    throws; [request] is what the API answers to a call. *)
Definition calling {A : Type} (request : api_call -> completion js_error js_value)
    (call : api_call) (k : js_value -> completion js_error A)
    : list api_call * completion js_error A :=
  ([call], match request call with
           | Return response => k response
           | Throw e => Throw e
           end).

Definition and_then {E A B : Type} (c : completion E A) (k : A -> completion E B)
    : completion E B :=
  match c with
  | Return v => k v
  | Throw e => Throw e
  end.

(** ** src/javascript/src/merchant.ts: [SahelPayMerchant.verifyWebhook] *)

Module SahelPayMerchant.

Record WebhookVerificationResult : Type := mkResult {
  valid : bool;
  payload : option JSON.json;
  error : option string
}.

Definition invalid (message : string) : WebhookVerificationResult :=
  mkResult false None (Some message).

(** The [parts] object filled from the header: [key=value] pieces with
    both sides non-empty, a later piece replacing an earlier one of the
    same key (the newest is first here). *)
Definition header_parts (signatureHeader : string) : list (string * string) :=
  fold_left
    (fun parts part =>
       match split "="%char part with
       | key :: value :: _ =>
           if nonempty key && nonempty value then (key, value) :: parts else parts
       | _ => parts
       end)
    (split ","%char signatureHeader) [].

(** [verifyWebhook(rawBody, signatureHeader, toleranceSeconds)] on a
    merchant whose [webhookSecret] is given, when [Date.now()] is
    [now_ms]. *)
Definition verifyWebhook (webhookSecret : option string) (now_ms : Z)
    (rawBody : string) (signatureHeader : option string) (toleranceSeconds : Z)
    : M js_error WebhookVerificationResult :=
  match webhookSecret with
  | None | Some EmptyString => ret (invalid "webhookSecret not configured")
  | Some secret =>
      match signatureHeader with
      | None | Some EmptyString => ret (invalid "Missing signature header")
      | Some header =>
          try_catch
            (let parts := header_parts header in
             match array_get "t" parts, array_get "v1" parts with
             | None, None =>
                 if Z.of_nat (String.length header) =? 64 then
                   (* Fallback: ancien format (signature simple) *)
                   let expected := createHmac_sha256_hex secret rawBody in
                   same <- timingSafeEqual (Buffer_from header) (Buffer_from expected) ;;
                   if negb same then ret (invalid "Invalid signature (legacy)")
                   else
                     parsed <- JSON_parse rawBody ;;
                     ret (mkResult true (Some parsed) None)
                 else ret (invalid "Invalid signature header format")
             | Some timestamp, Some signature =>
                 let timestampNum := parseInt timestamp in
                 let now := now_ms / 1000 in
                 if match timestampNum with
                    | Some t => Z.abs (now - t) >? toleranceSeconds
                    | None => false
                    end
                 then ret (invalid "Timestamp too old, possible replay attack")
                 else
                   let signed := (timestamp ++ "." ++ rawBody)%string in
                   let expected := createHmac_sha256_hex secret signed in
                   same <- timingSafeEqual (Buffer_from signature) (Buffer_from expected) ;;
                   if negb same then ret (invalid "Invalid signature")
                   else
                     parsed <- JSON_parse rawBody ;;
                     ret (mkResult true (Some parsed) None)
             | _, _ => ret (invalid "Invalid signature header format")
             end)
            (fun error => ret (invalid (error_message error)))
      end
  end.

(** [MerchantConfig] *)
Record MerchantConfig : Type := mkMerchantConfig {
  secretKey : string;
  webhookSecret : option string;
  environment : option string;
  baseUrl : option string;
  timeout : option Z
}.

(** The fields of a [SahelPayMerchant]. *)
Record instance : Type := mkInstance {
  this_baseUrl : string;
  this_secretKey : string;
  this_webhookSecret : option string;
  this_timeout : Z
}.

(** [new SahelPayMerchant(config)] *)
Definition new (config : MerchantConfig) : completion js_error instance :=
  if negb (nonempty (secretKey config)) then
    Throw (SahelPayError "secretKey is required" "CONFIG_ERROR" None)
  else
    Return (mkInstance
              match baseUrl config with
              | Some (String c url) => String c url
              | _ =>
                  if match environment config with
                     | Some e => String.eqb e "sandbox"
                     | None => false
                     end || String.prefix "sk_test_" (secretKey config)
                  then "https://sandbox.sahelpay.ml"
                  else "https://api.sahelpay.ml"
              end
              (secretKey config)
              (webhookSecret config)
              (js_or (timeout config) 30000)).

(** [CreatePaymentParams] *)
Record CreatePaymentParams : Type := mkCreatePaymentParams {
  amount : js_number;
  orderId : string;
  customerPhone : string;
  returnUrl : string;
  customerName : option string;
  customerEmail : option string;
  description : option string;
  metadata : option (list (string * js_value))
}.

(** [createPayment(params)] *)
Definition createPayment (request : api_call -> completion js_error js_value)
    (params : CreatePaymentParams) : list api_call * completion js_error js_value :=
  if js_lt (amount params) (Finite 100) then
    ([], Throw (SahelPayError "Montant minimum: 100 FCFA" "INVALID_AMOUNT" None))
  else if js_gt (amount params) (Finite 5000000) then
    ([], Throw (SahelPayError "Montant maximum: 5,000,000 FCFA" "INVALID_AMOUNT" None))
  else if negb (nonempty (orderId params)) then
    ([], Throw (SahelPayError "orderId requis" "MISSING_ORDER_ID" None))
  else if negb (nonempty (customerPhone params)) then
    ([], Throw (SahelPayError "customerPhone requis" "MISSING_PHONE" None))
  else if negb (nonempty (returnUrl params)) then
    ([], Throw (SahelPayError "returnUrl requis" "MISSING_RETURN_URL" None))
  else
    let idempotencyKey := ("merchant-order-" ++ orderId params)%string in
    calling request
      (mkCall "POST" "/v1/payments"
         (Some (JSObject
            [("amount", JSNumber (amount params));
             ("currency", JSString "XOF");
             ("payment_method", JSString "MOBILE_MONEY");
             ("country", JSString "ML");
             ("customer", JSObject
                [("phone", JSString (customerPhone params));
                 ("name", js_optional (customerName params));
                 ("email", js_optional (customerEmail params))]);
             ("return_url", JSString (returnUrl params));
             ("client_reference", JSString (orderId params));
             ("metadata", JSObject
                (js_define "description" (js_optional (description params))
                   (js_define "merchant_order_id" (JSString (orderId params))
                      match metadata params with
                      | Some properties => properties
                      | None => []
                      end)))]))
         [("X-Idempotency-Key", idempotencyKey)])
      (fun response =>
         and_then (js_member response "data") (fun data =>
         and_then (js_member data "id") (fun id =>
         and_then (js_member data "status") (fun status =>
         and_then (js_member data "amount") (fun amount =>
         and_then (js_member data "currency") (fun currency =>
         and_then (js_member data "redirect_url") (fun redirect_url =>
         and_then (js_member data "expires_at") (fun expires_at =>
         and_then (js_member data "created_at") (fun created_at =>
         Return (JSObject
           [("paymentId", id);
            ("status", status);
            ("amount", amount);
            ("currency", currency);
            ("redirectUrl", redirect_url);
            ("expiresAt", expires_at);
            ("createdAt", created_at)])))))))))).

(** [getPaymentStatus(paymentId)] *)
Definition getPaymentStatus (request : api_call -> completion js_error js_value)
    (paymentId : string) : list api_call * completion js_error js_value :=
  if negb (nonempty paymentId) then
    ([], Throw (SahelPayError "paymentId requis" "MISSING_PAYMENT_ID" None))
  else
    calling request
      (mkCall "GET" ("/v1/payments/" ++ paymentId ++ "/status") None [])
      (fun response =>
         and_then (js_member response "data") (fun data =>
         and_then (js_member data "id") (fun id =>
         and_then (js_member data "status") (fun status =>
         and_then (js_member data "amount") (fun amount =>
         and_then (js_member data "currency") (fun currency =>
         and_then (js_member data "provider_ref") (fun provider_ref =>
         and_then (js_member data "updated_at") (fun updated_at =>
         Return (JSObject
           [("paymentId", id);
            ("status", status);
            ("amount", amount);
            ("currency", currency);
            ("providerRef", provider_ref);
            ("updatedAt", updated_at)]))))))))).

End SahelPayMerchant.

(** ** src/javascript/src/index.ts: [WebhooksAPI] *)

Module WebhooksAPI.

(** [verifySignature(payload, signature, secret)]; [node] tells whether
    [window] is undefined. *)
Definition verifySignature (node : bool) (payload signature secret : string)
    : M js_error bool :=
  if node then strict_equals signature (createHmac_sha256_hex secret payload)
  else ret false.

(** [parseEvent(payload, signature, secret)] *)
Definition parseEvent (node : bool) (payload signature secret : string)
    : M js_error JSON.json :=
  ok <- verifySignature node payload signature secret ;;
  if negb ok then throw (Error "Invalid webhook signature")
  else JSON_parse payload.

End WebhooksAPI.

(** ** src/javascript/src/index.ts: [SahelPay] and [SahelPayClient] *)

Module SahelPay.

(** [SahelPayConfig] *)
Record SahelPayConfig : Type := mkSahelPayConfig {
  secretKey : string;
  environment : option string;
  baseUrl : option string;
  timeout : option Z
}.

(** The fields of a [SahelPayClient]. *)
Record SahelPayClient : Type := mkSahelPayClient {
  this_baseUrl : string;
  this_secretKey : string;
  this_timeout : Z
}.

(** [new SahelPayClient(config)] *)
Definition new_SahelPayClient (config : SahelPayConfig) : SahelPayClient :=
  mkSahelPayClient
    match baseUrl config with
    | Some (String c url) => String c url
    | _ =>
        if match environment config with
           | Some e => String.eqb e "sandbox"
           | None => false
           end
        then "https://sandbox.sahelpay.ml"
        else "https://api.sahelpay.ml"
    end
    (secretKey config)
    (js_or (timeout config) 30000).

(** [new SahelPay(config)]: the client its resources share. *)
Definition new (config : SahelPayConfig) : completion js_error SahelPayClient :=
  if negb (nonempty (secretKey config)) then Throw (Error "secretKey is required")
  else Return (new_SahelPayClient config).

End SahelPay.

(** ** PHP values *)

Inductive php_exception : Type :=
| RuntimeException (message : string)
| InvalidArgumentException (message : string)
| WebhookSignatureException (message : string)
| PhpTypeError.

Inductive php_key : Type :=
| KInt (i : Z)
| KStr (s : string).

Unset Elimination Schemes.
Inductive php_value : Type :=
| PNull
| PBool (b : bool)
| PInt (i : Z)
| PFloat (n : JSON.number)
| PString (s : string)
| PArray (entries : list (php_key * php_value)).
Set Elimination Schemes.

Definition php_key_eqb (k1 k2 : php_key) : bool :=
  match k1, k2 with
  | KInt i, KInt j => i =? j
  | KStr s, KStr t => String.eqb s t
  | _, _ => false
  end.

(** [$a[$k] ?? null]: an entry that is absent or null is not set. *)
Fixpoint php_array_get (k : php_key) (a : list (php_key * php_value)) : option php_value :=
  match a with
  | [] => None
  | (k', v) :: rest =>
      if php_key_eqb k k'
      then match v with PNull => None | _ => Some v end
      else php_array_get k rest
  end.

(** [$a[$k] = $v]: replaces in place or appends. *)
Fixpoint php_array_set (k : php_key) (v : php_value) (a : list (php_key * php_value))
    : list (php_key * php_value) :=
  match a with
  | [] => [(k, v)]
  | (k', v') :: rest =>
      if php_key_eqb k k' then (k, v) :: rest else (k', v') :: php_array_set k v rest
  end.

(** The key an array gives to a string: a canonical decimal integer that
    fits 64 bits is an integer key. *)
Definition php_key_of_string (s : string) : php_key :=
  let b := bytes_of_string s in
  let (neg, ds) := match b with
                   | 45 :: rest => (true, rest)
                   | _ => (false, b)
                   end in
  let '(v, count, rest) := JSON.digits 0 0 ds in
  let canonical :=
    negb (count =? 0) && match rest with [] => true | _ => false end &&
    match ds with 48 :: _ :: _ => false | _ => true end &&
    negb (neg && (v =? 0)) in
  let i := if neg then - v else v in
  if canonical && (- 2 ^ 63 <=? i) && (i <=? 2 ^ 63 - 1) then KInt i else KStr s.

Fixpoint php_list_from (i : Z) (items : list php_value) : list (php_key * php_value) :=
  match items with
  | [] => []
  | v :: rest => (KInt i, v) :: php_list_from (i + 1) rest
  end.

(** A float literal that reads as zero: a zero mantissa, or a value that
    rounds to zero in double precision (at most [2 ^ -1075]). *)
Definition float_is_zero (n : JSON.number) : bool :=
  (JSON.mantissa n =? 0) ||
  ((JSON.exponent n <? 0) &&
   (JSON.mantissa n * 2 ^ 1075 <=? 10 ^ (- JSON.exponent n))).

(** The PHP value of a decoded JSON text, objects as associative arrays. *)
Fixpoint to_php (v : JSON.json) : php_value :=
  match v with
  | JSON.JNull => PNull
  | JSON.JBool b => PBool b
  | JSON.JNumber n =>
      let i := if JSON.negative n then - JSON.mantissa n else JSON.mantissa n in
      if JSON.integral n && (- 2 ^ 63 <=? i) && (i <=? 2 ^ 63 - 1)
      then PInt i else PFloat n
  | JSON.JString s => PString (string_of_bytes s)
  | JSON.JArray items => PArray (php_list_from 0 (map to_php items))
  | JSON.JObject members =>
      PArray (fold_left
                (fun a kv => php_array_set (php_key_of_string (string_of_bytes (fst kv))) (snd kv) a)
                (map (fun kv => match kv with (k, w) => (k, to_php w) end) members)
                [])
  end.

(** [json_decode] reads UTF-8; under its default depth of 512, which
    counts the value inside the innermost array or object, arrays and
    objects nest at most 511 deep. *)
Definition php_json : JSON.dialect := JSON.mkDialect (Some 511%nat) true.

(** [json_decode($payload, true)]: null when the text is not JSON or nests
    deeper than that. *)
Definition json_decode (payload : string) : php_value :=
  match JSON.parse php_json (bytes_of_string payload) with
  | Some v => to_php v
  | None => PNull
  end.

(** A value in a condition. *)
Definition php_truthy (v : php_value) : bool :=
  match v with
  | PNull => false
  | PBool b => b
  | PInt i => negb (i =? 0)
  | PFloat n => negb (float_is_zero n)
  | PString s => negb (String.eqb s "" || String.eqb s "0")
  | PArray entries => match entries with [] => false | _ => true end
  end.

(** A nullable string in a condition: null, the empty string and ["0"] are
    false. *)
Definition php_truthy_string (s : option string) : bool :=
  match s with
  | None => false
  | Some s => negb (String.eqb s "" || String.eqb s "0")
  end.

(** [hash_hmac('sha256', $data, $key)] *)
Definition hash_hmac_sha256 (data key : string) : string :=
  hex (hmac_sha256 (bytes_of_string key) (bytes_of_string data)).

(** [hash_equals($known, $user)] *)
Definition hash_equals (known user : string) : M php_exception bool :=
  ([TimingSafe (bytes_of_string known) (bytes_of_string user)],
   Return (String.eqb known user)).

(** [explode($sep, $s, 2)]: cut at the first separator only. *)
Fixpoint explode2 (sep : ascii) (s : string) : list string :=
  match s with
  | EmptyString => [EmptyString]
  | String c rest =>
      if Ascii.eqb c sep then [EmptyString; rest]
      else match explode2 sep rest with
           | piece :: pieces => String c piece :: pieces
           | [] => [String c EmptyString]
           end
  end.

(** [$a[$k] = $v] on an array with string keys. *)
Fixpoint array_set {V : Type} (key : string) (v : V) (a : list (string * V))
    : list (string * V) :=
  match a with
  | [] => [(key, v)]
  | (k, w) :: rest =>
      if String.eqb key k then (key, v) :: rest else (k, w) :: array_set key v rest
  end.

(** ** src/php/src/Resources/Webhook.php *)

Module Webhook.

Definition DEFAULT_TOLERANCE : Z := 300.

(** The data of a [WebhookEvent]. *)
Record WebhookEvent : Type := mkWebhookEvent {
  data : list (php_key * php_value)
}.

(** [parseSignatureHeader($header)] *)
Definition parseSignatureHeader (header : string) : list (string * string) :=
  fold_left
    (fun parts part =>
       match explode2 "="%char part with
       | [key; value] => array_set key value parts
       | _ => parts
       end)
    (split ","%char header) [].

Section Verify.
(** [intval] on strings is the runtime's; [verify] is stated for every
    reading of the timestamp. *)
Variable intval : string -> Z.

(** [verify($payload, $signatureHeader, $tolerance)] on a configuration
    whose webhook secret is given, when [time()] is [now]. *)
Definition verify (webhookSecret : option string) (now : Z)
    (payload signatureHeader : string) (tolerance : Z) : M php_exception bool :=
  if negb (php_truthy_string webhookSecret) then
    throw (RuntimeException "Webhook secret non configuré")
  else
    let secret := match webhookSecret with Some s => s | None => "" end in
    let parts := parseSignatureHeader signatureHeader in
    let timestamp := array_get "t" parts in
    let signature := array_get "v1" parts in
    match timestamp, signature with
    | Some timestamp, Some signature =>
        if negb (php_truthy_string (Some timestamp)) || negb (php_truthy_string (Some signature))
        then throw (WebhookSignatureException
                      "Format de signature invalide. Attendu: t=<timestamp>,v1=<signature>")
        else if Z.abs (now - intval timestamp) >? tolerance
        then throw (WebhookSignatureException "Timestamp trop ancien, possible replay attack")
        else
          let signaturePayload := (timestamp ++ "." ++ payload)%string in
          let expectedSignature := hash_hmac_sha256 signaturePayload secret in
          same <- hash_equals expectedSignature signature ;;
          if negb same then throw (WebhookSignatureException "Signature invalide")
          else ret true
    | _, _ =>
        throw (WebhookSignatureException
                 "Format de signature invalide. Attendu: t=<timestamp>,v1=<signature>")
    end.

End Verify.

(** [parse($payload)]; the constructor of [WebhookEvent] takes an array. *)
Definition parse (payload : string) : M php_exception WebhookEvent :=
  let decoded := json_decode payload in
  if negb (php_truthy decoded) then throw (InvalidArgumentException "Payload JSON invalide")
  else match decoded with
       | PArray entries => ret (mkWebhookEvent entries)
       | _ => throw PhpTypeError
       end.

(** [constructEvent($payload, $signatureHeader, $tolerance)] *)
Definition constructEvent (intval : string -> Z) (webhookSecret : option string) (now : Z)
    (payload signatureHeader : string) (tolerance : Z) : M php_exception WebhookEvent :=
  _ <- verify intval webhookSecret now payload signatureHeader tolerance ;;
  parse payload.

(** [getType()]: [$this->data['event'] ?? $this->data['type'] ?? 'unknown'],
    returned as a string. *)
Definition getType (event : WebhookEvent) : M php_exception string :=
  match php_array_get (KStr "event") (data event) with
  | Some (PString s) => ret s
  | Some _ => throw PhpTypeError
  | None =>
      match php_array_get (KStr "type") (data event) with
      | Some (PString s) => ret s
      | Some _ => throw PhpTypeError
      | None => ret "unknown"
      end
  end.

End Webhook.

(** [intval] on a decimal integer with optional sign and leading blanks,
    within 64 bits; used to run [Webhook.verify] on such timestamps. *)
Definition intval_decimal (s : string) : Z :=
  let fix blanks (l : list Z) : list Z :=
    match l with
    | c :: rest => if (c =? 32) || ((9 <=? c) && (c <=? 13)) then blanks rest else l
    | [] => []
    end in
  let s1 := blanks (bytes_of_string s) in
  let (neg, s2) := match s1 with
                   | 45 :: rest => (true, rest)
                   | 43 :: rest => (false, rest)
                   | _ => (false, s1)
                   end in
  let '(v, _, _) := JSON.digits 0 0 s2 in
  Z.max (- 2 ^ 63) (Z.min (2 ^ 63 - 1) (if neg then - v else v)).

(** ** src/unnamed/part_001: the webhook route of the Next.js template *)

Module WebhookRoute.

(** What [verifySignature] returns. *)
Record verification : Type := mkVerification {
  valid : bool;
  error : option string
}.

(** The JSON body of a response: [{ error }] or [{ received: true }]. *)
Inductive reply : Type :=
| ErrorReply (message : option string)
| Received.

Record response : Type := mkResponse {
  status : Z;
  body : reply
}.

(** A parsed value or [undefined]. *)
Definition js_parsed : Type := option JSON.json.

(** [v[key]] for a key that no prototype defines: the last member of that
    name in an object, [undefined] in any other value; reading a property
    of [undefined] or [null] throws. *)
Definition member (v : js_parsed) (key : string) : M js_error js_parsed :=
  match v with
  | None =>
      throw (TypeError ("Cannot read properties of undefined (reading '" ++ key ++ "')"))
  | Some JSON.JNull =>
      throw (TypeError ("Cannot read properties of null (reading '" ++ key ++ "')"))
  | Some (JSON.JObject members) =>
      ret (fold_left
             (fun found m => if bytes_eqb (fst m) (bytes_of_string key) then Some (snd m)
                             else found)
             members None)
  | Some _ => ret None
  end.

(** Whether a value in a template literal throws: an object that has a
    [toString] member of its own (no parsed value is a function), or an
    array that joins one.  The depth of the engine's stack is not
    bounded. *)
Fixpoint unprintable (v : JSON.json) : bool :=
  match v with
  | JSON.JArray items => existsb unprintable items
  | JSON.JObject members =>
      existsb (fun m => bytes_eqb (fst m) (bytes_of_string "toString")) members
  | _ => false
  end.

(** [`... ${v} ...`] *)
Definition interpolate (v : js_parsed) : M js_error unit :=
  match v with
  | Some w =>
      if unprintable w then throw (TypeError "Cannot convert object to primitive value")
      else ret tt
  | None => ret tt
  end.

(** A parsed value in a condition. *)
Definition js_truthy (v : js_parsed) : bool :=
  match v with
  | None | Some JSON.JNull => false
  | Some (JSON.JBool b) => b
  | Some (JSON.JNumber n) => negb (float_is_zero n)
  | Some (JSON.JString s) => match s with [] => false | _ => true end
  | Some _ => true
  end.

Section Route.
(** [String(error)] is the engine's. *)
Variable String_error : js_error -> string.

(** [verifySignature(payload, signatureHeader, secret, toleranceSeconds)]
    when [Date.now()] is [now_ms]. *)
Definition verifySignature (now_ms : Z) (payload signatureHeader secret : string)
    (toleranceSeconds : Z) : M js_error verification :=
  try_catch
    (let parts := SahelPayMerchant.header_parts signatureHeader in
     match array_get "t" parts, array_get "v1" parts with
     | None, None =>
         if Z.of_nat (String.length signatureHeader) =? 64 then
           (* Fallback: ancien format *)
           let expected := createHmac_sha256_hex secret payload in
           isValid <- timingSafeEqual (Buffer_from signatureHeader) (Buffer_from expected) ;;
           ret (mkVerification isValid None)
         else ret (mkVerification false (Some "Invalid signature format"))
     | Some timestamp, Some signature =>
         (* Protection replay *)
         let timestampNum := parseInt timestamp in
         let now := now_ms / 1000 in
         if match timestampNum with
            | Some t => Z.abs (now - t) >? toleranceSeconds
            | None => false
            end
         then ret (mkVerification false (Some "Timestamp too old"))
         else
           let signaturePayload := (timestamp ++ "." ++ payload)%string in
           let expected := createHmac_sha256_hex secret signaturePayload in
           isValid <- timingSafeEqual (Buffer_from signature) (Buffer_from expected) ;;
           ret (mkVerification isValid (if isValid then None else Some "Invalid signature"))
     | _, _ => ret (mkVerification false (Some "Invalid signature format"))
     end)
    (fun error => ret (mkVerification false (Some (String_error error)))).

(** [POST(request)] for a request whose body reads as [rawBody] and whose
    [x-sahelpay-signature] header is [header], when the environment gives
    [SAHELPAY_WEBHOOK_SECRET]; what is written to the console is left
    out, but for the values it prints. *)
Definition POST (SAHELPAY_WEBHOOK_SECRET : option string) (now_ms : Z)
    (rawBody : string) (header : option string) : M js_error response :=
  try_catch
    (let signature := match header with
                      | Some s => s
                      | None => ""
                      end in
     refused <-
       match SAHELPAY_WEBHOOK_SECRET with
       | Some (String c secret) =>
           if negb (nonempty signature) then
             ret (Some (mkResponse 401 (ErrorReply (Some "Missing signature"))))
           else
             verification <- verifySignature now_ms rawBody signature (String c secret) 300 ;;
             if negb (valid verification) then
               ret (Some (mkResponse 401 (ErrorReply (error verification))))
             else ret None
       | _ => ret None
       end ;;
     match refused with
     | Some answer => ret answer
     | None =>
         payload <- JSON_parse rawBody ;;
         event <- member (Some payload) "event" ;;
         data <- member (Some payload) "data" ;;
         metadata <- member data "metadata" ;;
         orderId <- match metadata with
                    | None | Some JSON.JNull => ret None
                    | Some _ => member metadata "app_order_id"
                    end ;;
         _ <- interpolate event ;;
         id <- member data "id" ;;
         _ <- interpolate id ;;
         _ <- interpolate orderId ;;
         if negb (js_truthy orderId) then
           ret (mkResponse 400 (ErrorReply (Some "Missing order_id")))
         else ret (mkResponse 200 Received)
     end)
    (fun _ => ret (mkResponse 500 (ErrorReply (Some "Internal error")))).

End Route.

End WebhookRoute.

(** ** Vocabulary of the verifier's properties *)

Definition is_lower_hex (c : ascii) : bool :=
  existsb (Ascii.eqb c) (list_ascii_of_string "0123456789abcdef").

Definition is_hex_digit (c : ascii) : bool :=
  existsb (Ascii.eqb c) (list_ascii_of_string "0123456789abcdefABCDEF").

(** A bare signature: 64 hexadecimal characters and nothing else. *)
Definition is_hex64 (s : string) : bool :=
  (Z.of_nat (String.length s) =? 64) && forallb is_hex_digit (list_ascii_of_string s).

Definition is_ascii (c : ascii) : bool := Z.of_N (N_of_ascii c) <? 128.

(** A string without the character [c]. *)
Definition lacks (c : ascii) (s : string) : bool :=
  forallb (fun x => negb (Ascii.eqb x c)) (list_ascii_of_string s).

(** The header the gateway sends for a timestamp and a signature. *)
Definition signature_header (timestamp signature : string) : string :=
  ("t=" ++ timestamp ++ ",v1=" ++ signature)%string.

(** Whether [verifyWebhook] lets a timestamp through: a timestamp that
    [parseInt] reads is within the tolerance of the clock; one that it does
    not read is not checked. *)
Definition passes_freshness (now_ms tolerance : Z) (timestamp : string) : bool :=
  match parseInt timestamp with
  | Some t => negb (Z.abs (now_ms / 1000 - t) >? tolerance)
  | None => true
  end.

(** A comparison whose duration does not depend on where the operands
    differ. *)
Definition constant_time (c : comparison) : bool :=
  match c with
  | TimingSafe _ _ => true
  | StrictEquals _ _ => false
  end.

(** The webhook of the SDK's own examples. *)
Definition sample_secret : string := "whsec_test123".

Definition sample_body : string :=
  quoted "{'event':'payment.success','data':{'amount':1000}}".

(** ** Vocabulary of the capability matrix's properties *)

(** A description that says the capability is not there. *)
Definition says_unavailable (text : string) : bool :=
  existsb (String.eqb text)
          ["Non disponible"; "Non applicable"; "Non supporté"; "Non documenté"].

(** ** Vocabulary of the poller's properties *)

(** What the [n]-th check gives the poller: the answer of the status check
    when [onStatus] is absent or returns, the error the callback throws
    otherwise. *)
Definition attempt {A : Type} (onStatus : option (callback A)) (n : nat)
    (c : completion js_error (string * A)) : completion js_error (string * A) :=
  match c, onStatus with
  | Return (status, snapshot), Some called =>
      match called n status snapshot with
      | Return _ => c
      | Throw error => Throw error
      end
  | _, _ => c
  end.

(** A callback, when supplied, that returns whenever it is called. *)
Definition returns_normally {A : Type} (onStatus : option (callback A)) : Prop :=
  forall called, onStatus = Some called ->
  forall n status snapshot, called n status snapshot = Return tt.

(** A check result after which the poller goes on (within its time budget):
    a status outside the terminal list, or a thrown error. *)
Definition keeps_polling {A : Type} (terminal : list string)
    (c : completion js_error (string * A)) : bool :=
  match c with
  | Return (status, _) => negb (includes terminal status)
  | Throw _ => true
  end.

(** How the promise settles when a check result is the last one. *)
Definition settles {A : Type} (terminal : list string) (timeout_error : js_error)
    (c : completion js_error (string * A)) : settled A :=
  match c with
  | Return (status, snapshot) =>
      if includes terminal status then Resolved snapshot else Rejected timeout_error
  | Throw error => Rejected error
  end.

(** The statuses with their snapshots among check results, in order. *)
Definition statuses {A : Type} (obs : list (completion js_error (string * A)))
    : list (string * A) :=
  flat_map (fun c => match c with Return sp => [sp] | Throw _ => [] end) obs.

(** The terminal list of [PaymentsAPI.poll]. *)
Definition payment_terminal : list string := ["SUCCESS"; "FAILED"; "CANCELLED"].

(** ** Stubs used to exercise the pollers *)

(** Checks that take no time, as under fake timers. *)
Definition instant (n : nat) : N := 0%N.

(** Checks that take 150 ms each. *)
Definition slow (n : nat) : N := 150%N.

(** A callback that returns. *)
Definition listening {A : Type} : callback A := fun _ _ _ => Return tt.

(** A callback that throws on the status SUCCESS. *)
Definition throwing_on_success {A : Type} : callback A :=
  fun _ status _ =>
    if String.eqb status "SUCCESS" then Throw (Error "render failed") else Return tt.

Definition sample_payment (status : string) : PaymentsAPI.Payment :=
  PaymentsAPI.mkPayment "pay_1" "SP-123" 5000 "XOF" "ORANGE_MONEY" status "+22370000000".

(** A status check that answers PENDING, PENDING, then SUCCESS. *)
Definition pending_pending_success (n : nat)
    : completion js_error (string * PaymentsAPI.Payment) :=
  match n with
  | 0%nat | 1%nat => Return ("PENDING", sample_payment "PENDING")
  | _ => Return ("SUCCESS", sample_payment "SUCCESS")
  end.

(** A status check that always answers PENDING. *)
Definition always_pending (n : nat)
    : completion js_error (string * PaymentsAPI.Payment) :=
  Return ("PENDING", sample_payment "PENDING").

(** A status check whose request always fails ([fetch] throws). *)
Definition always_failing (n : nat)
    : completion js_error (string * PaymentsAPI.Payment) :=
  Throw (TypeError "fetch failed").

Definition sample_payout (status : string) : PayoutsAPI.Payout :=
  PayoutsAPI.mkPayout "po_1" "PAY_123" 10000 100 9900 "WAVE" "+22370000000" status.

(** A [retrieve] that answers PENDING, PROCESSING, then COMPLETED. *)
Definition payout_progress (n : nat) : completion js_error PayoutsAPI.Payout :=
  match n with
  | 0%nat => Return (sample_payout "PENDING")
  | 1%nat => Return (sample_payout "PROCESSING")
  | _ => Return (sample_payout "COMPLETED")
  end.

(** The longest timer a poll can set: the 10 s cap of the backoff, or the
    configured interval when it is larger. *)
Definition poll_slack {A : Type} (options : poll_options A) : Z :=
  Z.max 10000 (setTimeout_ms (inject_Z (js_or (interval options) 2000))).

(** ** Vocabulary of the merchant client's and the route's properties *)

(** The validation of [createPayment]: none of its five tests fires. *)
Definition createPayment_accepts (params : SahelPayMerchant.CreatePaymentParams) : bool :=
  negb (js_lt (SahelPayMerchant.amount params) (Finite 100)) &&
  negb (js_gt (SahelPayMerchant.amount params) (Finite 5000000)) &&
  nonempty (SahelPayMerchant.orderId params) &&
  nonempty (SahelPayMerchant.customerPhone params) &&
  nonempty (SahelPayMerchant.returnUrl params).

(** A header that carries a signature of [body] under [secret]: a [v1]
    part that is the HMAC-SHA256 of [t.body] with a timestamp that passes
    the freshness test, or the bare HMAC-SHA256 of the body. *)
Definition signed_by (secret body header : string) (now_ms tolerance : Z) : Prop :=
  (exists timestamp signature,
     array_get "t" (SahelPayMerchant.header_parts header) = Some timestamp /\
     array_get "v1" (SahelPayMerchant.header_parts header) = Some signature /\
     passes_freshness now_ms tolerance timestamp = true /\
     signature = createHmac_sha256_hex secret (timestamp ++ "." ++ body)) \/
  (array_get "t" (SahelPayMerchant.header_parts header) = None /\
   array_get "v1" (SahelPayMerchant.header_parts header) = None /\
   header = createHmac_sha256_hex secret body).



(** [depth] arrays inside one another, the innermost empty. *)
Definition nested_arrays (depth : nat) : string :=
  string_of_list_ascii (repeat "["%char depth ++ repeat "]"%char depth).

(** ** Stubs used to exercise the merchant client and the route *)

(** An API that cannot be reached. *)
Definition api_unreachable (call : api_call) : completion js_error js_value :=
  Throw (SahelPayError "fetch failed" "NETWORK_ERROR" None).

Definition sample_order (amount : Q) (orderId : string)
    (metadata : option (list (string * js_value))) : SahelPayMerchant.CreatePaymentParams :=
  SahelPayMerchant.mkCreatePaymentParams
    (Finite amount) orderId "+22370000000" "https://myapp.com/checkout/return"
    None None None metadata.

Definition sample_order_body : string :=
  quoted "{'event':'payment.success','data':{'id':'txn_1','metadata':{'app_order_id':'order_123'}}}".

(* ====================================================================== *)
(** * Properties *)
(* ====================================================================== *)

(** ** Arrays *)

Lemma array_get_some_key {V : Type} (key : string) (a : list (string * V)) (v : V) :
  array_get key a = Some v -> In key (array_keys a).
Proof.
  induction a as [|[k w] rest IH]; simpl; [discriminate|].
  destruct (String.eqb key k) eqn:E.
  - apply String.eqb_eq in E. auto.
  - auto.
Qed.

Lemma array_get_none {V : Type} (key : string) (a : list (string * V)) :
  ~ In key (array_keys a) -> array_get key a = None.
Proof.
  destruct (array_get key a) eqn:E; [|reflexivity].
  intros H. elim H. eapply array_get_some_key; eauto.
Qed.

(** ** Capability matrix *)

Module CapabilitiesSpec.
Import Capabilities.

Lemma matrix_rows : array_keys MATRIX = PAYMENT_METHODS.
Proof. reflexivity. Qed.

Lemma matrix_columns :
  Forall (fun row => array_keys (snd row) = CAPABILITY_TYPES) MATRIX.
Proof. repeat constructor. Qed.

(** C9. For every declared payment method and every declared capability
    type, the matrix holds an explicit row for the method and an explicit
    boolean for the capability in that row, and [has] returns that
    boolean: the lookup never falls through to the [?? false] default. *)
Theorem has_declared_entry (method capability : string) :
  In method PAYMENT_METHODS ->
  In capability CAPABILITY_TYPES ->
  exists caps b,
    array_get method MATRIX = Some caps /\
    array_get capability caps = Some b /\
    has method capability = b.
Proof.
  intros Hm Hc. simpl in Hm, Hc.
  repeat (destruct Hm as [Hm|Hm]; [subst method|]); try contradiction;
    repeat (destruct Hc as [Hc|Hc]; [subst capability|]); try contradiction;
    eexists; eexists; (split; [reflexivity|split; reflexivity]).
Qed.

Lemma has_declared_entry_witness :
  In "CARD" PAYMENT_METHODS /\ In "payouts" CAPABILITY_TYPES /\
  exists caps b,
    array_get "CARD" MATRIX = Some caps /\
    array_get "payouts" caps = Some b /\
    has "CARD" "payouts" = b.
Proof.
  assert (Hm : In "CARD" PAYMENT_METHODS) by (simpl; tauto).
  assert (Hc : In "payouts" CAPABILITY_TYPES) by (simpl; tauto).
  split; [exact Hm|split; [exact Hc|]].
  exact (has_declared_entry "CARD" "payouts" Hm Hc).
Defined.

Lemma undeclared_capability_row (capability : string) (row : string * list (string * bool)) :
  ~ In capability CAPABILITY_TYPES ->
  In row MATRIX ->
  array_get capability (snd row) = None.
Proof.
  intros Hc Hr. apply array_get_none.
  pose proof matrix_columns as Hcols.
  rewrite Forall_forall in Hcols. rewrite (Hcols row Hr). exact Hc.
Qed.

(** C10. [has] is total and answers [false] on every undeclared pair:
    when the method is not a declared payment method, and when the
    capability has no entry in the method's row.  An undeclared
    capability likewise selects no method in
    [getMethodsWithCapability]. *)
Theorem has_undeclared_false (method capability : string) :
  (~ In method PAYMENT_METHODS \/
   exists caps, get method = Some caps /\ array_get capability caps = None) ->
  has method capability = false /\
  (~ In capability CAPABILITY_TYPES -> getMethodsWithCapability capability = []).
Proof.
  intros H. split.
  - unfold has. destruct H as [Hm|[caps [Hg Hc]]].
    + rewrite array_get_none; [reflexivity|]. rewrite matrix_rows. exact Hm.
    + unfold get in Hg. rewrite Hg, Hc. reflexivity.
  - intros Hc. unfold getMethodsWithCapability.
    assert (Hall : forall rows, (forall r, In r rows -> In r MATRIX) ->
              filter (fun row : string * list (string * bool) =>
                        match array_get capability (snd row) with
                        | Some b => b
                        | None => false
                        end) rows = []).
    { induction rows as [|r rows IH]; intros Hin; [reflexivity|].
      simpl. rewrite (undeclared_capability_row capability r Hc (Hin r (or_introl eq_refl))).
      apply IH. intros r' Hr'. apply Hin. right. exact Hr'. }
    rewrite Hall; [reflexivity|auto].
Qed.

Lemma has_undeclared_false_witness :
  (~ In "BITCOIN" PAYMENT_METHODS \/
   exists caps, get "BITCOIN" = Some caps /\ array_get "refunds" caps = None) /\
  has "BITCOIN" "refunds" = false /\
  (~ In "refunds" CAPABILITY_TYPES -> getMethodsWithCapability "refunds" = []).
Proof.
  assert (Hm : ~ In "BITCOIN" PAYMENT_METHODS).
  { simpl. intros H. repeat (destruct H as [H|H]; [discriminate H|]). exact H. }
  split; [left; exact Hm|].
  exact (has_undeclared_false "BITCOIN" "refunds" (or_introl Hm)).
Defined.

End CapabilitiesSpec.

(** ** Status pollers *)

Lemma setTimeout_ms_pos (delay : Q) : 1 <= setTimeout_ms delay.
Proof.
  unfold setTimeout_ms.
  destruct (Qle_bool 1 delay) eqn:E1; simpl; [|lia].
  destruct (Qle_bool delay 2147483647); [|lia].
  apply Qle_bool_iff in E1. apply Qfloor_resp_le in E1.
  change (Qfloor 1) with 1 in E1. exact E1.
Qed.

Lemma setTimeout_ms_backoff (delay : Q) : setTimeout_ms (backoff delay) <= 10000.
Proof.
  unfold setTimeout_ms.
  destruct (Qle_bool 1 (backoff delay) && Qle_bool (backoff delay) 2147483647); [|lia].
  assert (H : (backoff delay <= 10000)%Q) by (unfold backoff; apply Q.le_min_r).
  apply Qfloor_resp_le in H. change (Qfloor 10000) with 10000 in H. exact H.
Qed.

Section PollerFacts.
Context {A : Type}.
Variable terminal : list string.
Variable timeout_error : js_error.
Variable checkStatus : nat -> completion js_error (string * A).
Variable elapsed : nat -> N.
Variable onStatus : option (callback A).
Variables start timeout : Z.

Local Abbreviation check :=
  (check terminal timeout_error checkStatus elapsed onStatus start timeout).

(** The [onStatus] call of the [n]-th check, if any. *)
Local Abbreviation calls n :=
  (match onStatus with
   | Some _ => statuses [checkStatus n]
   | None => []
   end).

(** One call of [check], by what the check gives the poller. *)
Lemma check_S (fuel n : nat) (now : Z) (delay : Q) :
  check (S fuel) n now delay =
  let now' := now + Z.of_N (elapsed n) in
  match attempt onStatus n (checkStatus n) with
  | Return (status, snapshot) =>
      if includes terminal status then
        Some (mkRun (Resolved snapshot) [checkStatus n] (calls n) now')
      else if now' - start >? timeout then
        Some (mkRun (Rejected timeout_error) [checkStatus n] (calls n) now')
      else
        option_map (after_check (checkStatus n) (calls n))
                   (check fuel (S n) (now' + setTimeout_ms (backoff delay)) (backoff delay))
  | Throw error =>
      if now' - start >? timeout then
        Some (mkRun (Rejected error) [checkStatus n] (calls n) now')
      else
        option_map (after_check (checkStatus n) (calls n))
                   (check fuel (S n) (now' + setTimeout_ms delay) delay)
  end.
Proof.
  unfold attempt.
  destruct (checkStatus n) as [[status snapshot]|error] eqn:Hc;
    [|destruct onStatus; simpl; rewrite Hc; reflexivity].
  destruct onStatus as [called|]; [|simpl; rewrite Hc; reflexivity].
  destruct (called n status snapshot) eqn:Hcalled; simpl; rewrite Hc, Hcalled; reflexivity.
Qed.

(** More fuel does not change a settled run. *)
Lemma check_fuel_mono (fuel fuel' n : nat) (now : Z) (delay : Q) (r : run A) :
  check fuel n now delay = Some r -> (fuel <= fuel')%nat ->
  check fuel' n now delay = Some r.
Proof.
  revert fuel' n now delay r.
  induction fuel as [|fuel IH]; intros fuel' n now delay r H Hle; [discriminate H|].
  destruct fuel' as [|fuel']; [lia|].
  rewrite check_S in H |- *. cbv zeta in H |- *.
  destruct (attempt onStatus n (checkStatus n)) as [[status snapshot]|error].
  - destruct (includes terminal status); [exact H|].
    destruct (_ >? timeout); [exact H|].
    destruct (check fuel (S n) _ _) as [rest|] eqn:Hrest; [|discriminate H].
    rewrite (IH fuel' _ _ _ rest Hrest); [exact H|lia].
  - destruct (_ >? timeout); [exact H|].
    destruct (check fuel (S n) _ _) as [rest|] eqn:Hrest; [|discriminate H].
    rewrite (IH fuel' _ _ _ rest Hrest); [exact H|lia].
Qed.

(** The checks of a run are the stub's answers from call [n] on; all but
    the last keep the poller going, the last settles the promise, and
    [onStatus] (when supplied) was called once per status, in order. *)
Lemma check_run (fuel n : nat) (now : Z) (delay : Q) (r : run A) :
  check fuel n now delay = Some r ->
  exists m,
    observed r = map checkStatus (seq n (S m)) /\
    (forall k, (k < m)%nat ->
       keeps_polling terminal (attempt onStatus (n + k) (checkStatus (n + k))) = true) /\
    result r = settles terminal timeout_error
                 (attempt onStatus (n + m) (checkStatus (n + m))) /\
    notified r = match onStatus with
                 | Some _ => statuses (observed r)
                 | None => []
                 end.
Proof.
  revert n now delay r.
  induction fuel as [|fuel IH]; intros n now delay r H; [discriminate H|].
  rewrite check_S in H. cbv zeta in H.
  assert (Hlast : forall res,
            res = settles terminal timeout_error (attempt onStatus n (checkStatus n)) ->
            exists m,
              observed (mkRun res [checkStatus n] (calls n) (now + Z.of_N (elapsed n)))
              = map checkStatus (seq n (S m)) /\
              (forall k, (k < m)%nat ->
                 keeps_polling terminal (attempt onStatus (n + k) (checkStatus (n + k))) = true) /\
              result (mkRun res [checkStatus n] (calls n) (now + Z.of_N (elapsed n)))
              = settles terminal timeout_error
                  (attempt onStatus (n + m) (checkStatus (n + m))) /\
              notified (mkRun res [checkStatus n] (calls n) (now + Z.of_N (elapsed n)))
              = match onStatus with
                | Some _ => statuses (observed (mkRun res [checkStatus n] (calls n)
                                                  (now + Z.of_N (elapsed n))))
                | None => []
                end).
  { intros res Hres. exists 0%nat. rewrite Nat.add_0_r. cbn [observed result notified seq map].
    split; [reflexivity|]. split; [intros k Hk; lia|]. split; [exact Hres|].
    destruct onStatus; reflexivity. }
  assert (Hmore : forall rest,
            keeps_polling terminal (attempt onStatus n (checkStatus n)) = true ->
            (exists m,
               observed rest = map checkStatus (seq (S n) (S m)) /\
               (forall k, (k < m)%nat ->
                  keeps_polling terminal
                    (attempt onStatus (S n + k) (checkStatus (S n + k))) = true) /\
               result rest = settles terminal timeout_error
                               (attempt onStatus (S n + m) (checkStatus (S n + m))) /\
               notified rest = match onStatus with
                               | Some _ => statuses (observed rest)
                               | None => []
                               end) ->
            exists m,
              observed (after_check (checkStatus n) (calls n) rest)
              = map checkStatus (seq n (S m)) /\
              (forall k, (k < m)%nat ->
                 keeps_polling terminal (attempt onStatus (n + k) (checkStatus (n + k))) = true) /\
              result (after_check (checkStatus n) (calls n) rest)
              = settles terminal timeout_error
                  (attempt onStatus (n + m) (checkStatus (n + m))) /\
              notified (after_check (checkStatus n) (calls n) rest)
              = match onStatus with
                | Some _ => statuses (observed (after_check (checkStatus n) (calls n) rest))
                | None => []
                end).
  { intros rest Hkeep (m & Hobs & Hpre & Hres & Hnot). exists (S m).
    cbn [after_check observed result notified].
    split; [rewrite Hobs; reflexivity|]. split; [|split].
    - intros k Hk. destruct k as [|k]; [rewrite Nat.add_0_r; exact Hkeep|].
      replace (n + S k)%nat with (S n + k)%nat by lia. apply Hpre. lia.
    - replace (n + S m)%nat with (S n + m)%nat by lia. exact Hres.
    - rewrite Hnot. destruct onStatus; [|reflexivity].
      unfold statuses. cbn [flat_map]. rewrite app_nil_r. reflexivity. }
  destruct (attempt onStatus n (checkStatus n)) as [[status snapshot]|error] eqn:Hc.
  - destruct (includes terminal status) eqn:Hterm.
    { injection H as <-. apply Hlast. cbn [settles]. rewrite Hterm. reflexivity. }
    destruct (_ >? timeout).
    { injection H as <-. apply Hlast. cbn [settles]. rewrite Hterm. reflexivity. }
    destruct (check fuel (S n) _ _) as [rest|] eqn:Hrest; [|discriminate H].
    injection H as <-. apply Hmore; [cbn [keeps_polling]; rewrite Hterm; reflexivity|].
    exact (IH _ _ _ _ Hrest).
  - destruct (_ >? timeout).
    { injection H as <-. apply Hlast. reflexivity. }
    destruct (check fuel (S n) _ _) as [rest|] eqn:Hrest; [|discriminate H].
    injection H as <-. apply Hmore; [reflexivity|].
    exact (IH _ _ _ _ Hrest).
Qed.

(** Every timer takes at least a millisecond, so the budget runs out:
    the promise settles within [timeout - (now - start) + 2] checks. *)
Lemma check_settles_within (k n : nat) (now : Z) (delay : Q) :
  (Z.to_nat (start + timeout - now + 1) <= k)%nat ->
  exists r, check (S k) n now delay = Some r.
Proof.
  revert n now delay.
  induction k as [|k IH]; intros n now delay Hk.
  - assert (Hlate : (now + Z.of_N (elapsed n) - start >? timeout) = true)
      by (apply Z.gtb_lt; lia).
    rewrite check_S. cbv zeta. rewrite Hlate.
    destruct (attempt onStatus n (checkStatus n)) as [[status snapshot]|error];
      [destruct (includes terminal status)|]; eexists; reflexivity.
  - assert (Hnext : forall d, exists r,
               check (S k) (S n) (now + Z.of_N (elapsed n) + setTimeout_ms d) d = Some r).
    { intros d. apply IH. pose proof (setTimeout_ms_pos d). lia. }
    rewrite check_S. cbv zeta.
    destruct (attempt onStatus n (checkStatus n)) as [[status snapshot]|error].
    + destruct (includes terminal status); [eexists; reflexivity|].
      destruct (_ >? timeout); [eexists; reflexivity|].
      destruct (Hnext (backoff delay)) as [r Hr]. rewrite Hr. eexists; reflexivity.
    + destruct (_ >? timeout); [eexists; reflexivity|].
      destruct (Hnext delay) as [r Hr]. rewrite Hr. eexists; reflexivity.
Qed.

(** A run makes no more checks than it has fuel. *)
Lemma check_count (fuel n : nat) (now : Z) (delay : Q) (r : run A) :
  check fuel n now delay = Some r -> (1 <= List.length (observed r) <= fuel)%nat.
Proof.
  revert n now delay r.
  induction fuel as [|fuel IH]; intros n now delay r H; [discriminate H|].
  rewrite check_S in H. cbv zeta in H.
  destruct (attempt onStatus n (checkStatus n)) as [[status snapshot]|error].
  - destruct (includes terminal status); [injection H as <-; simpl; lia|].
    destruct (_ >? timeout); [injection H as <-; simpl; lia|].
    destruct (check fuel (S n) _ _) as [rest|] eqn:Hrest; [|discriminate H].
    injection H as <-. apply IH in Hrest. simpl. lia.
  - destruct (_ >? timeout); [injection H as <-; simpl; lia|].
    destruct (check fuel (S n) _ _) as [rest|] eqn:Hrest; [|discriminate H].
    injection H as <-. apply IH in Hrest. simpl. lia.
Qed.

(** A run settles no later than one timer after the budget is spent plus
    the time its last check takes, where [slack] bounds the pending timer
    and the 10 s cap of the backoff. *)
Lemma check_deadline (slack : Z) (fuel n : nat) (now : Z) (delay : Q) (r : run A) :
  10000 <= slack -> setTimeout_ms delay <= slack ->
  check fuel n now delay = Some r ->
  now <= settled_at r <=
    Z.max now (start + timeout + slack)
    + Z.of_N (elapsed (n + List.length (observed r) - 1)).
Proof.
  intros Hslack. revert n now delay r.
  induction fuel as [|fuel IH]; intros n now delay r Hd H; [discriminate H|].
  rewrite check_S in H. cbv zeta in H.
  assert (Hnow : forall res calls,
            now <= settled_at (mkRun res [checkStatus n] calls (now + Z.of_N (elapsed n))) <=
            Z.max now (start + timeout + slack)
            + Z.of_N (elapsed (n + List.length
                                 (observed (mkRun res [checkStatus n] calls
                                              (now + Z.of_N (elapsed n)))) - 1))).
  { intros res calls. cbn [settled_at observed List.length].
    replace (n + 1 - 1)%nat with n by lia. lia. }
  assert (Hlater : forall d rest,
            setTimeout_ms d <= slack ->
            now + Z.of_N (elapsed n) - start <= timeout ->
            check fuel (S n) (now + Z.of_N (elapsed n) + setTimeout_ms d) d = Some rest ->
            now <= settled_at (after_check (checkStatus n) (calls n) rest) <=
            Z.max now (start + timeout + slack)
            + Z.of_N (elapsed (n + List.length
                                 (observed (after_check (checkStatus n) (calls n) rest)) - 1))).
  { intros d rest Hds Hlate Hrest.
    pose proof (check_count _ _ _ _ _ Hrest) as Hlen.
    apply IH in Hrest; [|exact Hds].
    pose proof (setTimeout_ms_pos d) as Hp.
    cbn [after_check settled_at observed List.length].
    replace (n + S (List.length (observed rest)) - 1)%nat
      with (S n + List.length (observed rest) - 1)%nat by lia.
    lia. }
  destruct (attempt onStatus n (checkStatus n)) as [[status snapshot]|error].
  - destruct (includes terminal status); [injection H as <-; apply Hnow|].
    destruct (_ >? timeout) eqn:Hlate; [injection H as <-; apply Hnow|].
    destruct (check fuel (S n) _ _) as [rest|] eqn:Hrest; [|discriminate H].
    injection H as <-.
    rewrite Z.gtb_ltb in Hlate. apply Z.ltb_ge in Hlate.
    apply (Hlater (backoff delay) rest); [|exact Hlate|exact Hrest].
    pose proof (setTimeout_ms_backoff delay). lia.
  - destruct (_ >? timeout) eqn:Hlate; [injection H as <-; apply Hnow|].
    destruct (check fuel (S n) _ _) as [rest|] eqn:Hrest; [|discriminate H].
    injection H as <-.
    rewrite Z.gtb_ltb in Hlate. apply Z.ltb_ge in Hlate.
    apply (Hlater delay rest); [exact Hd|exact Hlate|exact Hrest].
Qed.

(** Whatever the checks answer, the promise settles: within
    [timeout + 2] checks and no later than one timer after the budget plus
    the time of the last check. *)
Lemma check_always_settles (slack : Z) (delay : Q) :
  10000 <= slack -> setTimeout_ms delay <= slack ->
  exists r,
    (forall fuel, (S (Z.to_nat (timeout + 1)) <= fuel)%nat ->
       check fuel 0 start delay = Some r) /\
    (1 <= List.length (observed r) <= S (Z.to_nat (timeout + 1)))%nat /\
    start <= settled_at r <=
      start + Z.max 0 (timeout + slack)
      + Z.of_N (elapsed (pred (List.length (observed r)))).
Proof.
  intros Hslack Hdelay.
  destruct (check_settles_within (Z.to_nat (timeout + 1)) 0 start delay) as [r Hr]; [lia|].
  exists r. split; [|split].
  - intros fuel Hfuel. exact (check_fuel_mono _ _ _ _ _ _ Hr Hfuel).
  - exact (check_count _ _ _ _ _ Hr).
  - pose proof (check_deadline slack _ _ _ _ _ Hslack Hdelay Hr) as H.
    replace (0 + List.length (observed r) - 1)%nat
      with (pred (List.length (observed r))) in H by lia.
    lia.
Qed.

End PollerFacts.

(** How a check that does not answer a terminal status settles the
    promise when it is the last one. *)
Lemma settles_without_terminal {A : Type} (terminal : list string) (timeout_error : js_error)
    (onStatus : option (callback A)) (n : nat) (c : completion js_error (string * A)) :
  keeps_polling terminal c = true ->
  settles terminal timeout_error (attempt onStatus n c) =
  Rejected match c with
           | Throw error => error
           | Return (status, snapshot) =>
               match onStatus with
               | Some called =>
                   match called n status snapshot with
                   | Throw error => error
                   | Return _ => timeout_error
                   end
               | None => timeout_error
               end
           end.
Proof.
  destruct c as [[status snapshot]|error]; [|destruct onStatus; reflexivity].
  cbn [keeps_polling attempt]. intros Hkeep. apply negb_true_iff in Hkeep.
  destruct onStatus as [called|].
  - destruct (called n status snapshot); cbn [settles]; [rewrite Hkeep|]; reflexivity.
  - cbn [settles]. rewrite Hkeep. reflexivity.
Qed.

Lemma attempt_returns_normally {A : Type} (onStatus : option (callback A)) (n : nat)
    (c : completion js_error (string * A)) :
  returns_normally onStatus -> attempt onStatus n c = c.
Proof.
  intros Hquiet. destruct c as [[status snapshot]|error]; [|destruct onStatus; reflexivity].
  destruct onStatus as [called|]; [|reflexivity].
  cbn [attempt]. rewrite (Hquiet called eq_refl). reflexivity.
Qed.

Module PollSpec.
Import PaymentsAPI.

(** A run of [PaymentsAPI.poll] resolves exactly when its last status
    check returned SUCCESS, FAILED or CANCELLED and the callback, if any,
    returned; then with the snapshot of that check.  Every earlier check
    returned another status or threw, or its callback threw. *)
Lemma poll_resolves_on_listed_status (fuel : nat) (clock : Z)
    (checkStatus : nat -> completion js_error (string * Payment)) (elapsed : nat -> N)
    (options : poll_options Payment) (r : run Payment) :
  poll fuel clock checkStatus elapsed options = Some r ->
  exists last,
    observed r = map checkStatus (seq 0 (S last)) /\
    (forall k, (k < last)%nat ->
       keeps_polling payment_terminal (attempt (onStatus options) k (checkStatus k)) = true) /\
    result r = settles payment_terminal (Error "Polling timeout")
                 (attempt (onStatus options) last (checkStatus last)).
Proof.
  intros H. unfold poll in H.
  destruct (check_run _ _ _ _ _ _ _ _ _ _ _ _ H) as (m & Hobs & Hpre & Hres & _).
  exists m. split; [exact Hobs|]. split; [exact Hpre|exact Hres].
Qed.

(** C1 (the code's behaviour on EXPIRED).  A status check that returns
    EXPIRED does not stop [PaymentsAPI.poll]: EXPIRED is not in the list the
    poller tests, so with a gateway that reports the payment as EXPIRED at
    every check the poller keeps checking until its time budget is spent and
    is then rejected, with the timeout error unless [onStatus] threw,
    instead of resolving with the EXPIRED snapshot. *)
Theorem poll_expired_is_not_terminal (p : Payment) (clock : Z) (elapsed : nat -> N)
    (options : poll_options Payment) :
  exists fuel r,
    (forall fuel', (fuel <= fuel')%nat ->
       poll fuel' clock (fun _ => Return ("EXPIRED", p)) elapsed options = Some r) /\
    (exists error, result r = Rejected error) /\
    (returns_normally (onStatus options) -> result r = Rejected (Error "Polling timeout")) /\
    result r <> Resolved p /\
    Forall (fun c => c = Return ("EXPIRED", p)) (observed r) /\
    observed r <> [].
Proof.
  destruct (check_always_settles payment_terminal (Error "Polling timeout")
              (fun _ => Return ("EXPIRED", p)) elapsed (onStatus options) clock
              (js_or (timeout options) 120000) (poll_slack options)
              (inject_Z (js_or (interval options) 2000)))
    as (r & Hfuel & _ & _); [unfold poll_slack; lia|unfold poll_slack; lia|].
  exists (S (Z.to_nat (js_or (timeout options) 120000 + 1))), r.
  split; [exact Hfuel|].
  pose proof (Hfuel _ (le_n _)) as Hr.
  destruct (check_run _ _ _ _ _ _ _ _ _ _ _ _ Hr) as (m & Hobs & _ & Hres & _).
  rewrite (settles_without_terminal payment_terminal (Error "Polling timeout")
             (onStatus options) (0 + m) (Return ("EXPIRED", p)) eq_refl) in Hres.
  split; [eexists; exact Hres|]. split; [|split; [|split]].
  - intros Hquiet. rewrite Hres. destruct (onStatus options) as [called|]; [|reflexivity].
    rewrite (Hquiet called eq_refl). reflexivity.
  - rewrite Hres. discriminate.
  - rewrite Hobs. apply Forall_forall. intros x Hx.
    apply in_map_iff in Hx. destruct Hx as (k & Hk & _). symmetry. exact Hk.
  - rewrite Hobs. discriminate.
Qed.

(** C6 (as amended).  When no status check of [PaymentsAPI.poll] returns a
    status of the terminal list (each returns another status or throws),
    the poll settles after at most [timeout + 2] checks, is rejected, and
    settles no later than the time budget plus one timer (the 10 s cap, or
    the configured interval when it is larger) plus the time its last
    check takes: with the error of the last check when that check threw,
    with the error of [onStatus] when the callback threw on the last
    status, with the timeout error otherwise. *)
Theorem poll_without_terminal_status (clock : Z)
    (checkStatus : nat -> completion js_error (string * Payment)) (elapsed : nat -> N)
    (options : poll_options Payment) :
  (forall n, keeps_polling payment_terminal (checkStatus n) = true) ->
  exists fuel r last,
    (forall fuel', (fuel <= fuel')%nat ->
       poll fuel' clock checkStatus elapsed options = Some r) /\
    List.length (observed r) = S last /\
    (last <= Z.to_nat (js_or (timeout options) 120000 + 1))%nat /\
    result r = Rejected match checkStatus last with
                        | Throw error => error
                        | Return (status, snapshot) =>
                            match onStatus options with
                            | Some called =>
                                match called last status snapshot with
                                | Throw error => error
                                | Return _ => Error "Polling timeout"
                                end
                            | None => Error "Polling timeout"
                            end
                        end /\
    settled_at r - clock <=
      Z.max 0 (js_or (timeout options) 120000 + poll_slack options)
      + Z.of_N (elapsed last).
Proof.
  intros Hstub.
  destruct (check_always_settles payment_terminal (Error "Polling timeout")
              checkStatus elapsed (onStatus options) clock
              (js_or (timeout options) 120000) (poll_slack options)
              (inject_Z (js_or (interval options) 2000)))
    as (r & Hfuel & Hcount & Htime); [unfold poll_slack; lia|unfold poll_slack; lia|].
  pose proof (Hfuel _ (le_n _)) as Hr.
  destruct (check_run _ _ _ _ _ _ _ _ _ _ _ _ Hr) as (m & Hobs & _ & Hres & _).
  assert (Hlen : List.length (observed r) = S m) by (rewrite Hobs, length_map, length_seq; reflexivity).
  exists (S (Z.to_nat (js_or (timeout options) 120000 + 1))), r, m.
  split; [exact Hfuel|]. split; [exact Hlen|]. split; [lia|]. split.
  - rewrite Hres. apply settles_without_terminal. apply Hstub.
  - rewrite Hlen in Htime. cbn [pred] in Htime. lia.
Qed.

Lemma poll_without_terminal_status_witness :
  (forall n, keeps_polling payment_terminal (always_pending n) = true) /\
  exists fuel r last,
    (forall fuel', (fuel <= fuel')%nat ->
       poll fuel' 0 always_pending slow (mkOptions None None (Some listening)) = Some r) /\
    List.length (observed r) = S last /\
    (last <= Z.to_nat (js_or None 120000 + 1))%nat /\
    result r = Rejected match always_pending last with
                        | Throw error => error
                        | Return (status, snapshot) =>
                            match Some (@listening Payment) with
                            | Some called =>
                                match called last status snapshot with
                                | Throw error => error
                                | Return _ => Error "Polling timeout"
                                end
                            | None => Error "Polling timeout"
                            end
                        end /\
    settled_at r - 0 <=
      Z.max 0 (js_or None 120000 + poll_slack (mkOptions None None (Some (@listening Payment))))
      + Z.of_N (slow last).
Proof.
  split; [intros n; reflexivity|].
  exact (poll_without_terminal_status 0 always_pending slow
           (mkOptions None None (Some listening)) (fun n => eq_refl)).
Defined.

(** C6 (as stated) fails: a status check that always throws a network
    error never returns a terminal status, and the poll is then rejected
    with that network error, not with a timeout error. *)
Lemma poll_network_failures_reject_with_last_error :
  (forall n, keeps_polling payment_terminal (always_failing n) = true) /\
  exists r,
    poll 4 0 always_failing instant (mkOptions (Some 2000) (Some 5000) None) = Some r /\
    result r = Rejected (TypeError "fetch failed") /\
    result r <> Rejected (Error "Polling timeout") /\
    settled_at r = 6000.
Proof.
  split; [intros n; reflexivity|].
  eexists. split; [reflexivity|]. simpl.
  split; [reflexivity|]. split; [discriminate|reflexivity].
Qed.

(** C8 (as amended).  With a status check that answers PENDING, PENDING,
    then SUCCESS, a callback that returns (when one is supplied) and a time
    budget that is not spent when the second check has answered,
    [PaymentsAPI.poll] makes exactly these three checks, resolves with the
    snapshot of the SUCCESS check, and has called [onStatus] exactly three
    times, once per check result and in that order. *)
Theorem poll_pending_pending_success (clock : Z)
    (checkStatus : nat -> completion js_error (string * Payment)) (elapsed : nat -> N)
    (options : poll_options Payment) (p0 p1 p2 : Payment) :
  checkStatus 0%nat = Return ("PENDING", p0) ->
  checkStatus 1%nat = Return ("PENDING", p1) ->
  checkStatus 2%nat = Return ("SUCCESS", p2) ->
  returns_normally (onStatus options) ->
  Z.of_N (elapsed 0%nat)
  + setTimeout_ms (backoff (inject_Z (js_or (interval options) 2000)))
  + Z.of_N (elapsed 1%nat) <= js_or (timeout options) 120000 ->
  exists r,
    (forall fuel, (3 <= fuel)%nat ->
       poll fuel clock checkStatus elapsed options = Some r) /\
    observed r = [Return ("PENDING", p0); Return ("PENDING", p1); Return ("SUCCESS", p2)] /\
    result r = Resolved p2 /\
    notified r = match onStatus options with
                 | Some _ => [("PENDING", p0); ("PENDING", p1); ("SUCCESS", p2)]
                 | None => []
                 end.
Proof.
  intros H0 H1 H2 Hquiet Hbudget.
  pose proof (setTimeout_ms_pos (backoff (inject_Z (js_or (interval options) 2000)))) as Hpos.
  assert (Hrun : exists r, poll 3 clock checkStatus elapsed options = Some r /\
            observed r = [Return ("PENDING", p0); Return ("PENDING", p1); Return ("SUCCESS", p2)] /\
            result r = Resolved p2 /\
            notified r = match onStatus options with
                         | Some _ => [("PENDING", p0); ("PENDING", p1); ("SUCCESS", p2)]
                         | None => []
                         end).
  { unfold poll.
    rewrite check_S, (attempt_returns_normally _ _ _ Hquiet), H0. cbv zeta.
    change (includes ["SUCCESS"; "FAILED"; "CANCELLED"] "PENDING") with false. cbv iota.
    replace (clock + Z.of_N (elapsed 0%nat) - clock >? js_or (timeout options) 120000)
      with false by (symmetry; rewrite Z.gtb_ltb; apply Z.ltb_ge; lia).
    rewrite check_S, (attempt_returns_normally _ _ _ Hquiet), H1. cbv zeta.
    change (includes ["SUCCESS"; "FAILED"; "CANCELLED"] "PENDING") with false. cbv iota.
    replace (clock + Z.of_N (elapsed 0%nat)
             + setTimeout_ms (backoff (inject_Z (js_or (interval options) 2000)))
             + Z.of_N (elapsed 1%nat) - clock >? js_or (timeout options) 120000)
      with false by (symmetry; rewrite Z.gtb_ltb; apply Z.ltb_ge; lia).
    rewrite check_S, (attempt_returns_normally _ _ _ Hquiet), H2. cbv zeta.
    change (includes ["SUCCESS"; "FAILED"; "CANCELLED"] "SUCCESS") with true. cbv iota.
    eexists. split; [reflexivity|]. cbn [option_map after_check observed result notified].
    split; [reflexivity|]. split; [reflexivity|].
    destruct (onStatus options); reflexivity. }
  destruct Hrun as (r & Hr & Hrest).
  exists r. split; [|exact Hrest].
  intros fuel Hfuel. unfold poll in *.
  exact (check_fuel_mono _ _ _ _ _ _ _ _ _ _ _ _ _ Hr Hfuel).
Qed.

Lemma poll_pending_pending_success_witness :
  returns_normally (Some (@listening Payment)) /\
  exists r,
    (forall fuel, (3 <= fuel)%nat ->
       poll fuel 0 pending_pending_success slow (mkOptions None None (Some listening)) = Some r) /\
    observed r = [Return ("PENDING", sample_payment "PENDING");
                  Return ("PENDING", sample_payment "PENDING");
                  Return ("SUCCESS", sample_payment "SUCCESS")] /\
    result r = Resolved (sample_payment "SUCCESS") /\
    notified r = [("PENDING", sample_payment "PENDING");
                  ("PENDING", sample_payment "PENDING");
                  ("SUCCESS", sample_payment "SUCCESS")].
Proof.
  assert (Hquiet : returns_normally (Some (@listening Payment))).
  { intros called H n status snapshot. injection H as <-. reflexivity. }
  split; [exact Hquiet|].
  apply (poll_pending_pending_success 0 pending_pending_success slow
           (mkOptions None None (Some listening)) _ _ _ eq_refl eq_refl eq_refl Hquiet).
  vm_compute. discriminate.
Defined.

(** C8 (as stated) fails without these conditions.  With a budget of one
    second the second PENDING comes after the deadline: the poll is
    rejected with the timeout error and SUCCESS is never asked for.  With a
    callback that throws on SUCCESS the promise is not resolved by the
    SUCCESS check: the poller asks again until the budget is spent and is
    rejected with the error of the callback. *)
Lemma poll_pending_pending_success_needs_budget :
  (exists r,
     poll 3 0 pending_pending_success instant (mkOptions None (Some 1000) (Some listening))
     = Some r /\
     result r = Rejected (Error "Polling timeout") /\
     observed r = [Return ("PENDING", sample_payment "PENDING");
                   Return ("PENDING", sample_payment "PENDING")] /\
     List.length (notified r) = 2%nat) /\
  (exists r,
     poll 6 0 pending_pending_success instant
       (mkOptions None (Some 10000) (Some throwing_on_success))
     = Some r /\
     result r = Rejected (Error "render failed") /\
     List.length (observed r) = 4%nat /\
     List.length (notified r) = 4%nat /\
     settled_at r = 12000).
Proof.
  split; eexists; (split; [vm_compute; reflexivity|]); repeat split; reflexivity.
Qed.

(** The same for [PayoutsAPI.poll], whose terminal statuses are COMPLETED,
    FAILED and CANCELLED and whose timeout error is a [SahelPayError]. *)
Lemma payout_poll_resolves_on_listed_status (fuel : nat) (clock : Z)
    (retrieve : nat -> completion js_error PayoutsAPI.Payout) (elapsed : nat -> N)
    (options : poll_options PayoutsAPI.Payout) (r : run PayoutsAPI.Payout) :
  PayoutsAPI.poll fuel clock retrieve elapsed options = Some r ->
  exists last,
    List.length (observed r) = S last /\
    result r = settles ["COMPLETED"; "FAILED"; "CANCELLED"]
                 (SahelPayError "Polling timeout" "TIMEOUT" (Some 408))
                 (attempt (onStatus options) last
                    match retrieve last with
                    | Return payout => Return (PayoutsAPI.status payout, payout)
                    | Throw e => Throw e
                    end).
Proof.
  intros H. unfold PayoutsAPI.poll in H.
  destruct (check_run _ _ _ _ _ _ _ _ _ _ _ _ H) as (m & Hobs & _ & Hres & _).
  exists m. split; [rewrite Hobs, length_map, length_seq; reflexivity|exact Hres].
Qed.

End PollSpec.

(** ** Bytes, hexadecimal text and digests *)

Lemma be_bytes_length (n : nat) (x : Z) : List.length (SHA256.be_bytes n x) = n.
Proof. induction n as [|n IH]; simpl; [reflexivity|]. rewrite IH. reflexivity. Qed.

Lemma sha256_length (msg : list Z) : List.length (SHA256.sha256 msg) = 32%nat.
Proof.
  unfold SHA256.sha256, SHA256.digest.
  repeat rewrite length_app. repeat rewrite be_bytes_length. reflexivity.
Qed.

Lemma hmac_sha256_length (key msg : list Z) : List.length (hmac_sha256 key msg) = 32%nat.
Proof. unfold hmac_sha256. apply sha256_length. Qed.

(** The constants and the test vectors of FIPS 180-4 and RFC 4231. *)
Lemma sha256_constants :
  List.length SHA256.K = 64%nat /\
  hd 0 SHA256.K = 0x428a2f98 /\ last SHA256.K 0 = 0xc67178f2 /\
  SHA256.a SHA256.H0 = 0x6a09e667 /\ SHA256.h SHA256.H0 = 0x5be0cd19.
Proof. repeat split. Qed.

Lemma sha256_abc :
  hex (SHA256.sha256 (bytes_of_string "abc"))
  = "ba7816bf8f01cfea414140de5dae2223b00361a396177a9cb410ff61f20015ad".
Proof. vm_compute. reflexivity. Qed.

Lemma hmac_sha256_rfc4231_case2 :
  hex (hmac_sha256 (bytes_of_string "Jefe") (bytes_of_string "what do ya want for nothing?"))
  = "5bdcc146bf60754e6a042426089575c75a003f089d2739839dec58b964ec3843".
Proof. vm_compute. reflexivity. Qed.

Lemma hex_length (bytes : list Z) : String.length (hex bytes) = (2 * List.length bytes)%nat.
Proof. induction bytes as [|b rest IH]; simpl; [reflexivity|]. rewrite IH. lia. Qed.

Lemma hex_digit_lower (n : Z) : is_lower_hex (hex_digit n) = true.
Proof.
  unfold hex_digit.
  destruct (Z.to_nat n) as [|k]; [reflexivity|].
  do 15 (destruct k as [|k]; [reflexivity|]).
  destruct k; reflexivity.
Qed.

Lemma hex_lower (bytes : list Z) :
  forallb is_lower_hex (list_ascii_of_string (hex bytes)) = true.
Proof.
  induction bytes as [|b rest IH]; simpl; [reflexivity|].
  rewrite !hex_digit_lower, IH. reflexivity.
Qed.

Lemma bytes_of_string_length (s : string) :
  List.length (bytes_of_string s) = String.length s.
Proof.
  unfold bytes_of_string. rewrite length_map.
  induction s as [|c s IH]; simpl; [reflexivity|]. rewrite IH. reflexivity.
Qed.

Lemma string_of_bytes_of_string (s : string) : string_of_bytes (bytes_of_string s) = s.
Proof.
  unfold string_of_bytes, bytes_of_string. rewrite map_map.
  rewrite (map_ext _ (fun c => c)).
  - rewrite map_id. apply string_of_list_ascii_of_string.
  - intros c. rewrite N2Z.id. apply ascii_N_embedding.
Qed.

Lemma bytes_of_string_inj (s t : string) : bytes_of_string s = bytes_of_string t -> s = t.
Proof.
  intros H. rewrite <- (string_of_bytes_of_string s), <- (string_of_bytes_of_string t).
  rewrite H. reflexivity.
Qed.

Lemma bytes_eqb_eq (a b : list Z) : bytes_eqb a b = true <-> a = b.
Proof.
  revert b. induction a as [|x a IH]; intros [|y b]; simpl; split; intros H;
    try reflexivity; try discriminate.
  - apply andb_true_iff in H. destruct H as [Hx Hab].
    apply Z.eqb_eq in Hx. apply IH in Hab. subst. reflexivity.
  - injection H as -> ->. rewrite Z.eqb_refl. simpl. apply IH. reflexivity.
Qed.

(** A string of characters below 128 is its own UTF-8 encoding. *)
Lemma Buffer_from_ascii (s : string) :
  forallb is_ascii (list_ascii_of_string s) = true ->
  Buffer_from s = bytes_of_string s.
Proof.
  unfold Buffer_from, bytes_of_string.
  induction s as [|c s IH]; simpl; intros H; [reflexivity|].
  apply andb_true_iff in H. destruct H as [Hc Hs].
  rewrite (IH Hs). unfold utf8_encode. unfold is_ascii in Hc. rewrite Hc. reflexivity.
Qed.

Lemma forallb_impl {X : Type} (p q : X -> bool) (l : list X) :
  (forall x, p x = true -> q x = true) -> forallb p l = true -> forallb q l = true.
Proof.
  intros Hpq. induction l as [|x l IH]; simpl; [reflexivity|].
  intros H. apply andb_true_iff in H. destruct H as [Hx Hl].
  rewrite (Hpq x Hx), (IH Hl). reflexivity.
Qed.

Lemma lower_hex_ascii (c : ascii) : is_lower_hex c = true -> is_ascii c = true.
Proof.
  unfold is_lower_hex. simpl. intros H.
  repeat (apply orb_true_iff in H; destruct H as [H|H];
          [apply Ascii.eqb_eq in H; subst c; reflexivity|]).
  discriminate H.
Qed.

Lemma Buffer_from_hex (bytes : list Z) : Buffer_from (hex bytes) = bytes_of_string (hex bytes).
Proof.
  apply Buffer_from_ascii. apply (forallb_impl is_lower_hex); [apply lower_hex_ascii|apply hex_lower].
Qed.

Lemma createHmac_sha256_hex_bytes (secret payload : string) :
  List.length (Buffer_from (createHmac_sha256_hex secret payload)) = 64%nat.
Proof.
  unfold createHmac_sha256_hex. rewrite Buffer_from_hex, bytes_of_string_length, hex_length.
  rewrite hmac_sha256_length. reflexivity.
Qed.

Lemma hash_hmac_sha256_length (data key : string) :
  String.length (hash_hmac_sha256 data key) = 64%nat.
Proof. unfold hash_hmac_sha256. rewrite hex_length, hmac_sha256_length. reflexivity. Qed.

(** ** Signature headers *)

Lemma split_absent (sep : ascii) (s : string) :
  forallb (fun c => negb (Ascii.eqb c sep)) (list_ascii_of_string s) = true ->
  split sep s = [s].
Proof.
  induction s as [|c s IH]; simpl; intros H; [reflexivity|].
  apply andb_true_iff in H. destruct H as [Hc Hs].
  apply negb_true_iff in Hc. rewrite Hc, (IH Hs). reflexivity.
Qed.

Lemma explode2_absent (sep : ascii) (s : string) :
  forallb (fun c => negb (Ascii.eqb c sep)) (list_ascii_of_string s) = true ->
  explode2 sep s = [s].
Proof.
  induction s as [|c s IH]; simpl; intros H; [reflexivity|].
  apply andb_true_iff in H. destruct H as [Hc Hs].
  apply negb_true_iff in Hc. rewrite Hc, (IH Hs). reflexivity.
Qed.

Lemma hex_digit_not (sep : ascii) (c : ascii) :
  is_hex_digit sep = false -> is_hex_digit c = true -> negb (Ascii.eqb c sep) = true.
Proof.
  intros Hsep Hc. apply negb_true_iff. destruct (Ascii.eqb c sep) eqn:E; [|reflexivity].
  apply Ascii.eqb_eq in E. subst c. rewrite Hsep in Hc. discriminate Hc.
Qed.

Lemma hex_digit_ascii (c : ascii) : is_hex_digit c = true -> is_ascii c = true.
Proof.
  unfold is_hex_digit. simpl. intros H.
  repeat (apply orb_true_iff in H; destruct H as [H|H];
          [apply Ascii.eqb_eq in H; subst c; reflexivity|]).
  discriminate H.
Qed.

(** A bare signature has no [key=value] piece. *)
Lemma bare_signature_pieces (header : string) :
  forallb is_hex_digit (list_ascii_of_string header) = true ->
  split ","%char header = [header] /\ split "="%char header = [header] /\
  explode2 "="%char header = [header].
Proof.
  intros H. repeat split.
  - apply split_absent. apply (forallb_impl is_hex_digit); [intros x; apply hex_digit_not; reflexivity|exact H].
  - apply split_absent. apply (forallb_impl is_hex_digit); [intros x; apply hex_digit_not; reflexivity|exact H].
  - apply explode2_absent. apply (forallb_impl is_hex_digit); [intros x; apply hex_digit_not; reflexivity|exact H].
Qed.

Lemma bare_signature_parts (header : string) :
  forallb is_hex_digit (list_ascii_of_string header) = true ->
  SahelPayMerchant.header_parts header = [] /\ Webhook.parseSignatureHeader header = [].
Proof.
  intros H. destruct (bare_signature_pieces header H) as (Hc & He & Hx).
  unfold SahelPayMerchant.header_parts, Webhook.parseSignatureHeader.
  rewrite Hc. simpl. rewrite He, Hx. split; reflexivity.
Qed.

Lemma timingSafeEqual_same_length (a b : list Z) :
  List.length a = List.length b ->
  timingSafeEqual a b = ([TimingSafe a b], Return (bytes_eqb a b)).
Proof. intros H. unfold timingSafeEqual. rewrite H, Nat.eqb_refl. reflexivity. Qed.

Lemma nonempty_string (s : string) : nonempty s = true -> exists c rest, s = String c rest.
Proof. destruct s as [|c rest]; [discriminate|]. intros _. exists c, rest. reflexivity. Qed.

Lemma createHmac_sha256_hex_buffer (secret payload : string) :
  Buffer_from (createHmac_sha256_hex secret payload)
  = bytes_of_string (createHmac_sha256_hex secret payload).
Proof. unfold createHmac_sha256_hex. apply Buffer_from_hex. Qed.

(** On an ASCII string and a digest, [timingSafeEqual] over the encoded
    buffers decides string equality. *)
Lemma bytes_eqb_digest (s secret payload : string) :
  Buffer_from s = bytes_of_string s ->
  bytes_eqb (Buffer_from s) (Buffer_from (createHmac_sha256_hex secret payload))
  = String.eqb s (createHmac_sha256_hex secret payload).
Proof.
  intros Hs. rewrite createHmac_sha256_hex_buffer, Hs.
  destruct (String.eqb_spec s (createHmac_sha256_hex secret payload)) as [E|E].
  - rewrite <- E. apply bytes_eqb_eq. reflexivity.
  - destruct (bytes_eqb _ _) eqn:B; [|reflexivity].
    apply bytes_eqb_eq, bytes_of_string_inj in B. contradiction.
Qed.

Module VerifierSpec.
Import SahelPayMerchant.

Local Opaque createHmac_sha256_hex hash_hmac_sha256 JSON.parse Buffer_from.

(** [verifyWebhook] on a header that has both a [t] and a [v1] piece. *)
Lemma verifyWebhook_timestamped (secret rawBody header timestamp signature : string)
    (now_ms tolerance : Z) :
  nonempty secret = true ->
  array_get "t" (header_parts header) = Some timestamp ->
  array_get "v1" (header_parts header) = Some signature ->
  verifyWebhook (Some secret) now_ms rawBody (Some header) tolerance =
  try_catch
    (if match parseInt timestamp with
        | Some t => Z.abs (now_ms / 1000 - t) >? tolerance
        | None => false
        end
     then ret (invalid "Timestamp too old, possible replay attack")
     else
       same <- timingSafeEqual
                 (Buffer_from signature)
                 (Buffer_from (createHmac_sha256_hex secret (timestamp ++ "." ++ rawBody))) ;;
       if negb same then ret (invalid "Invalid signature")
       else
         parsed <- JSON_parse rawBody ;;
         ret (mkResult true (Some parsed) None))
    (fun error => ret (invalid (error_message error))).
Proof.
  intros Hsecret Ht Hv.
  destruct (nonempty_string secret Hsecret) as (c & rest & ->).
  destruct header as [|h header']; [discriminate Ht|].
  unfold verifyWebhook. rewrite Ht, Hv. reflexivity.
Qed.

(** [Webhook::verify] on a header that has both a [t] and a [v1] part. *)
Lemma verify_timestamped (intval : string -> Z) (secret payload header timestamp signature : string)
    (now tolerance : Z) :
  php_truthy_string (Some secret) = true ->
  array_get "t" (Webhook.parseSignatureHeader header) = Some timestamp ->
  array_get "v1" (Webhook.parseSignatureHeader header) = Some signature ->
  Webhook.verify intval (Some secret) now payload header tolerance =
  if negb (php_truthy_string (Some timestamp)) || negb (php_truthy_string (Some signature))
  then throw (WebhookSignatureException
                "Format de signature invalide. Attendu: t=<timestamp>,v1=<signature>")
  else if Z.abs (now - intval timestamp) >? tolerance
  then throw (WebhookSignatureException "Timestamp trop ancien, possible replay attack")
  else
    same <- hash_equals (hash_hmac_sha256 (timestamp ++ "." ++ payload) secret) signature ;;
    if negb same then throw (WebhookSignatureException "Signature invalide")
    else ret true.
Proof.
  intros Hsecret Ht Hv. unfold Webhook.verify. rewrite Hsecret, Ht, Hv. reflexivity.
Qed.

(** The comparisons of the JavaScript verifier on a timestamped header. *)
Lemma verifyWebhook_comparisons (secret rawBody header timestamp signature : string)
    (now_ms tolerance : Z) :
  nonempty secret = true ->
  array_get "t" (header_parts header) = Some timestamp ->
  array_get "v1" (header_parts header) = Some signature ->
  comparisons (verifyWebhook (Some secret) now_ms rawBody (Some header) tolerance) =
  if match parseInt timestamp with
     | Some t => Z.abs (now_ms / 1000 - t) >? tolerance
     | None => false
     end
  then []
  else [TimingSafe (Buffer_from signature)
                   (Buffer_from (createHmac_sha256_hex secret (timestamp ++ "." ++ rawBody)))].
Proof.
  intros Hsecret Ht Hv.
  rewrite (verifyWebhook_timestamped _ _ _ _ _ _ _ Hsecret Ht Hv).
  destruct (match parseInt timestamp with Some t => _ | None => false end); [reflexivity|].
  unfold timingSafeEqual, bind, try_catch, comparisons, ret.
  destruct (_ =? _)%nat; [|reflexivity].
  destruct (bytes_eqb _ _); simpl; [|reflexivity].
  unfold JSON_parse. destruct (JSON.parse _ _); reflexivity.
Qed.

(** The comparisons of the PHP verifier on a timestamped header. *)
Lemma verify_comparisons (intval : string -> Z)
    (secret payload header timestamp signature : string) (now tolerance : Z) :
  php_truthy_string (Some secret) = true ->
  array_get "t" (Webhook.parseSignatureHeader header) = Some timestamp ->
  array_get "v1" (Webhook.parseSignatureHeader header) = Some signature ->
  comparisons (Webhook.verify intval (Some secret) now payload header tolerance) =
  if negb (php_truthy_string (Some timestamp)) || negb (php_truthy_string (Some signature))
     || (Z.abs (now - intval timestamp) >? tolerance)
  then []
  else [TimingSafe (bytes_of_string (hash_hmac_sha256 (timestamp ++ "." ++ payload) secret))
                   (bytes_of_string signature)].
Proof.
  intros Hsecret Ht Hv.
  rewrite (verify_timestamped _ _ _ _ _ _ _ _ Hsecret Ht Hv).
  destruct (negb (php_truthy_string (Some timestamp)) || negb (php_truthy_string (Some signature)));
    [reflexivity|].
  cbn [orb]. destruct (Z.abs (now - intval timestamp) >? tolerance); [reflexivity|].
  unfold hash_equals, bind, comparisons. destruct (String.eqb _ _); reflexivity.
Qed.

(** C2 (as amended).  Neither verifier has a switch for the legacy form.
    [SahelPayMerchant.verifyWebhook] always takes a header of 64
    hexadecimal characters as a legacy signature: it accepts it exactly
    when it equals the lowercase hexadecimal HMAC-SHA256 of the secret over
    [rawBody] alone and the body parses as JSON, whatever the clock and the
    tolerance.  The PHP [Webhook::verify] has no legacy form and rejects
    every such header. *)
Theorem legacy_signature_has_no_switch (secret rawBody header : string)
    (now_ms now tolerance : Z) (intval : string -> Z) :
  is_hex64 header = true ->
  nonempty secret = true ->
  outcome (verifyWebhook (Some secret) now_ms rawBody (Some header) tolerance) =
    Return (if String.eqb header (createHmac_sha256_hex secret rawBody)
            then match JSON.parse js_json (bytes_of_string rawBody) with
                 | Some parsed => mkResult true (Some parsed) None
                 | None => invalid "Unexpected token in JSON"
                 end
            else invalid "Invalid signature (legacy)") /\
  exists e, outcome (Webhook.verify intval (Some secret) now rawBody header tolerance) = Throw e /\
            e = if php_truthy_string (Some secret)
                then WebhookSignatureException
                       "Format de signature invalide. Attendu: t=<timestamp>,v1=<signature>"
                else RuntimeException "Webhook secret non configuré".
Proof.
  intros Hhex Hsecret.
  apply andb_true_iff in Hhex. destruct Hhex as [Hlen Hdigits].
  destruct (bare_signature_parts header Hdigits) as [Hjs Hphp].
  destruct (nonempty_string secret Hsecret) as (c & rest & ->).
  split.
  - destruct header as [|h header']; [discriminate Hlen|].
    set (hd := String h header') in *.
    unfold verifyWebhook. rewrite Hjs. cbn [array_get]. rewrite Hlen.
    assert (Hbuf : Buffer_from hd = bytes_of_string hd).
    { apply Buffer_from_ascii. apply (forallb_impl is_hex_digit); [apply hex_digit_ascii|exact Hdigits]. }
    rewrite timingSafeEqual_same_length.
    2:{ rewrite createHmac_sha256_hex_bytes, Hbuf, bytes_of_string_length.
        apply Z.eqb_eq in Hlen. lia. }
    pose proof (bytes_eqb_digest hd (String c rest) rawBody Hbuf) as Heq.
    unfold bind, try_catch, outcome, ret. rewrite Heq.
    destruct (String.eqb hd _); simpl; [|reflexivity].
    unfold JSON_parse. destruct (JSON.parse _ _); reflexivity.
  - unfold Webhook.verify. destruct (php_truthy_string (Some (String c rest))); simpl.
    + rewrite Hphp. simpl. eexists. split; reflexivity.
    + eexists. split; reflexivity.
Qed.


Lemma legacy_signature_has_no_switch_witness :
  is_hex64 "55a0866228db48a53553ca2c307d29f16f04e9c1b253c5fc05e7ce0b4ee858b7" = true /\
  nonempty sample_secret = true /\
  outcome (verifyWebhook (Some sample_secret) 1700000100000 sample_body
             (Some "55a0866228db48a53553ca2c307d29f16f04e9c1b253c5fc05e7ce0b4ee858b7") 300) =
    Return (if String.eqb "55a0866228db48a53553ca2c307d29f16f04e9c1b253c5fc05e7ce0b4ee858b7"
                          (createHmac_sha256_hex sample_secret sample_body)
            then match JSON.parse js_json (bytes_of_string sample_body) with
                 | Some parsed => mkResult true (Some parsed) None
                 | None => invalid "Unexpected token in JSON"
                 end
            else invalid "Invalid signature (legacy)") /\
  exists e, outcome (Webhook.verify intval_decimal (Some sample_secret) 1700000100 sample_body
                       "55a0866228db48a53553ca2c307d29f16f04e9c1b253c5fc05e7ce0b4ee858b7" 300)
            = Throw e /\
            e = if php_truthy_string (Some sample_secret)
                then WebhookSignatureException
                       "Format de signature invalide. Attendu: t=<timestamp>,v1=<signature>"
                else RuntimeException "Webhook secret non configuré".
Proof.
  split; [reflexivity|]. split; [reflexivity|].
  exact (legacy_signature_has_no_switch sample_secret sample_body
           "55a0866228db48a53553ca2c307d29f16f04e9c1b253c5fc05e7ce0b4ee858b7"
           1700000100000 1700000100 300 intval_decimal eq_refl eq_refl).
Defined.

(** C2 (as stated) fails: [verifyWebhook] takes no option that would
    enable the legacy form, and it accepts the bare 64-character HMAC of
    the body, here long after any tolerance. *)
Lemma legacy_signature_accepted_unasked :
  is_hex64 "55a0866228db48a53553ca2c307d29f16f04e9c1b253c5fc05e7ce0b4ee858b7" = true /\
  createHmac_sha256_hex sample_secret sample_body
    = "55a0866228db48a53553ca2c307d29f16f04e9c1b253c5fc05e7ce0b4ee858b7" /\
  exists parsed,
    outcome (verifyWebhook (Some sample_secret) 1700000100000 sample_body
               (Some "55a0866228db48a53553ca2c307d29f16f04e9c1b253c5fc05e7ce0b4ee858b7") 300)
    = Return (mkResult true (Some parsed) None).
Proof.
  split; [reflexivity|]. split; [vm_compute; reflexivity|].
  eexists. vm_compute. reflexivity.
Qed.


(** By contrast [WebhooksAPI.verifySignature], which reads no [t=] or [v1=]
    part and so verifies no timestamped header, compares with [===]: how
    long that takes depends on the secret. *)
Lemma verifySignature_compares_strictly :
  comparisons (WebhooksAPI.verifySignature true sample_body
                 "55a0866228db48a53553ca2c307d29f16f04e9c1b253c5fc05e7ce0b4ee858b7"
                 sample_secret)
  = [StrictEquals "55a0866228db48a53553ca2c307d29f16f04e9c1b253c5fc05e7ce0b4ee858b7"
                  (createHmac_sha256_hex sample_secret sample_body)] /\
  map timing (comparisons (WebhooksAPI.verifySignature true sample_body
                 "55a0866228db48a53553ca2c307d29f16f04e9c1b253c5fc05e7ce0b4ee858b7"
                 sample_secret))
  <> map timing (comparisons (WebhooksAPI.verifySignature true sample_body
                 "55a0866228db48a53553ca2c307d29f16f04e9c1b253c5fc05e7ce0b4ee858b7"
                 "whsec_other")).
Proof.
  split; [reflexivity|]. vm_compute. discriminate.
Qed.

(** [WebhooksAPI.verifySignature] accepts nothing but a bare lowercase
    hexadecimal digest: a header with a [t=] or [v1=] part is never
    verified by it. *)
Lemma verifySignature_rejects_timestamped (node : bool) (payload signature secret : string) :
  forallb is_lower_hex (list_ascii_of_string signature) = false ->
  outcome (WebhooksAPI.verifySignature node payload signature secret) = Return false.
Proof.
  intros Hsig. unfold WebhooksAPI.verifySignature.
  destruct node; [|reflexivity].
  unfold strict_equals, outcome. cbn [snd].
  destruct (String.eqb_spec signature (createHmac_sha256_hex secret payload)) as [E|E];
    [|reflexivity].
  rewrite E in Hsig.
  Local Transparent createHmac_sha256_hex.
  unfold createHmac_sha256_hex in Hsig.
  Local Opaque createHmac_sha256_hex.
  rewrite hex_lower in Hsig. discriminate Hsig.
Qed.

(** C3 (the code's behaviour).  On a header with a [t] and a [v1] part,
    [SahelPayMerchant.verifyWebhook] and [Webhook::verify] make exactly one
    comparison when the header gets as far as the signature check (a
    timestamp that passes the freshness test; in PHP also a timestamp and a
    signature taken as present), a timing-safe one of the supplied [v1]
    with the lowercase hexadecimal HMAC-SHA256 of the secret over
    [t.rawBody], and none otherwise; what its duration depends on is the
    same for every secret.  [WebhooksAPI.verifySignature] does not: given
    the header [t=<timestamp>,v1=<signature>] it never reads [v1], it
    compares the whole header with the HMAC of the payload alone using
    [===], a comparison that stops at the first difference, and it answers
    false. *)
Theorem timestamped_signature_comparisons :
  (forall (secret secret' rawBody header timestamp signature : string) (now_ms tolerance : Z),
     nonempty secret = true -> nonempty secret' = true ->
     array_get "t" (header_parts header) = Some timestamp ->
     array_get "v1" (header_parts header) = Some signature ->
     let made := comparisons (verifyWebhook (Some secret) now_ms rawBody (Some header) tolerance) in
     made = (if passes_freshness now_ms tolerance timestamp
             then [TimingSafe (Buffer_from signature)
                     (Buffer_from (createHmac_sha256_hex secret (timestamp ++ "." ++ rawBody)))]
             else []) /\
     map timing made =
     map timing (comparisons (verifyWebhook (Some secret') now_ms rawBody (Some header) tolerance)))
  /\
  (forall (intval : string -> Z) (secret secret' payload header timestamp signature : string)
          (now tolerance : Z),
     php_truthy_string (Some secret) = true -> php_truthy_string (Some secret') = true ->
     array_get "t" (Webhook.parseSignatureHeader header) = Some timestamp ->
     array_get "v1" (Webhook.parseSignatureHeader header) = Some signature ->
     let made := comparisons (Webhook.verify intval (Some secret) now payload header tolerance) in
     made = (if php_truthy_string (Some timestamp) && php_truthy_string (Some signature)
                && (Z.abs (now - intval timestamp) <=? tolerance)
             then [TimingSafe
                     (bytes_of_string (hash_hmac_sha256 (timestamp ++ "." ++ payload) secret))
                     (bytes_of_string signature)]
             else []) /\
     map timing made =
     map timing (comparisons (Webhook.verify intval (Some secret') now payload header tolerance)))
  /\
  (forall (payload timestamp signature secret : string),
     let header := signature_header timestamp signature in
     let made := comparisons (WebhooksAPI.verifySignature true payload header secret) in
     made = [StrictEquals header (createHmac_sha256_hex secret payload)] /\
     forallb constant_time made = false /\
     outcome (WebhooksAPI.verifySignature true payload header secret) = Return false).
Proof.
  split; [|split].
  - intros secret secret' rawBody header timestamp signature now_ms tolerance Hs Hs' Ht Hv made.
    subst made.
    rewrite (verifyWebhook_comparisons secret _ _ _ _ _ _ Hs Ht Hv).
    rewrite (verifyWebhook_comparisons secret' _ _ _ _ _ _ Hs' Ht Hv).
    unfold passes_freshness.
    destruct (parseInt timestamp) as [t|].
    + destruct (Z.abs (now_ms / 1000 - t) >? tolerance); cbn [negb].
      * split; reflexivity.
      * split; [reflexivity|].
        cbn [map timing]. rewrite !createHmac_sha256_hex_bytes. reflexivity.
    + split; [reflexivity|].
      cbn [map timing]. rewrite !createHmac_sha256_hex_bytes. reflexivity.
  - intros intval secret secret' payload header timestamp signature now tolerance Hs Hs' Ht Hv made.
    subst made.
    rewrite (verify_comparisons intval secret _ _ _ _ _ _ Hs Ht Hv).
    rewrite (verify_comparisons intval secret' _ _ _ _ _ _ Hs' Ht Hv).
    rewrite Z.gtb_ltb, Z.leb_antisym.
    destruct (php_truthy_string (Some timestamp)); cbn [negb orb andb];
      [|split; reflexivity].
    destruct (php_truthy_string (Some signature)); cbn [negb orb andb];
      [|split; reflexivity].
    destruct (tolerance <? Z.abs (now - intval timestamp)); cbn [negb];
      [split; reflexivity|].
    split; [reflexivity|].
    cbn [map timing]. rewrite !bytes_of_string_length, !hash_hmac_sha256_length. reflexivity.
  - intros payload timestamp signature secret header made. subst made.
    split; [reflexivity|]. split; [reflexivity|].
    apply verifySignature_rejects_timestamped. reflexivity.
Qed.

(** The scenario of the SDK's examples: a signature made now over
    [t.rawBody] is accepted by both verifiers, and a wrong [v1] is
    rejected. *)
Lemma fresh_signature_accepted :
  let header :=
    "t=1700000000,v1=e955d5f2c952427139707874ef92700fa7cd18a4b9fd150eeeac11518b5c1dad" in
  (exists parsed,
     outcome (verifyWebhook (Some sample_secret) 1700000000000 sample_body (Some header) 300)
     = Return (mkResult true (Some parsed) None)) /\
  outcome (Webhook.verify intval_decimal (Some sample_secret) 1700000000 sample_body header 300)
  = Return true /\
  outcome (verifyWebhook (Some sample_secret) 1700000000000 sample_body
             (Some "t=1700000000,v1=bad_signature") 300)
  = Return (invalid "Input buffers must have the same byte length") /\
  outcome (Webhook.verify intval_decimal (Some sample_secret) 1700000000 sample_body
             "t=1700000000,v1=bad_signature" 300)
  = Throw (WebhookSignatureException "Signature invalide").
Proof.
  cbv zeta. split; [eexists; vm_compute; reflexivity|].
  split; [vm_compute; reflexivity|]. split; vm_compute; reflexivity.
Qed.

(** A stale timestamp is rejected by [verifyWebhook] before any HMAC is
    looked at, whatever the supplied signature. *)
Lemma verifyWebhook_stale (secret rawBody header timestamp signature : string)
    (now_ms tolerance t : Z) :
  nonempty secret = true ->
  array_get "t" (header_parts header) = Some timestamp ->
  array_get "v1" (header_parts header) = Some signature ->
  parseInt timestamp = Some t ->
  Z.abs (now_ms / 1000 - t) > tolerance ->
  verifyWebhook (Some secret) now_ms rawBody (Some header) tolerance
  = ret (invalid "Timestamp too old, possible replay attack").
Proof.
  intros Hsecret Ht Hv Hparse Hstale.
  rewrite (verifyWebhook_timestamped _ _ _ _ _ _ _ Hsecret Ht Hv), Hparse.
  replace (Z.abs (now_ms / 1000 - t) >? tolerance) with true
    by (symmetry; apply Z.gtb_lt; lia).
  reflexivity.
Qed.

(** [Webhook::verify] does the same for a timestamp part that PHP takes as
    present, that is neither empty nor the string 0. *)
Lemma verify_stale (intval : string -> Z) (secret payload header timestamp signature : string)
    (now tolerance : Z) :
  php_truthy_string (Some secret) = true ->
  array_get "t" (Webhook.parseSignatureHeader header) = Some timestamp ->
  array_get "v1" (Webhook.parseSignatureHeader header) = Some signature ->
  php_truthy_string (Some timestamp) = true ->
  php_truthy_string (Some signature) = true ->
  Z.abs (now - intval timestamp) > tolerance ->
  Webhook.verify intval (Some secret) now payload header tolerance
  = throw (WebhookSignatureException "Timestamp trop ancien, possible replay attack").
Proof.
  intros Hsecret Ht Hv Htt Hvt Hstale.
  rewrite (verify_timestamped _ _ _ _ _ _ _ _ Hsecret Ht Hv), Htt, Hvt.
  replace (Z.abs (now - intval timestamp) >? tolerance) with true
    by (symmetry; apply Z.gtb_lt; lia).
  reflexivity.
Qed.

(** C4 (the code's behaviour at the timestamp 0).  A payload signed with
    the timestamp 0 is stale at any present-day clock, and its [v1] is the
    right HMAC.  [SahelPayMerchant.verifyWebhook] rejects it as stale; the
    PHP [Webhook::verify] takes the string 0 for a missing timestamp and
    rejects it as malformed, not as stale, whatever [intval] reads. *)
Theorem zero_timestamp_is_not_reported_stale :
  let signature := "54e8003d33462abae32c6bdf1956ff259996b07a150f8c37606c895b3c2726a7" in
  let header := ("t=0,v1=" ++ signature)%string in
  hash_hmac_sha256 ("0." ++ sample_body) sample_secret = signature /\
  Z.abs (1700000000 - 0) > 300 /\
  outcome (verifyWebhook (Some sample_secret) 1700000000000 sample_body (Some header) 300)
  = Return (invalid "Timestamp too old, possible replay attack") /\
  forall intval : string -> Z,
    outcome (Webhook.verify intval (Some sample_secret) 1700000000 sample_body header 300)
    = Throw (WebhookSignatureException
               "Format de signature invalide. Attendu: t=<timestamp>,v1=<signature>").
Proof.
  cbv zeta. split; [vm_compute; reflexivity|]. split; [lia|].
  split; [reflexivity|]. intros intval. reflexivity.
Qed.

(** Closes a branch of [verifyWebhook] that ends in a returned result. *)
Ltac returned :=
  eexists; split;
  [reflexivity|first [left; eexists; reflexivity|right; eexists; reflexivity]].

(** C5 (as amended).  [SahelPayMerchant.verifyWebhook] returns a result
    value for every secret, body, header, clock and tolerance, and never
    throws: a rejection carrying its message, or the parsed payload.  The
    PHP [Webhook::verify] returns [true] or throws: a
    [WebhookSignatureException] for every header it rejects, a
    [RuntimeException] when no secret is configured. *)
Theorem verifier_error_reporting :
  (forall (webhookSecret : option string) (now_ms : Z) (rawBody : string)
          (signatureHeader : option string) (toleranceSeconds : Z),
     exists r,
       outcome (verifyWebhook webhookSecret now_ms rawBody signatureHeader toleranceSeconds)
       = Return r /\
       ((exists message, r = invalid message) \/
        (exists parsed, r = mkResult true (Some parsed) None)))
  /\
  (forall (intval : string -> Z) (webhookSecret : option string) (now : Z)
          (payload signatureHeader : string) (tolerance : Z),
     let out := outcome (Webhook.verify intval webhookSecret now payload signatureHeader tolerance) in
     out = Return true \/
     (exists message, out = Throw (WebhookSignatureException message)) \/
     (php_truthy_string webhookSecret = false /\
      out = Throw (RuntimeException "Webhook secret non configuré"))).
Proof.
  split.
  - intros webhookSecret now_ms rawBody signatureHeader toleranceSeconds.
    unfold verifyWebhook.
    destruct webhookSecret as [[|c secret]|]; try returned.
    destruct signatureHeader as [[|h header]|]; try returned.
    destruct (array_get "t" _) as [timestamp|], (array_get "v1" _) as [signature|];
      try returned.
    + destruct (match parseInt timestamp with Some t => _ | None => false end); [returned|].
      unfold timingSafeEqual, bind, try_catch, outcome.
      destruct (_ =? _)%nat; [|returned].
      destruct (bytes_eqb _ _); [|returned].
      unfold JSON_parse. destruct (JSON.parse _ _); returned.
    + destruct (_ =? 64); [|returned].
      unfold timingSafeEqual, bind, try_catch, outcome.
      destruct (_ =? _)%nat; [|returned].
      destruct (bytes_eqb _ _); [|returned].
      unfold JSON_parse. destruct (JSON.parse _ _); returned.
  - intros intval webhookSecret now payload signatureHeader tolerance out. subst out.
    unfold Webhook.verify.
    destruct (php_truthy_string webhookSecret) eqn:Hsecret; simpl.
    2:{ right. right. split; reflexivity. }
    destruct (array_get "t" _) as [timestamp|]; [|right; left; eexists; reflexivity].
    destruct (array_get "v1" _) as [signature|]; [|right; left; eexists; reflexivity].
    destruct (negb _ || negb _); [right; left; eexists; reflexivity|].
    destruct (_ >? _); [right; left; eexists; reflexivity|].
    unfold hash_equals, bind, outcome. destruct (String.eqb _ _); simpl.
    + left. reflexivity.
    + right. left. eexists. reflexivity.
Qed.

(** C5 (as stated) fails: on a malformed header [Webhook::verify] throws. *)
Lemma verify_throws_on_malformed_header :
  outcome (Webhook.verify intval_decimal (Some sample_secret) 1700000000 sample_body
             "bad_signature" Webhook.DEFAULT_TOLERANCE)
  = Throw (WebhookSignatureException
             "Format de signature invalide. Attendu: t=<timestamp>,v1=<signature>").
Proof. reflexivity. Qed.

End VerifierSpec.

(** ** Event parser *)

Lemma php_array_set_nonempty (k : php_key) (v : php_value) (a : list (php_key * php_value)) :
  php_array_set k v a <> [].
Proof.
  destruct a as [|[k' v'] rest]; simpl; [discriminate|].
  destruct (php_key_eqb k k'); discriminate.
Qed.

Lemma fold_php_array_set_nonempty (entries : list (list Z * php_value))
    (a : list (php_key * php_value)) :
  a <> [] \/ entries <> [] ->
  fold_left (fun a kv => php_array_set (php_key_of_string (string_of_bytes (fst kv))) (snd kv) a)
            entries a <> [].
Proof.
  revert a. induction entries as [|kv entries IH]; intros a H; simpl.
  - destruct H as [H|H]; [exact H|contradiction].
  - apply IH. left. apply php_array_set_nonempty.
Qed.

Module ParserSpec.
Import Webhook.

(** C7 (as amended).  [Webhook::parse] fails with its invalid-payload
    error exactly when the body is not a JSON text [json_decode] accepts or
    decodes to an empty value (null, false, a zero, the empty string, the
    string 0, an empty array or object).  A body that is a non-empty JSON
    object is accepted whatever its event type, and [getType] returns the
    event string of the payload as it is: no list of known events is
    consulted. *)
Theorem parse_rejects_invalid_or_empty_payload :
  (forall payload : string,
     outcome (parse payload) = Throw (InvalidArgumentException "Payload JSON invalide")
     <-> (JSON.parse php_json (bytes_of_string payload) = None \/
          exists v, JSON.parse php_json (bytes_of_string payload) = Some v /\
                    php_truthy (to_php v) = false))
  /\
  (forall (payload : string) (members : list (list Z * JSON.json)),
     JSON.parse php_json (bytes_of_string payload) = Some (JSON.JObject members) ->
     members <> [] ->
     exists event, outcome (parse payload) = Return event /\
                   to_php (JSON.JObject members) = PArray (data event))
  /\
  (forall (event : WebhookEvent) (type : string),
     php_array_get (KStr "event") (data event) = Some (PString type) ->
     outcome (getType event) = Return type).
Proof.
  split; [|split].
  - intros payload. unfold parse, json_decode.
    destruct (JSON.parse php_json (bytes_of_string payload)) as [v|].
    + destruct (php_truthy (to_php v)) eqn:Htruthy; simpl.
      * split.
        -- destruct (to_php v); discriminate.
        -- intros [H|(w & Hw & Hfalse)]; [discriminate H|].
           injection Hw as <-. rewrite Hfalse in Htruthy. discriminate Htruthy.
      * split; [|reflexivity]. intros _. right. exists v. split; [reflexivity|exact Htruthy].
    + simpl. split; [|reflexivity]. intros _. left. reflexivity.
  - intros payload members Hparse Hmembers. unfold parse, json_decode. rewrite Hparse.
    cbn [to_php].
    set (entries := fold_left _ _ []).
    assert (Hne : entries <> []).
    { apply fold_php_array_set_nonempty. right. destruct members; [contradiction|discriminate]. }
    destruct entries as [|entry entries'] eqn:E; [contradiction|].
    simpl. eexists. split; reflexivity.
  - intros event type H. unfold getType. rewrite H. reflexivity.
Qed.

Lemma parse_rejects_invalid_or_empty_payload_witness :
  let payload := quoted "{'event':'payment.refunded','data':{'reference_id':'SP-123'}}" in
  (exists members,
     JSON.parse php_json (bytes_of_string payload) = Some (JSON.JObject members) /\
     members <> [] /\
     exists event, outcome (parse payload) = Return event /\
                   to_php (JSON.JObject members) = PArray (data event)) /\
  (outcome (parse "invalid json") = Throw (InvalidArgumentException "Payload JSON invalide")
   <-> (JSON.parse php_json (bytes_of_string "invalid json") = None \/
        exists v, JSON.parse php_json (bytes_of_string "invalid json") = Some v /\
                  php_truthy (to_php v) = false)) /\
  (php_array_get (KStr "event")
     [(KStr "event", PString "payment.refunded")] = Some (PString "payment.refunded") ->
   outcome (getType (mkWebhookEvent [(KStr "event", PString "payment.refunded")]))
   = Return "payment.refunded").
Proof.
  cbv zeta. split; [|split].
  - eexists. split; [vm_compute; reflexivity|]. split; [discriminate|].
    apply (proj1 (proj2 parse_rejects_invalid_or_empty_payload)); [vm_compute; reflexivity|discriminate].
  - exact (proj1 parse_rejects_invalid_or_empty_payload "invalid json").
  - exact (proj2 (proj2 parse_rejects_invalid_or_empty_payload)
             (mkWebhookEvent [(KStr "event", PString "payment.refunded")]) "payment.refunded").
Defined.

(** C7 (as stated) fails: the empty object is a JSON text, and [parse]
    rejects it with the invalid-payload error. *)
Lemma parse_rejects_empty_object :
  JSON.parse php_json (bytes_of_string "{}") = Some (JSON.JObject []) /\
  outcome (parse "{}") = Throw (InvalidArgumentException "Payload JSON invalide").
Proof. split; reflexivity. Qed.

(** The nesting [json_decode] takes: 511 arrays, not 512. *)
Lemma json_decode_nesting :
  json_decode (nested_arrays 511) <> PNull /\ json_decode (nested_arrays 512) = PNull.
Proof. split; [vm_compute; discriminate|vm_compute; reflexivity]. Qed.

(** The payloads of the SDK's unit tests. *)
Lemma parse_known_event :
  outcome (event <- parse (quoted "{'event':'payment.success','data':{'reference_id':'SP-123','amount':5000}}") ;;
           getType event)
  = Return "payment.success".
Proof. vm_compute. reflexivity. Qed.

Lemma parse_unknown_event :
  outcome (event <- parse (quoted "{'event':'payment.refunded','data':{'reference_id':'SP-123'}}") ;;
           getType event)
  = Return "payment.refunded".
Proof. vm_compute. reflexivity. Qed.

Lemma parse_invalid_json :
  outcome (parse "invalid json") = Throw (InvalidArgumentException "Payload JSON invalide").
Proof. vm_compute. reflexivity. Qed.

End ParserSpec.

(** ** More on the capability matrix *)

Lemma array_get_in {V : Type} (key : string) (a : list (string * V)) (v : V) :
  array_get key a = Some v -> In (key, v) a.
Proof.
  induction a as [|[k w] rest IH]; simpl; [discriminate|].
  destruct (String.eqb_spec key k) as [->|Hne].
  - intros H. injection H as ->. left. reflexivity.
  - intros H. right. apply IH. exact H.
Qed.

Lemma array_get_unique {V : Type} (key : string) (a : list (string * V)) (v : V) :
  NoDup (array_keys a) -> In (key, v) a -> array_get key a = Some v.
Proof.
  induction a as [|[k w] rest IH]; simpl; intros Hnd Hin; [contradiction|].
  inversion Hnd as [|? ? Hnotin Hnd']; subst.
  destruct Hin as [Heq|Hin].
  - injection Heq as -> ->. rewrite String.eqb_refl. reflexivity.
  - destruct (String.eqb_spec key k) as [->|Hne].
    + elim Hnotin. change (In k (map fst rest)).
      apply in_map_iff. exists (k, v). split; [reflexivity|exact Hin].
    + apply IH; assumption.
Qed.

Module CapabilitiesMore.
Import Capabilities.

Lemma matrix_keys_distinct : NoDup (array_keys MATRIX).
Proof.
  unfold array_keys. simpl.
  repeat (constructor; [simpl; intros H; repeat (destruct H as [H|H]; [discriminate H|]); exact H|]).
  constructor.
Qed.

(** X1. [getMethodsWithCapability] lists exactly the methods for which
    [has] answers true: a method is in the list for a capability if and
    only if [has] holds of the pair. *)
Theorem getMethodsWithCapability_iff_has (method capability : string) :
  In method (getMethodsWithCapability capability) <-> has method capability = true.
Proof.
  unfold getMethodsWithCapability, has. split.
  - intros H. apply in_map_iff in H. destruct H as ([m caps] & Hm & Hin). simpl in Hm. subst m.
    apply filter_In in Hin. destruct Hin as [Hin Hp]. simpl in Hp.
    rewrite (array_get_unique method MATRIX caps matrix_keys_distinct Hin). exact Hp.
  - destruct (array_get method MATRIX) as [caps|] eqn:Hrow; [|discriminate].
    intros Hp. apply in_map_iff. exists (method, caps). split; [reflexivity|].
    apply filter_In. split; [apply array_get_in; exact Hrow|exact Hp].
Qed.

(** X2. [get] returns null exactly for a method that is not declared, and
    for a declared method a row that lists the eight capability types, each
    once and in the declared order. *)
Theorem get_row (method : string) :
  (get method = None <-> ~ In method PAYMENT_METHODS) /\
  (forall caps, get method = Some caps -> array_keys caps = CAPABILITY_TYPES).
Proof.
  unfold get. split; [split|].
  - intros Hnone Hin. simpl in Hin.
    repeat (destruct Hin as [Hin|Hin]; [subst method; discriminate Hnone|]). exact Hin.
  - intros Hnot. apply array_get_none. exact Hnot.
  - intros caps Hrow. apply array_get_in in Hrow.
    pose proof CapabilitiesSpec.matrix_columns as Hcols.
    rewrite Forall_forall in Hcols. exact (Hcols (method, caps) Hrow).
Qed.

(** X3. [getDescription] falls back to its default text exactly on the
    pairs that are not declared: every declared method and capability has a
    description of its own. *)
Theorem getDescription_default_iff_undeclared (method capability : string) :
  getDescription method capability = "Non documenté"
  <-> ~ (In method PAYMENT_METHODS /\ In capability CAPABILITY_TYPES).
Proof.
  split.
  - intros Hd [Hm Hc]. simpl in Hm, Hc.
    repeat (destruct Hm as [Hm|Hm]; [subst method|]); try contradiction;
      repeat (destruct Hc as [Hc|Hc]; [subst capability|]); try contradiction;
      discriminate Hd.
  - intros Hnot. unfold getDescription.
    destruct (array_get method DESCRIPTIONS) as [texts|] eqn:Hrow; [|reflexivity].
    destruct (array_get capability texts) as [text|] eqn:Htext; [|reflexivity].
    elim Hnot. apply array_get_in in Hrow. apply array_get_some_key in Htext.
    simpl in Hrow.
    repeat (destruct Hrow as [Hrow|Hrow];
            [injection Hrow as <- <-; split; [simpl; tauto|exact Htext]|]).
    contradiction.
Qed.

(** X4. The two tables agree in one direction: a pair whose description
    says that the capability is not available, not applicable, not
    supported or not documented is never reported as supported by [has]. *)
Theorem unavailable_description_is_unsupported (method capability : string) :
  says_unavailable (getDescription method capability) = true ->
  has method capability = false.
Proof.
  intros Hd. unfold has.
  destruct (array_get method MATRIX) as [caps|] eqn:Hrow; [|reflexivity].
  destruct (array_get capability caps) as [b|] eqn:Hcap; [|reflexivity].
  apply array_get_in in Hrow. apply array_get_in in Hcap. simpl in Hrow.
  repeat (destruct Hrow as [Hrow|Hrow];
          [injection Hrow as <- <-; simpl in Hcap;
           repeat (destruct Hcap as [Hcap|Hcap];
                   [injection Hcap as <- <-; first [reflexivity|discriminate Hd]|]);
           contradiction|]).
  contradiction.
Qed.

Lemma unavailable_description_is_unsupported_witness :
  says_unavailable (getDescription "CARD" "payouts") = true /\
  has "CARD" "payouts" = false.
Proof.
  split; [reflexivity|].
  exact (unavailable_description_is_unsupported "CARD" "payouts" eq_refl).
Defined.

End CapabilitiesMore.

(** ** More on the status pollers *)

Module PollMore.

(** X5. [PaymentsAPI.poll] always settles, whatever the status checks
    answer and whatever the callback does: after at most [timeout + 2]
    checks and no later than the time budget plus one timer (the 10 s cap,
    or the configured interval when it is larger) plus the time its last
    check takes. *)
Theorem payment_poll_always_settles (clock : Z)
    (checkStatus : nat -> completion js_error (string * PaymentsAPI.Payment))
    (elapsed : nat -> N) (options : poll_options PaymentsAPI.Payment) :
  let budget := js_or (timeout options) 120000 in
  exists r,
    (forall fuel, (S (Z.to_nat (budget + 1)) <= fuel)%nat ->
       PaymentsAPI.poll fuel clock checkStatus elapsed options = Some r) /\
    (1 <= List.length (observed r) <= S (Z.to_nat (budget + 1)))%nat /\
    clock <= settled_at r <=
      clock + Z.max 0 (budget + poll_slack options)
      + Z.of_N (elapsed (pred (List.length (observed r)))).
Proof.
  intros budget. unfold PaymentsAPI.poll.
  apply check_always_settles; unfold poll_slack; lia.
Qed.

(** X6. [PayoutsAPI.poll] always settles too, within the same bounds. *)
Theorem payout_poll_always_settles (clock : Z)
    (retrieve : nat -> completion js_error PayoutsAPI.Payout)
    (elapsed : nat -> N) (options : poll_options PayoutsAPI.Payout) :
  let budget := js_or (timeout options) 120000 in
  exists r,
    (forall fuel, (S (Z.to_nat (budget + 1)) <= fuel)%nat ->
       PayoutsAPI.poll fuel clock retrieve elapsed options = Some r) /\
    (1 <= List.length (observed r) <= S (Z.to_nat (budget + 1)))%nat /\
    clock <= settled_at r <=
      clock + Z.max 0 (budget + poll_slack options)
      + Z.of_N (elapsed (pred (List.length (observed r)))).
Proof.
  intros budget. unfold PayoutsAPI.poll.
  apply check_always_settles; unfold poll_slack; lia.
Qed.

(** X7. In every run of [PaymentsAPI.poll], [onStatus] (when supplied) is
    called once for each check that answered, with the status and the
    snapshot of that check and in the order of the checks, and never for a
    check that threw; without [onStatus] nothing is called. *)
Theorem payment_poll_notifications (fuel : nat) (clock : Z)
    (checkStatus : nat -> completion js_error (string * PaymentsAPI.Payment))
    (elapsed : nat -> N) (options : poll_options PaymentsAPI.Payment)
    (r : run PaymentsAPI.Payment) :
  PaymentsAPI.poll fuel clock checkStatus elapsed options = Some r ->
  notified r = match onStatus options with
               | Some _ => statuses (observed r)
               | None => []
               end /\
  observed r = map checkStatus (seq 0 (List.length (observed r))).
Proof.
  intros H. unfold PaymentsAPI.poll in H.
  destruct (check_run _ _ _ _ _ _ _ _ _ _ _ _ H) as (m & Hobs & _ & _ & Hnot).
  split; [exact Hnot|].
  rewrite Hobs at 2. rewrite length_map, length_seq. exact Hobs.
Qed.

Lemma payment_poll_notifications_witness :
  exists r,
    PaymentsAPI.poll 3 0 pending_pending_success instant
      (mkOptions None None (Some listening)) = Some r /\
    notified r = statuses (observed r) /\
    observed r = map pending_pending_success (seq 0 (List.length (observed r))).
Proof.
  eexists. split; [reflexivity|].
  exact (payment_poll_notifications 3 0 pending_pending_success instant
           (mkOptions None None (Some listening)) _ eq_refl).
Defined.

(** X8. [PayoutsAPI.poll] settles by its last [retrieve] and the callback
    on it.  It resolves only with the payout the last [retrieve] answered,
    when its own status is COMPLETED, FAILED or CANCELLED and [onStatus]
    (if supplied) returned; it is rejected with the TIMEOUT error (code
    TIMEOUT, status 408) only when that payout has another status and
    [onStatus] returned; it is rejected with the error of [onStatus] when
    the callback threw, and with the error of [retrieve] when it threw. *)
Theorem payout_poll_result (fuel : nat) (clock : Z)
    (retrieve : nat -> completion js_error PayoutsAPI.Payout)
    (elapsed : nat -> N) (options : poll_options PayoutsAPI.Payout)
    (r : run PayoutsAPI.Payout) :
  PayoutsAPI.poll fuel clock retrieve elapsed options = Some r ->
  exists n,
    List.length (observed r) = S n /\
    match retrieve n with
    | Return payout =>
        match match onStatus options with
              | Some called => called n (PayoutsAPI.status payout) payout
              | None => Return tt
              end with
        | Return _ =>
            if includes ["COMPLETED"; "FAILED"; "CANCELLED"] (PayoutsAPI.status payout)
            then result r = Resolved payout
            else result r = Rejected (SahelPayError "Polling timeout" "TIMEOUT" (Some 408))
        | Throw error => result r = Rejected error
        end
    | Throw error => result r = Rejected error
    end.
Proof.
  intros H. unfold PayoutsAPI.poll in H.
  destruct (check_run _ _ _ _ _ _ _ _ _ _ _ _ H) as (m & Hobs & _ & Hres & _).
  exists m. split; [rewrite Hobs, length_map, length_seq; reflexivity|].
  rewrite Hres. cbn [Nat.add]. clear.
  destruct (retrieve m) as [payout|error]; [|destruct (onStatus options); reflexivity].
  cbn [attempt]. destruct (onStatus options) as [called|].
  - destruct (called m (PayoutsAPI.status payout) payout); cbn [settles]; [|reflexivity].
    destruct (includes _ _); reflexivity.
  - cbn [settles]. destruct (includes _ _); reflexivity.
Qed.

Lemma payout_poll_result_witness :
  exists r,
    PayoutsAPI.poll 3 0 payout_progress instant (mkOptions None None (Some listening)) = Some r /\
    result r = Resolved (sample_payout "COMPLETED") /\
    exists n,
      List.length (observed r) = S n /\
      match payout_progress n with
      | Return payout =>
          match match Some (@listening PayoutsAPI.Payout) with
                | Some called => called n (PayoutsAPI.status payout) payout
                | None => Return tt
                end with
          | Return _ =>
              if includes ["COMPLETED"; "FAILED"; "CANCELLED"] (PayoutsAPI.status payout)
              then result r = Resolved payout
              else result r = Rejected (SahelPayError "Polling timeout" "TIMEOUT" (Some 408))
          | Throw error => result r = Rejected error
          end
      | Throw error => result r = Rejected error
      end.
Proof.
  eexists. split; [reflexivity|]. split; [reflexivity|].
  exact (payout_poll_result 3 0 payout_progress instant
           (mkOptions None None (Some listening)) _ eq_refl).
Defined.

End PollMore.

(** ** More on signature headers *)

Lemma split_nonempty (sep : ascii) (s : string) : split sep s <> [].
Proof.
  destruct s as [|c s]; simpl; [discriminate|].
  destruct (Ascii.eqb c sep); [discriminate|].
  destruct (split sep s); discriminate.
Qed.

Lemma split_app (sep : ascii) (a b : string) :
  split sep (a ++ String sep b)%string = split sep a ++ split sep b.
Proof.
  induction a as [|c a IH]; simpl.
  - rewrite Ascii.eqb_refl. reflexivity.
  - destruct (Ascii.eqb c sep); [rewrite IH; reflexivity|].
    rewrite IH. pose proof (split_nonempty sep a) as Hne.
    destruct (split sep a) as [|piece pieces]; [contradiction|]. reflexivity.
Qed.

Lemma split_lacks (sep : ascii) (s : string) : lacks sep s = true -> split sep s = [s].
Proof. apply split_absent. Qed.

Lemma explode2_first (sep : ascii) (key rest : string) :
  lacks sep key = true ->
  explode2 sep (key ++ String sep rest)%string = [key; rest].
Proof.
  unfold lacks. induction key as [|c key IH]; simpl; intros H.
  - rewrite Ascii.eqb_refl. reflexivity.
  - apply andb_true_iff in H. destruct H as [Hc Hkey].
    apply negb_true_iff in Hc. rewrite Hc, (IH Hkey). reflexivity.
Qed.

Lemma array_get_set_same {V : Type} (key : string) (v : V) (a : list (string * V)) :
  array_get key (array_set key v a) = Some v.
Proof.
  induction a as [|[k w] rest IH]; simpl.
  - rewrite String.eqb_refl. reflexivity.
  - destruct (String.eqb key k) eqn:E; simpl; [rewrite String.eqb_refl; reflexivity|].
    rewrite E. exact IH.
Qed.

Lemma array_get_set_other {V : Type} (key other : string) (v : V) (a : list (string * V)) :
  key <> other -> array_get other (array_set key v a) = array_get other a.
Proof.
  intros Hne. induction a as [|[k w] rest IH]; simpl.
  - destruct (String.eqb_spec other key) as [E|E]; [congruence|reflexivity].
  - destruct (String.eqb_spec key k) as [->|Hk]; simpl.
    + destruct (String.eqb_spec other k) as [E|E]; [congruence|reflexivity].
    + destruct (String.eqb other k); [reflexivity|exact IH].
Qed.

Lemma append_assoc (a b c : string) : ((a ++ b) ++ c = a ++ (b ++ c))%string.
Proof. induction a as [|x a IH]; simpl; [reflexivity|]. rewrite IH. reflexivity. Qed.

Module HeaderSpec.
Import SahelPayMerchant.

(** The pieces of a header that ends in [,key=value]. *)
Lemma header_parts_last (header key value : string) :
  lacks ","%char key = true -> lacks ","%char value = true ->
  lacks "="%char key = true -> lacks "="%char value = true ->
  header_parts (header ++ "," ++ key ++ "=" ++ value) =
  (if nonempty key && nonempty value then [(key, value)] else []) ++ header_parts header.
Proof.
  intros Hkc Hvc Hke Hve. unfold header_parts.
  change (header ++ "," ++ key ++ "=" ++ value)%string
    with (header ++ String ","%char (key ++ String "="%char value))%string.
  rewrite split_app, fold_left_app.
  assert (Hpiece : split ","%char (key ++ String "="%char value) = [(key ++ String "="%char value)%string]).
  { apply split_lacks. unfold lacks in *.
    clear Hke Hve. induction key as [|c key IH]; simpl in *.
    - exact Hvc.
    - apply andb_true_iff in Hkc. destruct Hkc as [Hc Hkey]. rewrite Hc. exact (IH Hkey). }
  rewrite Hpiece. cbn [fold_left].
  rewrite split_app, (split_lacks _ _ Hke), (split_lacks _ _ Hve). cbn [app].
  destruct (nonempty key && nonempty value); reflexivity.
Qed.

Lemma parseSignatureHeader_last (header key value : string) :
  lacks ","%char key = true -> lacks ","%char value = true ->
  lacks "="%char key = true ->
  Webhook.parseSignatureHeader (header ++ "," ++ key ++ "=" ++ value) =
  array_set key value (Webhook.parseSignatureHeader header).
Proof.
  intros Hkc Hvc Hke. unfold Webhook.parseSignatureHeader.
  change (header ++ "," ++ key ++ "=" ++ value)%string
    with (header ++ String ","%char (key ++ String "="%char value))%string.
  rewrite split_app, fold_left_app.
  assert (Hpiece : split ","%char (key ++ String "="%char value) = [(key ++ String "="%char value)%string]).
  { apply split_lacks. unfold lacks in *.
    clear Hke. induction key as [|c key IH]; simpl in *.
    - exact Hvc.
    - apply andb_true_iff in Hkc. destruct Hkc as [Hc Hkey]. rewrite Hc. exact (IH Hkey). }
  rewrite Hpiece. cbn [fold_left]. rewrite (explode2_first _ _ _ Hke). reflexivity.
Qed.

(** The parts both parsers find in [t=<timestamp>,v1=<signature>]. *)
Lemma signature_header_parts (timestamp signature : string) :
  lacks ","%char timestamp = true -> lacks ","%char signature = true ->
  (array_get "t" (Webhook.parseSignatureHeader (signature_header timestamp signature))
     = Some timestamp /\
   array_get "v1" (Webhook.parseSignatureHeader (signature_header timestamp signature))
     = Some signature) /\
  (lacks "="%char timestamp = true -> lacks "="%char signature = true ->
   nonempty timestamp = true -> nonempty signature = true ->
   array_get "t" (header_parts (signature_header timestamp signature)) = Some timestamp /\
   array_get "v1" (header_parts (signature_header timestamp signature)) = Some signature).
Proof.
  intros Htc Hsc.
  assert (Hshape : signature_header timestamp signature
                   = (("t=" ++ timestamp) ++ "," ++ "v1" ++ "=" ++ signature)%string).
  { unfold signature_header. rewrite append_assoc. reflexivity. }
  assert (Hfirst_php : Webhook.parseSignatureHeader ("t=" ++ timestamp) = [("t", timestamp)]).
  { unfold Webhook.parseSignatureHeader.
    assert (Hp : split ","%char ("t=" ++ timestamp) = [("t=" ++ timestamp)%string]).
    { apply split_lacks. unfold lacks in *. simpl. exact Htc. }
    rewrite Hp. reflexivity. }
  split.
  - rewrite Hshape, parseSignatureHeader_last by (try reflexivity; assumption).
    rewrite Hfirst_php. split; reflexivity.
  - intros Hte Hse Htn Hsn.
    assert (Hfirst_js : header_parts ("t=" ++ timestamp) = [("t", timestamp)]).
    { unfold header_parts.
      assert (Hp : split ","%char ("t=" ++ timestamp) = [("t=" ++ timestamp)%string]).
      { apply split_lacks. unfold lacks in *. simpl. exact Htc. }
      rewrite Hp. cbn [fold_left].
      change ("t=" ++ timestamp)%string with ("t" ++ String "="%char timestamp)%string.
      rewrite split_app, (split_lacks _ _ Hte). simpl. rewrite Htn. reflexivity. }
    rewrite Hshape, header_parts_last by (try reflexivity; assumption).
    rewrite Hfirst_js, Hsn. split; reflexivity.
Qed.

(** X9. Both parsers read back the header the gateway sends: from
    [t=<timestamp>,v1=<signature>] the PHP [parseSignatureHeader] recovers
    the timestamp and the signature whenever neither holds a comma, and the
    TypeScript parser does when, in addition, neither is empty nor holds an
    equals sign. *)
Theorem signature_header_round_trip (timestamp signature : string) :
  lacks ","%char timestamp = true -> lacks ","%char signature = true ->
  (array_get "t" (Webhook.parseSignatureHeader (signature_header timestamp signature))
     = Some timestamp /\
   array_get "v1" (Webhook.parseSignatureHeader (signature_header timestamp signature))
     = Some signature) /\
  (lacks "="%char timestamp = true -> lacks "="%char signature = true ->
   nonempty timestamp = true -> nonempty signature = true ->
   array_get "t" (header_parts (signature_header timestamp signature)) = Some timestamp /\
   array_get "v1" (header_parts (signature_header timestamp signature)) = Some signature).
Proof. exact (signature_header_parts timestamp signature). Qed.

Lemma signature_header_round_trip_witness :
  lacks ","%char "1700000000" = true /\ lacks ","%char "abc123" = true /\
  (array_get "t" (Webhook.parseSignatureHeader (signature_header "1700000000" "abc123"))
     = Some "1700000000" /\
   array_get "v1" (Webhook.parseSignatureHeader (signature_header "1700000000" "abc123"))
     = Some "abc123") /\
  (lacks "="%char "1700000000" = true -> lacks "="%char "abc123" = true ->
   nonempty "1700000000" = true -> nonempty "abc123" = true ->
   array_get "t" (header_parts (signature_header "1700000000" "abc123")) = Some "1700000000" /\
   array_get "v1" (header_parts (signature_header "1700000000" "abc123")) = Some "abc123").
Proof.
  split; [reflexivity|]. split; [reflexivity|].
  exact (signature_header_round_trip "1700000000" "abc123" eq_refl eq_refl).
Defined.

(** X10. In both parsers a later part replaces an earlier part of the same
    key and leaves the other keys alone: after [,t=<value>] is appended to
    any header, [t] reads as the new value and [v1] as before. *)
Theorem later_part_replaces_earlier (header value : string) :
  lacks ","%char value = true -> lacks "="%char value = true -> nonempty value = true ->
  (array_get "t" (Webhook.parseSignatureHeader (header ++ ",t=" ++ value)) = Some value /\
   array_get "v1" (Webhook.parseSignatureHeader (header ++ ",t=" ++ value))
     = array_get "v1" (Webhook.parseSignatureHeader header)) /\
  (array_get "t" (header_parts (header ++ ",t=" ++ value)) = Some value /\
   array_get "v1" (header_parts (header ++ ",t=" ++ value))
     = array_get "v1" (header_parts header)).
Proof.
  intros Hc He Hn.
  change (header ++ ",t=" ++ value)%string with (header ++ "," ++ "t" ++ "=" ++ value)%string.
  split.
  - rewrite parseSignatureHeader_last by (try reflexivity; assumption).
    split; [apply array_get_set_same|apply array_get_set_other; discriminate].
  - rewrite header_parts_last by (try reflexivity; assumption).
    simpl nonempty. rewrite Hn. split; reflexivity.
Qed.

Lemma later_part_replaces_earlier_witness :
  lacks ","%char "2" = true /\ lacks "="%char "2" = true /\ nonempty "2" = true /\
  (array_get "t" (Webhook.parseSignatureHeader ("t=1,v1=abc" ++ ",t=" ++ "2")) = Some "2" /\
   array_get "v1" (Webhook.parseSignatureHeader ("t=1,v1=abc" ++ ",t=" ++ "2"))
     = array_get "v1" (Webhook.parseSignatureHeader "t=1,v1=abc")) /\
  (array_get "t" (header_parts ("t=1,v1=abc" ++ ",t=" ++ "2")) = Some "2" /\
   array_get "v1" (header_parts ("t=1,v1=abc" ++ ",t=" ++ "2"))
     = array_get "v1" (header_parts "t=1,v1=abc")).
Proof.
  split; [reflexivity|]. split; [reflexivity|]. split; [reflexivity|].
  exact (later_part_replaces_earlier "t=1,v1=abc" "2" eq_refl eq_refl eq_refl).
Defined.

End HeaderSpec.

(** ** More on the verifiers *)

Lemma ascii_code_inj (c1 c2 : ascii) :
  Z.of_N (N_of_ascii c1) = Z.of_N (N_of_ascii c2) -> c1 = c2.
Proof.
  intros H. apply N2Z.inj in H.
  rewrite <- (ascii_N_embedding c1), <- (ascii_N_embedding c2), H. reflexivity.
Qed.

Lemma ascii_code_bound (c : ascii) : 0 <= Z.of_N (N_of_ascii c) < 256.
Proof. pose proof (N_ascii_bounded c). lia. Qed.

Lemma Buffer_from_cons (c : ascii) (s : string) :
  Buffer_from (String c s) = utf8_encode (Z.of_N (N_of_ascii c)) ++ Buffer_from s.
Proof. reflexivity. Qed.

(** A character below 256 is encoded on one byte below 128, or on two
    bytes of which the first is 194 or 195. *)
Lemma utf8_encode_char (x : Z) :
  0 <= x < 256 ->
  (x < 128 /\ utf8_encode x = [x]) \/
  (128 <= x /\ utf8_encode x = [192 + x / 64; 128 + x mod 64] /\ 194 <= 192 + x / 64).
Proof.
  intros Hx. unfold utf8_encode.
  destruct (Z.ltb_spec x 128) as [H|H]; [left; split; [exact H|reflexivity]|].
  right. destruct (Z.ltb_spec x 2048) as [H2|H2]; [|lia].
  split; [exact H|]. split; [reflexivity|].
  assert (2 <= x / 64) by (apply Z.div_le_lower_bound; lia). lia.
Qed.

Lemma cons_eq_inv {X : Type} (x y : X) (l l' : list X) :
  x :: l = y :: l' -> x = y /\ l = l'.
Proof. intros H. injection H as H1 H2. split; assumption. Qed.

(** [Buffer.from] loses nothing: two strings with the same bytes are the
    same string. *)
Lemma Buffer_from_inj (s t : string) : Buffer_from s = Buffer_from t -> s = t.
Proof.
  revert t. induction s as [|c s IH]; intros [|d t]; intros H.
  - reflexivity.
  - exfalso. rewrite Buffer_from_cons in H. change (Buffer_from "") with (@nil Z) in H.
    destruct (utf8_encode_char _ (ascii_code_bound d)) as [[_ E]|[_ [E _]]];
      rewrite E in H; discriminate H.
  - exfalso. rewrite Buffer_from_cons in H. change (Buffer_from "") with (@nil Z) in H.
    destruct (utf8_encode_char _ (ascii_code_bound c)) as [[_ E]|[_ [E _]]];
      rewrite E in H; discriminate H.
  - rewrite !Buffer_from_cons in H.
    pose proof (ascii_code_bound c) as Hc. pose proof (ascii_code_bound d) as Hd.
    destruct (utf8_encode_char _ Hc) as [[Hx Ex]|[Hx [Ex Fx]]];
      destruct (utf8_encode_char _ Hd) as [[Hy Ey]|[Hy [Ey Fy]]];
      rewrite Ex, Ey in H; cbn [app] in H.
    + apply cons_eq_inv in H. destruct H as [Hxy Hrest].
      apply ascii_code_inj in Hxy. apply IH in Hrest. subst. reflexivity.
    + exfalso. apply cons_eq_inv in H. destruct H as [Hxy _]. lia.
    + exfalso. apply cons_eq_inv in H. destruct H as [Hxy _]. lia.
    + apply cons_eq_inv in H. destruct H as [Hq H].
      apply cons_eq_inv in H. destruct H as [Hr Hrest].
      assert (Hxy : Z.of_N (N_of_ascii c) = Z.of_N (N_of_ascii d)).
      { rewrite (Z.div_mod (Z.of_N (N_of_ascii c)) 64), (Z.div_mod (Z.of_N (N_of_ascii d)) 64) by lia.
        lia. }
      apply ascii_code_inj in Hxy. apply IH in Hrest. subst. reflexivity.
Qed.

Lemma bytes_eqb_length (a b : list Z) : bytes_eqb a b = true -> List.length a = List.length b.
Proof. intros H. apply bytes_eqb_eq in H. subst. reflexivity. Qed.

(** [timingSafeEqual] on the buffers of two strings returns true exactly
    when the strings are equal; otherwise it returns false or throws. *)
Lemma timingSafeEqual_strings (s t : string) :
  outcome (timingSafeEqual (Buffer_from s) (Buffer_from t)) = Return true <-> s = t.
Proof.
  unfold timingSafeEqual, outcome. cbn [snd]. split.
  - destruct (_ =? _)%nat; [|discriminate].
    intros H. injection H as H. apply bytes_eqb_eq, Buffer_from_inj in H. exact H.
  - intros ->. rewrite Nat.eqb_refl. f_equal. apply bytes_eqb_eq. reflexivity.
Qed.

Lemma digest_truthy (s : string) :
  String.length s = 64%nat -> php_truthy_string (Some s) = true /\ nonempty s = true.
Proof.
  intros H. destruct s as [|c [|d s]]; simpl in H; try discriminate H.
  split; [|reflexivity]. unfold php_truthy_string. simpl.
  destruct (Ascii.eqb c "0"); reflexivity.
Qed.

Lemma lower_hex_lacks (sep : ascii) (s : string) :
  is_lower_hex sep = false ->
  forallb is_lower_hex (list_ascii_of_string s) = true -> lacks sep s = true.
Proof.
  intros Hsep. unfold lacks. apply forallb_impl. intros c Hc.
  apply negb_true_iff. destruct (Ascii.eqb c sep) eqn:E; [|reflexivity].
  apply Ascii.eqb_eq in E. subst c. rewrite Hsep in Hc. discriminate Hc.
Qed.

Module VerifierMore.
Import SahelPayMerchant.

Local Opaque createHmac_sha256_hex hash_hmac_sha256 JSON.parse Buffer_from.

(** When [Webhook::verify] returns, and that it throws otherwise. *)
Lemma verify_outcome (intval : string -> Z) (secret payload header : string)
    (now tolerance : Z) :
  php_truthy_string (Some secret) = true ->
  (outcome (Webhook.verify intval (Some secret) now payload header tolerance) = Return true
   <-> exists timestamp signature,
         array_get "t" (Webhook.parseSignatureHeader header) = Some timestamp /\
         array_get "v1" (Webhook.parseSignatureHeader header) = Some signature /\
         php_truthy_string (Some timestamp) = true /\
         Z.abs (now - intval timestamp) <= tolerance /\
         signature = hash_hmac_sha256 (timestamp ++ "." ++ payload) secret) /\
  (outcome (Webhook.verify intval (Some secret) now payload header tolerance) = Return true \/
   exists e, outcome (Webhook.verify intval (Some secret) now payload header tolerance) = Throw e).
Proof.
  intros Hsecret.
  destruct (array_get "t" (Webhook.parseSignatureHeader header)) as [timestamp|] eqn:Ht.
  2:{ unfold Webhook.verify. rewrite Hsecret, Ht. cbn [negb]. split.
      - split; [discriminate|]. intros (ts & sg & H & _). discriminate H.
      - right. eexists. reflexivity. }
  destruct (array_get "v1" (Webhook.parseSignatureHeader header)) as [signature|] eqn:Hv.
  2:{ unfold Webhook.verify. rewrite Hsecret, Ht, Hv. cbn [negb]. split.
      - split; [discriminate|]. intros (ts & sg & _ & H & _). discriminate H.
      - right. eexists. reflexivity. }
  rewrite (VerifierSpec.verify_timestamped intval _ _ _ _ _ _ _ Hsecret Ht Hv).
  assert (Hsame : forall ts sg (P : Prop),
            Some timestamp = Some ts -> Some signature = Some sg ->
            (ts = timestamp -> sg = signature -> P) -> P).
  { intros ts sg P H1 H2 HP. injection H1 as H1. injection H2 as H2.
    apply HP; symmetry; assumption. }
  destruct (php_truthy_string (Some timestamp)) eqn:Htt; cbn [negb orb].
  2:{ split.
      - split; [discriminate|]. intros (ts & sg & H1 & H2 & H3 & _).
        apply (Hsame ts sg _ H1 H2). intros -> ->. congruence.
      - right. eexists. reflexivity. }
  destruct (php_truthy_string (Some signature)) eqn:Hvt; cbn [negb orb].
  2:{ split.
      - split; [discriminate|]. intros (ts & sg & H1 & H2 & _ & _ & H5).
        apply (Hsame ts sg _ H1 H2). intros -> ->.
        rewrite H5 in Hvt.
        rewrite (proj1 (digest_truthy _ (hash_hmac_sha256_length _ _))) in Hvt.
        discriminate Hvt.
      - right. eexists. reflexivity. }
  destruct (Z.gtb_spec (Z.abs (now - intval timestamp)) tolerance) as [Hstale|Hfresh].
  { split.
    - split; [discriminate|]. intros (ts & sg & H1 & H2 & _ & H4 & _).
      apply (Hsame ts sg _ H1 H2). intros -> ->. lia.
    - right. eexists. reflexivity. }
  unfold hash_equals, bind, outcome. cbn [snd fst].
  destruct (String.eqb_spec (hash_hmac_sha256 (timestamp ++ "." ++ payload) secret) signature)
    as [Heq|Hne]; cbn [negb snd].
  - split; [|left; reflexivity]. split; [|reflexivity].
    intros _. exists timestamp, signature. repeat split; try assumption; try lia.
    symmetry. exact Heq.
  - split; [|right; eexists; reflexivity]. split; [discriminate|].
    intros (ts & sg & H1 & H2 & _ & _ & H5).
    apply (Hsame ts sg _ H1 H2). intros -> ->. symmetry in H5. contradiction.
Qed.

(** X11. [Webhook::verify] returns true exactly when the header has a [t]
    and a [v1] part, the timestamp is one PHP takes as present and lies
    within the tolerance of the clock, and [v1] is the lowercase
    hexadecimal HMAC-SHA256 of the secret over [t.payload]; in every other
    case it throws. *)
Theorem verify_accepts_iff (intval : string -> Z) (secret payload header : string)
    (now tolerance : Z) :
  php_truthy_string (Some secret) = true ->
  (outcome (Webhook.verify intval (Some secret) now payload header tolerance) = Return true
   <-> exists timestamp signature,
         array_get "t" (Webhook.parseSignatureHeader header) = Some timestamp /\
         array_get "v1" (Webhook.parseSignatureHeader header) = Some signature /\
         php_truthy_string (Some timestamp) = true /\
         Z.abs (now - intval timestamp) <= tolerance /\
         signature = hash_hmac_sha256 (timestamp ++ "." ++ payload) secret) /\
  (outcome (Webhook.verify intval (Some secret) now payload header tolerance) = Return true \/
   exists e, outcome (Webhook.verify intval (Some secret) now payload header tolerance) = Throw e).
Proof. exact (verify_outcome intval secret payload header now tolerance). Qed.

Lemma verify_accepts_iff_witness :
  php_truthy_string (Some sample_secret) = true /\
  outcome (Webhook.verify intval_decimal (Some sample_secret) 1700000100 sample_body
             (signature_header "1700000000"
                "e955d5f2c952427139707874ef92700fa7cd18a4b9fd150eeeac11518b5c1dad") 300)
  = Return true.
Proof.
  split; [reflexivity|].
  apply (proj1 (verify_accepts_iff intval_decimal sample_secret sample_body
                  (signature_header "1700000000"
                     "e955d5f2c952427139707874ef92700fa7cd18a4b9fd150eeeac11518b5c1dad")
                  1700000100 300 eq_refl)).
  exists "1700000000", "e955d5f2c952427139707874ef92700fa7cd18a4b9fd150eeeac11518b5c1dad".
  split; [reflexivity|]. split; [reflexivity|]. split; [reflexivity|].
  split; [vm_compute; discriminate|]. vm_compute. reflexivity.
Defined.

(** When [verifyWebhook] accepts a header with a [t] and a [v1] part. *)
Lemma verifyWebhook_outcome (secret rawBody header timestamp signature : string)
    (now_ms tolerance : Z) (parsed : JSON.json) :
  nonempty secret = true ->
  array_get "t" (header_parts header) = Some timestamp ->
  array_get "v1" (header_parts header) = Some signature ->
  (outcome (verifyWebhook (Some secret) now_ms rawBody (Some header) tolerance)
   = Return (mkResult true (Some parsed) None)
   <-> passes_freshness now_ms tolerance timestamp = true /\
       signature = createHmac_sha256_hex secret (timestamp ++ "." ++ rawBody) /\
       JSON.parse js_json (bytes_of_string rawBody) = Some parsed).
Proof.
  intros Hsecret Ht Hv.
  rewrite (VerifierSpec.verifyWebhook_timestamped _ _ _ _ _ _ _ Hsecret Ht Hv).
  unfold passes_freshness.
  set (stale := match parseInt timestamp with
                | Some t => Z.abs (now_ms / 1000 - t) >? tolerance
                | None => false
                end).
  assert (Hstale : match parseInt timestamp with
                   | Some t => negb (Z.abs (now_ms / 1000 - t) >? tolerance)
                   | None => true
                   end = negb stale).
  { unfold stale. destruct (parseInt timestamp); reflexivity. }
  rewrite Hstale. clear Hstale.
  destruct stale; cbn [negb].
  { split; [discriminate|]. intros [H _]. discriminate H. }
  pose proof (timingSafeEqual_strings signature
                (createHmac_sha256_hex secret (timestamp ++ "." ++ rawBody))) as Hcmp.
  unfold timingSafeEqual, outcome in Hcmp. cbn [snd] in Hcmp.
  unfold timingSafeEqual, bind, try_catch, outcome.
  destruct (_ =? _)%nat.
  - destruct (bytes_eqb _ _) eqn:Heq; cbn [negb].
    + assert (Hsig : signature = createHmac_sha256_hex secret (timestamp ++ "." ++ rawBody))
        by (apply Hcmp; reflexivity).
      unfold JSON_parse. destruct (JSON.parse js_json (bytes_of_string rawBody)) as [v|]; cbn.
      * split.
        -- intros H. injection H as <-. auto.
        -- intros (_ & _ & H). injection H as <-. reflexivity.
      * split; [discriminate|]. intros (_ & _ & H). discriminate H.
    + cbn. split; [discriminate|]. intros (_ & Hsig & _).
      apply Hcmp in Hsig. discriminate Hsig.
  - cbn. split; [discriminate|]. intros (_ & Hsig & _).
    apply Hcmp in Hsig. discriminate Hsig.
Qed.

(** X12. On a header with a [t] and a [v1] part, [verifyWebhook] returns a
    valid result with the parsed payload exactly when the timestamp passes
    the freshness test, [v1] is the lowercase hexadecimal HMAC-SHA256 of
    the secret over [t.rawBody], and [rawBody] parses as JSON to that
    payload. *)
Theorem verifyWebhook_accepts_iff (secret rawBody header timestamp signature : string)
    (now_ms tolerance : Z) (parsed : JSON.json) :
  nonempty secret = true ->
  array_get "t" (header_parts header) = Some timestamp ->
  array_get "v1" (header_parts header) = Some signature ->
  (outcome (verifyWebhook (Some secret) now_ms rawBody (Some header) tolerance)
   = Return (mkResult true (Some parsed) None)
   <-> passes_freshness now_ms tolerance timestamp = true /\
       signature = createHmac_sha256_hex secret (timestamp ++ "." ++ rawBody) /\
       JSON.parse js_json (bytes_of_string rawBody) = Some parsed).
Proof. exact (verifyWebhook_outcome secret rawBody header timestamp signature now_ms tolerance parsed). Qed.

Lemma verifyWebhook_accepts_iff_witness :
  exists parsed,
    JSON.parse js_json (bytes_of_string sample_body) = Some parsed /\
    outcome (verifyWebhook (Some sample_secret) 1700000100000 sample_body
               (Some (signature_header "1700000000"
                        "e955d5f2c952427139707874ef92700fa7cd18a4b9fd150eeeac11518b5c1dad")) 300)
    = Return (mkResult true (Some parsed) None).
Proof.
  eexists. split; [vm_compute; reflexivity|].
  apply (proj2 (verifyWebhook_accepts_iff sample_secret sample_body
                  (signature_header "1700000000"
                     "e955d5f2c952427139707874ef92700fa7cd18a4b9fd150eeeac11518b5c1dad")
                  "1700000000"
                  "e955d5f2c952427139707874ef92700fa7cd18a4b9fd150eeeac11518b5c1dad"
                  1700000100000 300 _ eq_refl eq_refl eq_refl)).
  split; [reflexivity|]. split; vm_compute; reflexivity.
Defined.

(** X13. A timestamp that [parseInt] does not read as a number is never
    checked for freshness: [verifyWebhook] gives the same result at every
    clock and for every tolerance. *)
Theorem unreadable_timestamp_is_not_replay_protected
    (secret rawBody header timestamp signature : string)
    (now_ms now_ms' tolerance tolerance' : Z) :
  nonempty secret = true ->
  array_get "t" (header_parts header) = Some timestamp ->
  array_get "v1" (header_parts header) = Some signature ->
  parseInt timestamp = None ->
  verifyWebhook (Some secret) now_ms rawBody (Some header) tolerance
  = verifyWebhook (Some secret) now_ms' rawBody (Some header) tolerance'.
Proof.
  intros Hsecret Ht Hv Hnan.
  rewrite !(VerifierSpec.verifyWebhook_timestamped _ _ _ _ _ _ _ Hsecret Ht Hv), Hnan.
  reflexivity.
Qed.

Lemma unreadable_timestamp_is_not_replay_protected_witness :
  parseInt "soon" = None /\
  verifyWebhook (Some sample_secret) 1700000000000 sample_body
    (Some "t=soon,v1=0000") 300
  = verifyWebhook (Some sample_secret) 4000000000000 sample_body
    (Some "t=soon,v1=0000") 0.
Proof.
  split; [reflexivity|].
  exact (unreadable_timestamp_is_not_replay_protected sample_secret sample_body
           "t=soon,v1=0000" "soon" "0000" 1700000000000 4000000000000 300 0
           eq_refl eq_refl eq_refl eq_refl).
Defined.

Lemma createHmac_sha256_hex_shape (secret payload : string) :
  let digest := createHmac_sha256_hex secret payload in
  lacks ","%char digest = true /\ lacks "="%char digest = true /\ nonempty digest = true.
Proof.
  Local Transparent createHmac_sha256_hex.
  unfold createHmac_sha256_hex.
  Local Opaque createHmac_sha256_hex.
  cbv zeta. split; [|split].
  - apply lower_hex_lacks; [reflexivity|apply hex_lower].
  - apply lower_hex_lacks; [reflexivity|apply hex_lower].
  - apply digest_truthy. rewrite hex_length, hmac_sha256_length. reflexivity.
Qed.

Lemma hash_hmac_sha256_shape (data key : string) :
  lacks ","%char (hash_hmac_sha256 data key) = true.
Proof.
  Local Transparent hash_hmac_sha256.
  unfold hash_hmac_sha256.
  Local Opaque hash_hmac_sha256.
  apply lower_hex_lacks; [reflexivity|apply hex_lower].
Qed.

(** X14. Signing and verifying compose in TypeScript: for every secret,
    every body that parses as JSON and every timestamp without comma or
    equals sign that passes the freshness test, [verifyWebhook] accepts the
    header [t=<timestamp>,v1=<HMAC of timestamp.body>] and returns the
    parsed body. *)
Theorem verifyWebhook_accepts_signed (secret rawBody timestamp : string)
    (now_ms tolerance : Z) (parsed : JSON.json) :
  nonempty secret = true ->
  nonempty timestamp = true ->
  lacks ","%char timestamp = true -> lacks "="%char timestamp = true ->
  passes_freshness now_ms tolerance timestamp = true ->
  JSON.parse js_json (bytes_of_string rawBody) = Some parsed ->
  outcome (verifyWebhook (Some secret) now_ms rawBody
             (Some (signature_header timestamp
                      (createHmac_sha256_hex secret (timestamp ++ "." ++ rawBody))))
             tolerance)
  = Return (mkResult true (Some parsed) None).
Proof.
  intros Hsecret Htn Htc Hte Hfresh Hjson.
  destruct (createHmac_sha256_hex_shape secret (timestamp ++ "." ++ rawBody)) as (Hc & He & Hn).
  destruct (HeaderSpec.signature_header_parts timestamp _ Htc Hc) as [_ Hjs].
  destruct (Hjs Hte He Htn Hn) as [Ht Hv].
  apply (proj2 (verifyWebhook_outcome _ _ _ _ _ _ _ _ Hsecret Ht Hv)).
  split; [exact Hfresh|]. split; [reflexivity|exact Hjson].
Qed.

Lemma verifyWebhook_accepts_signed_witness :
  exists parsed,
    JSON.parse js_json (bytes_of_string sample_body) = Some parsed /\
    passes_freshness 1700000100000 300 "1700000000" = true /\
    outcome (verifyWebhook (Some sample_secret) 1700000100000 sample_body
               (Some (signature_header "1700000000"
                        (createHmac_sha256_hex sample_secret
                           ("1700000000" ++ "." ++ sample_body))))
               300)
    = Return (mkResult true (Some parsed) None).
Proof.
  eexists. split; [vm_compute; reflexivity|]. split; [reflexivity|].
  apply (verifyWebhook_accepts_signed sample_secret sample_body "1700000000"
           1700000100000 300 _ eq_refl eq_refl eq_refl eq_refl eq_refl).
  vm_compute. reflexivity.
Defined.

(** X15. Signing and verifying compose in PHP: for every configured
    secret, every payload and every timestamp without comma that PHP takes
    as present and that lies within the tolerance, [Webhook::verify]
    returns true on the header [t=<timestamp>,v1=<HMAC of
    timestamp.payload>]. *)
Theorem verify_accepts_signed (intval : string -> Z) (secret payload timestamp : string)
    (now tolerance : Z) :
  php_truthy_string (Some secret) = true ->
  php_truthy_string (Some timestamp) = true ->
  lacks ","%char timestamp = true ->
  Z.abs (now - intval timestamp) <= tolerance ->
  outcome (Webhook.verify intval (Some secret) now payload
             (signature_header timestamp
                (hash_hmac_sha256 (timestamp ++ "." ++ payload) secret))
             tolerance)
  = Return true.
Proof.
  intros Hsecret Htt Htc Hfresh.
  destruct (HeaderSpec.signature_header_parts timestamp _ Htc
              (hash_hmac_sha256_shape (timestamp ++ "." ++ payload) secret)) as [[Ht Hv] _].
  apply (proj1 (verify_outcome intval _ _ _ _ _ Hsecret)).
  exists timestamp, (hash_hmac_sha256 (timestamp ++ "." ++ payload) secret).
  repeat split; assumption.
Qed.

Lemma verify_accepts_signed_witness :
  php_truthy_string (Some sample_secret) = true /\
  php_truthy_string (Some "1700000000") = true /\
  Z.abs (1700000100 - intval_decimal "1700000000") <= 300 /\
  outcome (Webhook.verify intval_decimal (Some sample_secret) 1700000100 sample_body
             (signature_header "1700000000"
                (hash_hmac_sha256 ("1700000000" ++ "." ++ sample_body) sample_secret))
             300)
  = Return true.
Proof.
  assert (Hfresh : Z.abs (1700000100 - intval_decimal "1700000000") <= 300)
    by (vm_compute; discriminate).
  split; [reflexivity|]. split; [reflexivity|]. split; [exact Hfresh|].
  exact (verify_accepts_signed intval_decimal sample_secret sample_body "1700000000"
           1700000100 300 eq_refl eq_refl eq_refl Hfresh).
Defined.

(** X16. [WebhooksAPI.parseEvent] returns a payload exactly when it runs
    under Node.js, the signature is the lowercase hexadecimal HMAC-SHA256
    of the secret over the payload alone, and the payload parses as JSON;
    in a browser it always throws. *)
Theorem parseEvent_returns_iff (node : bool) (payload signature secret : string)
    (parsed : JSON.json) :
  (outcome (WebhooksAPI.parseEvent node payload signature secret) = Return parsed
   <-> node = true /\ signature = createHmac_sha256_hex secret payload /\
       JSON.parse js_json (bytes_of_string payload) = Some parsed) /\
  (node = false ->
   outcome (WebhooksAPI.parseEvent node payload signature secret)
   = Throw (Error "Invalid webhook signature")).
Proof.
  unfold WebhooksAPI.parseEvent, WebhooksAPI.verifySignature.
  destruct node.
  - split; [|discriminate].
    unfold strict_equals, bind, outcome. cbn [fst snd].
    destruct (String.eqb_spec signature (createHmac_sha256_hex secret payload)) as [E|E];
      cbn [negb].
    + unfold JSON_parse. destruct (JSON.parse js_json (bytes_of_string payload)) as [v|]; cbn.
      * split.
        -- intros H. injection H as <-. auto.
        -- intros (_ & _ & H). injection H as <-. reflexivity.
      * split; [discriminate|]. intros (_ & _ & H). discriminate H.
    + cbn. split; [discriminate|]. intros (_ & H & _). contradiction.
  - split; [|reflexivity]. cbn. split; [discriminate|]. intros (H & _). discriminate H.
Qed.

Lemma verify_returns_true (intval : string -> Z) (webhookSecret : option string) (now : Z)
    (payload signatureHeader : string) (tolerance : Z) (ok : bool) :
  outcome (Webhook.verify intval webhookSecret now payload signatureHeader tolerance) = Return ok ->
  ok = true.
Proof.
  unfold Webhook.verify.
  destruct (negb (php_truthy_string webhookSecret)); [discriminate|].
  destruct (array_get "t" _) as [timestamp|]; [|discriminate].
  destruct (array_get "v1" _) as [signature|]; [|discriminate].
  destruct (_ || _); [discriminate|].
  destruct (_ >? _); [discriminate|].
  unfold hash_equals, bind, outcome. cbn [fst snd].
  destruct (negb _); cbn; congruence.
Qed.

(** What [Webhook::parse] returns: the event of a payload that decodes to
    a non-empty array. *)
Lemma parse_returns_iff (payload : string) (event : Webhook.WebhookEvent) :
  outcome (Webhook.parse payload) = Return event
  <-> exists entry entries,
        json_decode payload = PArray (entry :: entries) /\
        event = Webhook.mkWebhookEvent (entry :: entries).
Proof.
  unfold Webhook.parse.
  destruct (json_decode payload) as [|b|i|n|s|entries]; cbn [php_truthy].
  - cbn. split; [discriminate|]. intros (e & es & H & _). discriminate H.
  - destruct b; cbn; (split; [discriminate|]); intros (e & es & H & _); discriminate H.
  - destruct (negb (negb (i =? 0))); cbn; (split; [discriminate|]);
      intros (e & es & H & _); discriminate H.
  - destruct (negb (negb (float_is_zero n))); cbn; (split; [discriminate|]);
      intros (e & es & H & _); discriminate H.
  - destruct (negb (negb (String.eqb s "" || String.eqb s "0"))); cbn; (split; [discriminate|]);
      intros (e & es & H & _); discriminate H.
  - destruct entries as [|entry entries]; cbn.
    + split; [discriminate|]. intros (e & es & H & _). discriminate H.
    + split.
      * intros H. injection H as <-. exists entry, entries. split; reflexivity.
      * intros (e & es & H & ->). injection H as <- <-. reflexivity.
Qed.

(** X17. With a webhook secret configured, [Webhook::constructEvent]
    returns an event exactly when the header has a [t] and a [v1] part, the
    timestamp is one PHP takes as present and lies within the tolerance,
    [v1] is the lowercase hexadecimal HMAC-SHA256 of the secret over
    [t.payload], and the payload decodes to a non-empty array, which the
    event then holds: no event is built from a payload whose signature does
    not match. *)
Theorem constructEvent_returns_iff (intval : string -> Z) (secret payload header : string)
    (now tolerance : Z) (event : Webhook.WebhookEvent) :
  php_truthy_string (Some secret) = true ->
  (outcome (Webhook.constructEvent intval (Some secret) now payload header tolerance)
   = Return event
   <-> (exists timestamp signature,
          array_get "t" (Webhook.parseSignatureHeader header) = Some timestamp /\
          array_get "v1" (Webhook.parseSignatureHeader header) = Some signature /\
          php_truthy_string (Some timestamp) = true /\
          Z.abs (now - intval timestamp) <= tolerance /\
          signature = hash_hmac_sha256 (timestamp ++ "." ++ payload) secret) /\
       exists entry entries,
         json_decode payload = PArray (entry :: entries) /\
         event = Webhook.mkWebhookEvent (entry :: entries)).
Proof.
  intros Hsecret.
  rewrite <- parse_returns_iff.
  rewrite <- (proj1 (verify_outcome intval secret payload header now tolerance Hsecret)).
  unfold Webhook.constructEvent, bind, outcome.
  pose proof (verify_returns_true intval (Some secret) now payload header tolerance) as Htrue.
  unfold outcome in Htrue.
  destruct (Webhook.verify intval (Some secret) now payload header tolerance)
    as [made [ok|e]]; cbn [snd] in *.
  - rewrite (Htrue ok eq_refl).
    destruct (Webhook.parse payload) as [made' r]. cbn [snd].
    split; [intros H; split; [reflexivity|exact H]|intros [_ H]; exact H].
  - split; [discriminate|]. intros [H _]. discriminate H.
Qed.

Lemma constructEvent_returns_iff_witness :
  php_truthy_string (Some sample_secret) = true /\
  exists event,
    outcome (Webhook.constructEvent intval_decimal (Some sample_secret) 1700000100 sample_body
               (signature_header "1700000000"
                  "e955d5f2c952427139707874ef92700fa7cd18a4b9fd150eeeac11518b5c1dad") 300)
    = Return event.
Proof.
  split; [reflexivity|].
  eexists.
  apply (proj2 (constructEvent_returns_iff intval_decimal sample_secret sample_body
                  (signature_header "1700000000"
                     "e955d5f2c952427139707874ef92700fa7cd18a4b9fd150eeeac11518b5c1dad")
                  1700000100 300 _ eq_refl)).
  split.
  - exists "1700000000", "e955d5f2c952427139707874ef92700fa7cd18a4b9fd150eeeac11518b5c1dad".
    split; [reflexivity|]. split; [reflexivity|]. split; [reflexivity|].
    split; [vm_compute; discriminate|]. vm_compute. reflexivity.
  - eexists. eexists. split; [vm_compute; reflexivity|]. reflexivity.
Defined.

End VerifierMore.

(** ** The merchant client *)

Lemma nonempty_iff (s : string) : nonempty s = true <-> s <> "".
Proof. destruct s; simpl; split; congruence. Qed.

Lemma js_lt_finite (a : js_number) (bound : Q) :
  js_lt a (Finite bound) = false <->
  a = NaN \/ a = PosInfinity \/ exists x, a = Finite x /\ (bound <= x)%Q.
Proof.
  destruct a as [x| | |]; simpl.
  - rewrite negb_false_iff, Qle_bool_iff. split.
    + intros H. right. right. exists x. split; [reflexivity|exact H].
    + intros [H|[H|(y & H & Hy)]]; try discriminate H. injection H as ->. exact Hy.
  - split; [left; reflexivity|reflexivity].
  - split; [right; left; reflexivity|reflexivity].
  - split; [discriminate|]. intros [H|[H|(y & H & _)]]; discriminate H.
Qed.

Lemma js_gt_finite (a : js_number) (bound : Q) :
  js_gt a (Finite bound) = false <->
  a = NaN \/ a = NegInfinity \/ exists x, a = Finite x /\ (x <= bound)%Q.
Proof.
  unfold js_gt. destruct a as [x| | |]; simpl.
  - rewrite negb_false_iff, Qle_bool_iff. split.
    + intros H. right. right. exists x. split; [reflexivity|exact H].
    + intros [H|[H|(y & H & Hy)]]; try discriminate H. injection H as ->. exact Hy.
  - split; [left; reflexivity|reflexivity].
  - split; [discriminate|]. intros [H|[H|(y & H & _)]]; discriminate H.
  - split; [right; left; reflexivity|reflexivity].
Qed.

Lemma js_define_same (key : string) (v : js_value) (properties : list (string * js_value)) :
  array_get key (js_define key v properties) = Some v.
Proof.
  induction properties as [|[k w] rest IH]; simpl.
  - rewrite String.eqb_refl. reflexivity.
  - destruct (String.eqb key k) eqn:E; simpl; [rewrite String.eqb_refl; reflexivity|].
    rewrite E. exact IH.
Qed.

Lemma js_define_other (key other : string) (v : js_value)
    (properties : list (string * js_value)) :
  key <> other -> array_get other (js_define key v properties) = array_get other properties.
Proof.
  intros Hne. induction properties as [|[k w] rest IH]; simpl.
  - destruct (String.eqb_spec other key) as [E|E]; [congruence|reflexivity].
  - destruct (String.eqb_spec key k) as [->|Hk]; simpl.
    + destruct (String.eqb_spec other k) as [E|E]; [congruence|reflexivity].
    + destruct (String.eqb other k); [reflexivity|exact IH].
Qed.

Lemma length_append (a b : string) :
  String.length (a ++ b) = (String.length a + String.length b)%nat.
Proof. induction a as [|c a IH]; simpl; [reflexivity|]. rewrite IH. reflexivity. Qed.

Lemma append_cancel_r (a b s : string) : (a ++ s = b ++ s)%string -> a = b.
Proof.
  revert b. induction a as [|c a IH]; intros b H.
  - destruct b as [|d b]; [reflexivity|].
    apply (f_equal String.length) in H. simpl in H.
    rewrite length_append in H. lia.
  - destruct b as [|d b].
    + apply (f_equal String.length) in H. simpl in H.
      rewrite length_append in H. lia.
    + simpl in H. injection H as -> H. rewrite (IH b H). reflexivity.
Qed.

Lemma prefix_nonempty (p s : string) :
  nonempty p = true -> String.prefix p s = true -> nonempty s = true.
Proof. destruct p; [discriminate|]. destruct s; [discriminate|reflexivity]. Qed.

Module MerchantSpec.
Import SahelPayMerchant.

(** What a call made by [createPayment] tells. *)
Lemma createPayment_sent (request : api_call -> completion js_error js_value)
    (params : CreatePaymentParams) (call : api_call) :
  fst (createPayment request params) = [call] ->
  createPayment_accepts params = true /\
  call_method call = "POST" /\ call_path call = "/v1/payments" /\
  call_headers call = [("X-Idempotency-Key", "merchant-order-" ++ orderId params)%string] /\
  exists properties,
    call_data call = Some (JSObject properties) /\
    array_get "metadata" properties =
    Some (JSObject
            (js_define "description" (js_optional (description params))
               (js_define "merchant_order_id" (JSString (orderId params))
                  match metadata params with
                  | Some given => given
                  | None => []
                  end))).
Proof.
  unfold createPayment, createPayment_accepts.
  destruct (js_lt _ _); [discriminate|].
  destruct (js_gt _ _); [discriminate|].
  destruct (nonempty (orderId params)); [|discriminate].
  destruct (nonempty (customerPhone params)); [|discriminate].
  destruct (nonempty (returnUrl params)); [|discriminate].
  cbn [negb andb calling fst]. intros H. injection H as <-.
  repeat (split; [reflexivity|]). eexists. split; reflexivity.
Qed.

(** A call is made when the validation passes, and no call otherwise. *)
Lemma createPayment_sends (request : api_call -> completion js_error js_value)
    (params : CreatePaymentParams) :
  if createPayment_accepts params
  then exists call, fst (createPayment request params) = [call]
  else fst (createPayment request params) = [] /\
       exists message code,
         snd (createPayment request params) = Throw (SahelPayError message code None).
Proof.
  unfold createPayment, createPayment_accepts.
  destruct (js_lt _ _); [split; [reflexivity|eexists; eexists; reflexivity]|].
  destruct (js_gt _ _); [split; [reflexivity|eexists; eexists; reflexivity]|].
  destruct (nonempty (orderId params));
    [|split; [reflexivity|eexists; eexists; reflexivity]].
  destruct (nonempty (customerPhone params));
    [|split; [reflexivity|eexists; eexists; reflexivity]].
  destruct (nonempty (returnUrl params));
    [|split; [reflexivity|eexists; eexists; reflexivity]].
  eexists. reflexivity.
Qed.

Lemma createPayment_accepts_iff (params : CreatePaymentParams) :
  createPayment_accepts params = true <->
  (amount params = NaN \/
   exists x, amount params = Finite x /\ (100 <= x)%Q /\ (x <= 5000000)%Q) /\
  orderId params <> "" /\ customerPhone params <> "" /\ returnUrl params <> "".
Proof.
  unfold createPayment_accepts.
  rewrite !andb_true_iff, !negb_true_iff, js_lt_finite, js_gt_finite, !nonempty_iff.
  split.
  - intros ((((Hlow & Hhigh) & Ho) & Hp) & Hr). split; [|repeat split; assumption].
    destruct Hlow as [Hnan|[Hinf|(x & Hx & Hle)]]; [left; exact Hnan| |].
    + destruct Hhigh as [H|[H|(y & H & _)]]; rewrite Hinf in H; discriminate H.
    + destruct Hhigh as [H|[H|(y & H & Hy)]]; rewrite Hx in H; try discriminate H.
      injection H as <-. right. exists x. repeat split; assumption.
  - intros (Hamount & Ho & Hp & Hr). repeat split; try assumption.
    + destruct Hamount as [H|(x & H & Hx & _)];
        [left; exact H|right; right; exists x; split; assumption].
    + destruct Hamount as [H|(x & H & _ & Hx)];
        [left; exact H|right; right; exists x; split; assumption].
Qed.

(** X18. [createPayment] makes one call of the API, and it makes it
    exactly when the amount is not below 100 nor above 5,000,000 and the
    order id, the customer phone and the return URL are not empty; in every
    other case it throws a [SahelPayError] without calling the API.  An
    amount that is [NaN] is below and above nothing, and is let through. *)
Theorem createPayment_calls_iff_valid (request : api_call -> completion js_error js_value)
    (params : CreatePaymentParams) :
  ((exists call, fst (createPayment request params) = [call])
   <-> (amount params = NaN \/
        exists x, amount params = Finite x /\ (100 <= x)%Q /\ (x <= 5000000)%Q) /\
       orderId params <> "" /\ customerPhone params <> "" /\ returnUrl params <> "") /\
  ((exists call, fst (createPayment request params) = [call]) \/
   fst (createPayment request params) = [] /\
   exists message code,
     snd (createPayment request params) = Throw (SahelPayError message code None)).
Proof.
  pose proof (createPayment_sends request params) as Hsends.
  rewrite <- createPayment_accepts_iff. split.
  - split.
    + intros [call Hcall]. exact (proj1 (createPayment_sent request params call Hcall)).
    + intros Hok. rewrite Hok in Hsends. exact Hsends.
  - destruct (createPayment_accepts params); [left|right]; exact Hsends.
Qed.

(** X19. The idempotency key of a payment is made of the order id alone:
    two calls of [createPayment] carry the same [X-Idempotency-Key] header
    exactly when they are for the same order id, whatever the amounts, the
    phones and the other parameters, and the key is the only extra header. *)
Theorem idempotency_key_per_order
    (request request' : api_call -> completion js_error js_value)
    (params params' : CreatePaymentParams) (call call' : api_call) :
  fst (createPayment request params) = [call] ->
  fst (createPayment request' params') = [call'] ->
  List.length (call_headers call) = 1%nat /\
  (array_get "X-Idempotency-Key" (call_headers call)
   = array_get "X-Idempotency-Key" (call_headers call')
   <-> orderId params = orderId params').
Proof.
  intros Hcall Hcall'.
  destruct (createPayment_sent _ _ _ Hcall) as (_ & _ & _ & -> & _).
  destruct (createPayment_sent _ _ _ Hcall') as (_ & _ & _ & -> & _).
  split; [reflexivity|]. cbn [array_get]. rewrite String.eqb_refl. split.
  - intros H. injection H as H. exact H.
  - intros ->. reflexivity.
Qed.

Lemma idempotency_key_per_order_witness :
  exists call call',
    fst (createPayment api_unreachable (sample_order 5000 "order_123" None)) = [call] /\
    fst (createPayment api_unreachable (sample_order 250 "order_123" None)) = [call'] /\
    List.length (call_headers call) = 1%nat /\
    (array_get "X-Idempotency-Key" (call_headers call)
     = array_get "X-Idempotency-Key" (call_headers call')
     <-> orderId (sample_order 5000 "order_123" None)
         = orderId (sample_order 250 "order_123" None)).
Proof.
  eexists. eexists. split; [reflexivity|]. split; [reflexivity|].
  exact (idempotency_key_per_order api_unreachable api_unreachable
           (sample_order 5000 "order_123" None) (sample_order 250 "order_123" None)
           _ _ eq_refl eq_refl).
Defined.

(** X20. In the body [createPayment] sends, [metadata.merchant_order_id]
    is the order id and [metadata.description] is the description of the
    parameters (undefined when none is given) whatever the metadata of the
    caller hold under these two keys; every other key of the caller's
    metadata is sent as given. *)
Theorem metadata_of_payment (request : api_call -> completion js_error js_value)
    (params : CreatePaymentParams) (call : api_call) :
  fst (createPayment request params) = [call] ->
  exists body sent,
    call_data call = Some body /\
    js_member body "metadata" = Return (JSObject sent) /\
    array_get "merchant_order_id" sent = Some (JSString (orderId params)) /\
    array_get "description" sent = Some (js_optional (description params)) /\
    forall key,
      key <> "merchant_order_id" -> key <> "description" ->
      array_get key sent =
      array_get key match metadata params with
                    | Some given => given
                    | None => []
                    end.
Proof.
  intros Hcall.
  destruct (createPayment_sent _ _ _ Hcall) as (_ & _ & _ & _ & properties & Hbody & Hmeta).
  eexists. eexists. split; [exact Hbody|].
  split; [cbn [js_member]; rewrite Hmeta; reflexivity|].
  split; [|split].
  - rewrite js_define_other by discriminate. apply js_define_same.
  - apply js_define_same.
  - intros key Hk1 Hk2.
    rewrite js_define_other by congruence. apply js_define_other. congruence.
Qed.

Lemma metadata_of_payment_witness :
  exists call body sent,
    fst (createPayment api_unreachable
           (sample_order 5000 "order_123"
              (Some [("merchant_order_id", JSString "forged"); ("cart", JSString "c_9")])))
    = [call] /\
    call_data call = Some body /\
    js_member body "metadata" = Return (JSObject sent) /\
    array_get "merchant_order_id" sent = Some (JSString "order_123") /\
    array_get "cart" sent = Some (JSString "c_9").
Proof.
  destruct (metadata_of_payment api_unreachable
              (sample_order 5000 "order_123"
                 (Some [("merchant_order_id", JSString "forged"); ("cart", JSString "c_9")]))
              _ eq_refl) as (body & sent & Hbody & Hmeta & Hid & _ & Hothers).
  eexists. exists body, sent. split; [reflexivity|].
  split; [exact Hbody|]. split; [exact Hmeta|]. split; [exact Hid|].
  rewrite (Hothers "cart") by discriminate. reflexivity.
Defined.

(** X22. [getPaymentStatus] throws without calling the API when the
    payment id is empty, and otherwise makes one GET call without body
    whose path tells the payment id: two ids give the same path only when
    they are equal. *)
Theorem getPaymentStatus_calls (request request' : api_call -> completion js_error js_value)
    (paymentId paymentId' : string) :
  (paymentId = "" ->
   getPaymentStatus request paymentId
   = ([], Throw (SahelPayError "paymentId requis" "MISSING_PAYMENT_ID" None))) /\
  (paymentId <> "" ->
   exists call,
     fst (getPaymentStatus request paymentId) = [call] /\
     call_method call = "GET" /\ call_data call = None /\ call_headers call = [] /\
     forall call',
       fst (getPaymentStatus request' paymentId') = [call'] ->
       call_path call = call_path call' -> paymentId = paymentId').
Proof.
  split.
  - intros ->. reflexivity.
  - intros Hne. apply nonempty_iff in Hne. unfold getPaymentStatus. rewrite Hne.
    eexists. split; [reflexivity|]. repeat (split; [reflexivity|]).
    intros call'. destruct (nonempty paymentId'); [|discriminate].
    cbn [negb calling fst call_path]. intros H. injection H as <-. cbn [call_path].
    intros H. apply (append_cancel_r _ _ "/status").
    change ("/v1/payments/" ++ paymentId ++ "/status")%string
      with ("/v1/payments/" ++ (paymentId ++ "/status"))%string in H.
    change ("/v1/payments/" ++ paymentId' ++ "/status")%string
      with ("/v1/payments/" ++ (paymentId' ++ "/status"))%string in H.
    simpl in H. injection H as H. exact H.
Qed.

End MerchantSpec.

Module ClientSpec.

(** X21. A test key selects the sandbox in [SahelPayMerchant] only: for a
    secret key that starts with [sk_test_] and no base URL of its own, the
    merchant client talks to the sandbox whatever the environment says,
    production included, while the client of [SahelPay] talks to
    production unless the environment is [sandbox]. *)
Theorem test_key_selects_sandbox (key : string) (hook environment custom : option string)
    (timeout : option Z) :
  String.prefix "sk_test_" key = true ->
  custom = None \/ custom = Some "" ->
  (exists merchant,
     SahelPayMerchant.new
       (SahelPayMerchant.mkMerchantConfig key hook environment custom timeout)
     = Return merchant /\
     SahelPayMerchant.this_baseUrl merchant = "https://sandbox.sahelpay.ml") /\
  (exists client,
     SahelPay.new (SahelPay.mkSahelPayConfig key environment custom timeout) = Return client /\
     SahelPay.this_baseUrl client =
     if match environment with
        | Some e => String.eqb e "sandbox"
        | None => false
        end
     then "https://sandbox.sahelpay.ml" else "https://api.sahelpay.ml").
Proof.
  intros Hkey Hcustom.
  assert (Hne : nonempty key = true) by (apply (prefix_nonempty "sk_test_"); [reflexivity|exact Hkey]).
  unfold SahelPayMerchant.new, SahelPay.new, SahelPay.new_SahelPayClient.
  cbn [SahelPayMerchant.secretKey SahelPayMerchant.baseUrl SahelPayMerchant.environment
       SahelPay.secretKey SahelPay.baseUrl SahelPay.environment].
  rewrite Hne, Hkey, orb_true_r. cbn [negb].
  split; eexists; (split; [reflexivity|]);
    destruct Hcustom as [-> | ->]; reflexivity.
Qed.

Lemma test_key_selects_sandbox_witness :
  String.prefix "sk_test_" "sk_test_4f2a" = true /\
  (exists merchant,
     SahelPayMerchant.new
       (SahelPayMerchant.mkMerchantConfig "sk_test_4f2a" None (Some "production") None None)
     = Return merchant /\
     SahelPayMerchant.this_baseUrl merchant = "https://sandbox.sahelpay.ml") /\
  (exists client,
     SahelPay.new (SahelPay.mkSahelPayConfig "sk_test_4f2a" (Some "production") None None)
     = Return client /\
     SahelPay.this_baseUrl client = "https://api.sahelpay.ml").
Proof.
  split; [reflexivity|].
  exact (test_key_selects_sandbox "sk_test_4f2a" None (Some "production") None None
           eq_refl (or_introl eq_refl)).
Defined.

End ClientSpec.

(** ** The webhook route of the template *)

Lemma createHmac_sha256_hex_length (secret payload : string) :
  String.length (createHmac_sha256_hex secret payload) = 64%nat.
Proof. unfold createHmac_sha256_hex. rewrite hex_length, hmac_sha256_length. reflexivity. Qed.

Module RouteSpec.
Import SahelPayMerchant.

Local Opaque createHmac_sha256_hex JSON.parse Buffer_from.

Lemma verifySignature_valid_iff (String_error : js_error -> string)
    (secret body header : string) (now_ms tolerance : Z) :
  (exists v,
     outcome (WebhookRoute.verifySignature String_error now_ms body header secret tolerance)
     = Return v /\ WebhookRoute.valid v = true)
  <-> signed_by secret body header now_ms tolerance.
Proof.
  unfold WebhookRoute.verifySignature, signed_by.
  destruct (array_get "t" (header_parts header)) as [timestamp|];
    destruct (array_get "v1" (header_parts header)) as [signature|].
  - set (stale := match parseInt timestamp with
                  | Some t => Z.abs (now_ms / 1000 - t) >? tolerance
                  | None => false
                  end).
    assert (Hstale : passes_freshness now_ms tolerance timestamp = negb stale).
    { unfold passes_freshness, stale. destruct (parseInt timestamp); reflexivity. }
    pose proof (timingSafeEqual_strings signature
                  (createHmac_sha256_hex secret (timestamp ++ "." ++ body))) as Hcmp.
    unfold timingSafeEqual, outcome in Hcmp. cbn [snd] in Hcmp.
    clearbody stale. destruct stale; cbn [negb] in Hstale.
    { cbn. split.
      - intros (v & H & Hv). injection H as <-. discriminate Hv.
      - intros [(ts & sg & H1 & _ & H & _)|(H & _)]; [|discriminate H].
        injection H1 as <-. rewrite Hstale in H. discriminate H. }
    unfold timingSafeEqual, bind, try_catch, outcome.
    destruct (_ =? _)%nat.
    + destruct (bytes_eqb _ _) eqn:Heq; cbn.
      * split.
        -- intros _. left. exists timestamp, signature. repeat split; [exact Hstale|].
           apply Hcmp. reflexivity.
        -- intros _. eexists. split; reflexivity.
      * split.
        -- intros (v & H & Hv). injection H as <-. discriminate Hv.
        -- intros [(ts & sg & H1 & H2 & _ & H4)|(H & _)]; [|discriminate H].
           injection H1 as <-. injection H2 as <-. apply (proj2 Hcmp) in H4. discriminate H4.
    + cbn. split.
      * intros (v & H & Hv). injection H as <-. discriminate Hv.
      * intros [(ts & sg & H1 & H2 & _ & H4)|(H & _)]; [|discriminate H].
        injection H1 as <-. injection H2 as <-. apply (proj2 Hcmp) in H4. discriminate H4.
  - cbn. split.
    + intros (v & H & Hv). injection H as <-. discriminate Hv.
    + intros [(ts & sg & _ & H & _)|(H & _)]; discriminate H.
  - cbn. split.
    + intros (v & H & Hv). injection H as <-. discriminate Hv.
    + intros [(ts & sg & H & _)|(_ & H & _)]; discriminate H.
  - pose proof (timingSafeEqual_strings header (createHmac_sha256_hex secret body)) as Hcmp.
    unfold timingSafeEqual, outcome in Hcmp. cbn [snd] in Hcmp.
    destruct (Z.eqb_spec (Z.of_nat (String.length header)) 64) as [Hlen|Hlen].
    + unfold timingSafeEqual, bind, try_catch, outcome.
      destruct (_ =? _)%nat.
      * destruct (bytes_eqb _ _) eqn:Heq; cbn.
        -- split.
           ++ intros _. right. repeat split. apply Hcmp. reflexivity.
           ++ intros _. eexists. split; reflexivity.
        -- split.
           ++ intros (v & H & Hv). injection H as <-. discriminate Hv.
           ++ intros [(ts & sg & H & _)|(_ & _ & H)]; [discriminate H|].
              apply (proj2 Hcmp) in H. discriminate H.
      * cbn. split.
        -- intros (v & H & Hv). injection H as <-. discriminate Hv.
        -- intros [(ts & sg & H & _)|(_ & _ & H)]; [discriminate H|].
           apply (proj2 Hcmp) in H. discriminate H.
    + cbn. split.
      * intros (v & H & Hv). injection H as <-. discriminate Hv.
      * intros [(ts & sg & H & _)|(_ & _ & H)]; [discriminate H|].
        elim Hlen. rewrite H, createHmac_sha256_hex_length. reflexivity.
Qed.

(** The same for [verifyWebhook], which parses the body too. *)
Lemma verifyWebhook_valid_iff (secret body header : string) (now_ms tolerance : Z)
    (parsed : JSON.json) :
  nonempty secret = true -> nonempty header = true ->
  (outcome (verifyWebhook (Some secret) now_ms body (Some header) tolerance)
   = Return (mkResult true (Some parsed) None)
   <-> signed_by secret body header now_ms tolerance /\
       JSON.parse js_json (bytes_of_string body) = Some parsed).
Proof.
  intros Hsecret Hheader.
  destruct (nonempty_string secret Hsecret) as (c & secret' & ->).
  destruct (nonempty_string header Hheader) as (h & header' & ->).
  unfold verifyWebhook, signed_by.
  set (secret := String c secret'). set (header := String h header').
  destruct (array_get "t" (header_parts header)) as [timestamp|];
    destruct (array_get "v1" (header_parts header)) as [signature|].
  - set (stale := match parseInt timestamp with
                  | Some t => Z.abs (now_ms / 1000 - t) >? tolerance
                  | None => false
                  end).
    assert (Hstale : passes_freshness now_ms tolerance timestamp = negb stale).
    { unfold passes_freshness, stale. destruct (parseInt timestamp); reflexivity. }
    pose proof (timingSafeEqual_strings signature
                  (createHmac_sha256_hex secret (timestamp ++ "." ++ body))) as Hcmp.
    unfold timingSafeEqual, outcome in Hcmp. cbn [snd] in Hcmp.
    clearbody stale. destruct stale; cbn [negb] in Hstale.
    { cbn. split; [discriminate|].
      intros [[(ts & sg & H1 & _ & H & _)|(H & _)] _]; [|discriminate H].
      injection H1 as <-. rewrite Hstale in H. discriminate H. }
    unfold timingSafeEqual, bind, try_catch, outcome.
    destruct (_ =? _)%nat.
    + destruct (bytes_eqb _ _) eqn:Heq; cbn [negb].
      * unfold JSON_parse.
        destruct (JSON.parse js_json (bytes_of_string body)) as [v|]; cbn.
        -- split.
           ++ intros H. injection H as <-. split; [|reflexivity].
              left. exists timestamp, signature. repeat split; [exact Hstale|].
              apply Hcmp. reflexivity.
           ++ intros [_ H]. injection H as <-. reflexivity.
        -- split; [discriminate|]. intros [_ H]. discriminate H.
      * cbn. split; [discriminate|].
        intros [[(ts & sg & H1 & H2 & _ & H4)|(H & _)] _]; [|discriminate H].
        injection H1 as <-. injection H2 as <-. apply (proj2 Hcmp) in H4. discriminate H4.
    + cbn. split; [discriminate|].
      intros [[(ts & sg & H1 & H2 & _ & H4)|(H & _)] _]; [|discriminate H].
      injection H1 as <-. injection H2 as <-. apply (proj2 Hcmp) in H4. discriminate H4.
  - cbn. split; [discriminate|].
    intros [[(ts & sg & _ & H & _)|(H & _)] _]; discriminate H.
  - cbn. split; [discriminate|].
    intros [[(ts & sg & H & _)|(_ & H & _)] _]; discriminate H.
  - pose proof (timingSafeEqual_strings header (createHmac_sha256_hex secret body)) as Hcmp.
    unfold timingSafeEqual, outcome in Hcmp. cbn [snd] in Hcmp.
    destruct (Z.eqb_spec (Z.of_nat (String.length header)) 64) as [Hlen|Hlen].
    + unfold timingSafeEqual, bind, try_catch, outcome.
      destruct (_ =? _)%nat.
      * destruct (bytes_eqb _ _) eqn:Heq; cbn [negb].
        -- unfold JSON_parse.
           destruct (JSON.parse js_json (bytes_of_string body)) as [v|]; cbn.
           ++ split.
              ** intros H. injection H as <-. split; [|reflexivity].
                 right. repeat split. apply Hcmp. reflexivity.
              ** intros [_ H]. injection H as <-. reflexivity.
           ++ split; [discriminate|]. intros [_ H]. discriminate H.
        -- cbn. split; [discriminate|].
           intros [[(ts & sg & H & _)|(_ & _ & H)] _]; [discriminate H|].
           apply (proj2 Hcmp) in H. discriminate H.
      * cbn. split; [discriminate|].
        intros [[(ts & sg & H & _)|(_ & _ & H)] _]; [discriminate H|].
        apply (proj2 Hcmp) in H. discriminate H.
    + cbn. split; [discriminate|].
      intros [[(ts & sg & H & _)|(_ & _ & H)] _]; [discriminate H|].
      elim Hlen. rewrite H, createHmac_sha256_hex_length. reflexivity.
Qed.

(** X23. The verifier of the template and the verifier of the SDK accept
    the same signatures: for every secret, header, clock and tolerance,
    [verifyWebhook] returns a valid result with the parsed body exactly
    when [verifySignature] of the template finds the header valid and the
    body parses as JSON to that value. *)
Theorem template_verifier_agrees_with_sdk (String_error : js_error -> string)
    (secret body header : string) (now_ms tolerance : Z) (parsed : JSON.json) :
  nonempty secret = true -> nonempty header = true ->
  (outcome (verifyWebhook (Some secret) now_ms body (Some header) tolerance)
   = Return (mkResult true (Some parsed) None)
   <-> (exists v,
          outcome (WebhookRoute.verifySignature String_error now_ms body header secret tolerance)
          = Return v /\ WebhookRoute.valid v = true) /\
       JSON.parse js_json (bytes_of_string body) = Some parsed).
Proof.
  intros Hsecret Hheader.
  rewrite (verifyWebhook_valid_iff _ _ _ _ _ _ Hsecret Hheader), verifySignature_valid_iff.
  reflexivity.
Qed.

Lemma template_verifier_agrees_with_sdk_witness :
  exists parsed,
    JSON.parse js_json (bytes_of_string sample_body) = Some parsed /\
    (outcome (verifyWebhook (Some sample_secret) 1700000100000 sample_body
                (Some "t=1700000000,v1=0000") 300)
     = Return (mkResult true (Some parsed) None)
     <-> (exists v,
            outcome (WebhookRoute.verifySignature error_message 1700000100000 sample_body
                       "t=1700000000,v1=0000" sample_secret 300)
            = Return v /\ WebhookRoute.valid v = true) /\
         JSON.parse js_json (bytes_of_string sample_body) = Some parsed).
Proof.
  eexists. split; [vm_compute; reflexivity|].
  exact (template_verifier_agrees_with_sdk error_message sample_secret sample_body
           "t=1700000000,v1=0000" 1700000100000 300 _ eq_refl eq_refl).
Defined.

(** X24. With a secret in the environment, the route answers 200 only to
    a body that came with a valid signature: a header whose [v1] is the
    HMAC-SHA256 of the secret over [t.body] and whose timestamp passes the
    freshness test at 300 seconds, or the bare HMAC-SHA256 of the body; and
    that body parses as JSON. *)
Theorem route_answers_ok_only_when_signed (String_error : js_error -> string)
    (secret body : string) (header : option string) (now_ms : Z)
    (answer : WebhookRoute.response) :
  nonempty secret = true ->
  outcome (WebhookRoute.POST String_error (Some secret) now_ms body header) = Return answer ->
  WebhookRoute.status answer = 200 ->
  exists signature parsed,
    header = Some signature /\
    signed_by secret body signature now_ms 300 /\
    JSON.parse js_json (bytes_of_string body) = Some parsed.
Proof.
  intros Hsecret Hanswer Hstatus.
  destruct (nonempty_string secret Hsecret) as (c & secret' & ->).
  unfold WebhookRoute.POST in Hanswer.
  set (signature := match header with Some s => s | None => "" end) in Hanswer.
  destruct (nonempty signature) eqn:Hsig; cbn [negb] in Hanswer.
  2:{ cbn in Hanswer. injection Hanswer as <-. discriminate Hstatus. }
  pose proof (verifySignature_valid_iff String_error (String c secret') body signature now_ms 300)
    as Hvalid.
  destruct (WebhookRoute.verifySignature String_error now_ms body signature (String c secret') 300)
    as [made [v|e]] eqn:Hverify.
  2:{ cbn in Hanswer. injection Hanswer as <-. discriminate Hstatus. }
  unfold bind at 2 in Hanswer.
  destruct (WebhookRoute.valid v) eqn:Hv; cbn [negb] in Hanswer.
  2:{ cbn in Hanswer. injection Hanswer as <-. discriminate Hstatus. }
  assert (Hsigned : signed_by (String c secret') body signature now_ms 300).
  { apply Hvalid. exists v. split; [reflexivity|exact Hv]. }
  assert (Hheader : header = Some signature).
  { destruct header as [s|]; [reflexivity|discriminate Hsig]. }
  unfold JSON_parse in Hanswer.
  destruct (JSON.parse js_json (bytes_of_string body)) as [parsed|] eqn:Hparse.
  - exists signature, parsed. repeat split; assumption.
  - cbn in Hanswer. injection Hanswer as <-. discriminate Hstatus.
Qed.

Lemma route_answers_ok_only_when_signed_witness :
  let header :=
    signature_header "1700000000"
      (createHmac_sha256_hex sample_secret ("1700000000" ++ "." ++ sample_order_body)) in
  outcome (WebhookRoute.POST error_message (Some sample_secret) 1700000100000
             sample_order_body (Some header))
  = Return (WebhookRoute.mkResponse 200 WebhookRoute.Received) /\
  exists signature parsed,
    Some header = Some signature /\
    signed_by sample_secret sample_order_body signature 1700000100000 300 /\
    JSON.parse js_json (bytes_of_string sample_order_body) = Some parsed.
Proof.
  intros header.
  assert (Hanswer : outcome (WebhookRoute.POST error_message (Some sample_secret) 1700000100000
                               sample_order_body (Some header))
                    = Return (WebhookRoute.mkResponse 200 WebhookRoute.Received))
    by (vm_compute; reflexivity).
  split; [exact Hanswer|].
  exact (route_answers_ok_only_when_signed error_message sample_secret sample_order_body
           (Some header) 1700000100000 _ eq_refl Hanswer eq_refl).
Defined.

End RouteSpec.

(** ** The two SDKs on the webhooks of the gateway *)









Module InteropSpec.
Import SahelPayMerchant.

Local Opaque createHmac_sha256_hex hash_hmac_sha256 JSON.parse Buffer_from.



End InteropSpec.
